(** * Connect-K: the board model, the line scanner, the outcome evaluator
      and the move heuristics of [common.py], embedded in Rocq.

    Python integers are [Z]; a board is the list of its rows, top row
    first; a run is a player with the list of positions of its cells.
    Python exceptions are the [Raise] outcome of [result]; a generator is
    the list of what it yields together with the exception that ended it,
    if one did. *)

From stdpp Require Import base list gmap.
From Stdlib Require Import ZArith QArith Qabs Lia Sorted.

Local Open Scope Z_scope.

(** ** Outcomes of Python code *)

Inductive exn := IndexError | ValueError | AssertionError.

(** [Diverge] is a loop that never exits (only [count_free_cells] has one). *)
Inductive result (A : Type) :=
  | Ok (a : A)
  | Raise (e : exn)
  | Diverge.
Arguments Ok {A} a.
Arguments Raise {A} e.
Arguments Diverge {A}.

#[global] Instance result_ret : MRet result := fun A a => Ok a.
#[global] Instance result_bind : MBind result := fun A B f m =>
  match m with
  | Ok a => f a
  | Raise e => Raise e
  | Diverge => Diverge
  end.

#[global] Instance exn_eq_dec : EqDecision exn.
Proof. solve_decision. Defined.
#[global] Instance result_eq_dec {A} `{EqDecision A} : EqDecision (result A).
Proof. solve_decision. Defined.

(** A generator: the items it yields, then the exception that ends it
    ([None] when it is exhausted normally). *)
Definition gen (A : Type) : Type := list A * option exn.

Definition gen_app {A} (g1 g2 : gen A) : gen A :=
  match g1.2 with
  | Some e => g1
  | None => (g1.1 ++ g2.1, g2.2)
  end.

(** [for x in xs: yield from f(x)] *)
Definition gen_concat {A} (gs : list (gen A)) : gen A :=
  foldr gen_app ([], None) gs.

(** ** Python lists *)

(** [range(a, b)] *)
Definition range (a b : Z) : list Z := seqZ a (b - a).

(** [enumerate(l)] *)
Definition enumerate {A} (l : list A) : list (Z * A) :=
  imap (fun i x => (Z.of_nat i, x)) l.

(** The index of [l[i]] in a list of length [len]: a negative [i] counts
    from the end, and an index outside [-len, len) is an [IndexError]. *)
Definition norm_index (len : nat) (i : Z) : option nat :=
  if 0 <=? i then
    if i <? Z.of_nat len then Some (Z.to_nat i) else None
  else
    if - Z.of_nat len <=? i then Some (Z.to_nat (Z.of_nat len + i)) else None.

(** [l[i]] *)
Definition py_get {A} (l : list A) (i : Z) : result A :=
  match norm_index (length l) i with
  | Some n =>
      match l !! n with
      | Some x => Ok x
      | None => Raise IndexError
      end
  | None => Raise IndexError
  end.

(** [l[i] = x] *)
Definition py_set {A} (l : list A) (i : Z) (x : A) : result (list A) :=
  match norm_index (length l) i with
  | Some n => Ok (<[n:=x]> l)
  | None => Raise IndexError
  end.

(** Slices [l[start:stop:step]], with the clamping of CPython's
    [PySlice_AdjustIndices]; [None] is an omitted bound. *)
Definition slice_adjust (len step i : Z) : Z :=
  if i <? 0 then
    if i + len <? 0 then (if step <? 0 then -1 else 0) else i + len
  else if len <=? i then (if step <? 0 then len - 1 else len)
  else i.

Definition py_slice {A} (l : list A) (start stop : option Z) (step : Z)
  : list A :=
  let len := Z.of_nat (length l) in
  let lo := match start with
            | Some i => slice_adjust len step i
            | None => if step <? 0 then len - 1 else 0
            end in
  let hi := match stop with
            | Some i => slice_adjust len step i
            | None => if step <? 0 then -1 else len
            end in
  let n := if step <? 0
           then (if hi <? lo then (lo - hi - 1) / (- step) + 1 else 0)
           else (if lo <? hi then (hi - lo - 1) / step + 1 else 0) in
  omap (fun t => l !! Z.to_nat (lo + step * t)) (seqZ 0 n).

(** ** Constants and types *)

Definition GAME_NOT_OVER : Z := 0.
Definition DRAW : Z := -1.

Abbreviation Player := Z (only parsing).
Abbreviation Cell := Z (only parsing).
Abbreviation Board := (list (list Z)) (only parsing).
Abbreviation Column := Z (only parsing).
Abbreviation Position := (Z * Z)%type (only parsing).
Abbreviation Run := (Z * list (Z * Z))%type (only parsing).

(** ** Board *)

(** [[[0] * num_cols for _ in range(num_rows)]] *)
Definition create_board (num_rows num_cols : Z) : Board :=
  replicate (Z.to_nat num_rows) (replicate (Z.to_nat num_cols) 0).

Definition get_free_columns (board : Board) : result (list Z) :=
  row0 ← py_get board 0;
  Ok (omap (fun '(i, cell) => if cell =? 0 then Some (i + 1) else None)
        (enumerate row0)).

(** The run compression of one line.  [cells] is the iterable: an element
    is [Raise] when computing it raises (the generator expressions index
    rows lazily). *)
Definition flush (current_player : Z) (positions : list Position) : list Run :=
  if (1 <? Z.of_nat (length positions)) && negb (current_player =? 0)
  then [(current_player, positions)] else [].

Fixpoint pieces_in_a_row_from_cells (current_player : Z)
    (positions : list Position) (cells : list (result (Position * Z)))
  : gen Run :=
  match cells with
  | [] => (flush current_player positions, None)
  | Ok (position, cell) :: cells =>
      if cell =? current_player
      then pieces_in_a_row_from_cells current_player
             (positions ++ [position]) cells
      else gen_app (flush current_player positions, None)
             (pieces_in_a_row_from_cells cell [position] cells)
  | Raise e :: _ => ([], Some e)
  | Diverge :: _ => ([], None) (* indexing a row never loops *)
  end.

Definition board_with_positions (board : Board) : list (list (Position * Z)) :=
  imap (fun i row => imap (fun j cell => ((Z.of_nat i, Z.of_nat j), cell)) row)
    board.

(** The lines of the six loops of [pieces_in_a_row], in the order of the
    source. *)
Section Lines.
Variable bwp : list (list (Position * Z)).
Variables num_rows num_cols : Z.

(* Horizontal *)
Definition horizontal_lines : list (list (result (Position * Z))) :=
  (fun row : list (Position * Z) => Ok <$> row) <$> bwp.

(* Vertical *)
Definition vertical_lines : list (list (result (Position * Z))) :=
  (fun column_index => (fun row : list (Position * Z) => py_get row column_index) <$> bwp)
    <$> range 0 num_cols.

(* Diagonal, down and right, starting in the top row *)
Definition down_lines_top : list (list (result (Position * Z))) :=
  (fun starting_column =>
     (fun '(offset, row) => py_get (row : list (Position * Z)) (starting_column + offset))
       <$> enumerate
             (py_slice bwp None (Some (num_cols - starting_column)) 1))
    <$> range 0 (num_cols - 1).

(* Diagonal, down and right, starting in the first column *)
Definition down_lines_left : list (list (result (Position * Z))) :=
  (fun starting_row =>
     (fun '(offset, row) => py_get (row : list (Position * Z)) offset)
       <$> enumerate
             (py_slice bwp (Some starting_row)
                (Some (starting_row + num_cols)) 1))
    <$> range 1 (num_rows - 1).

(* Diagonal, up and right, starting in the bottom row *)
Definition up_lines_bottom : list (list (result (Position * Z))) :=
  (fun starting_column =>
     (fun '(offset, row) => py_get (row : list (Position * Z)) (starting_column + offset))
       <$> enumerate
             (py_slice bwp (Some (-1))
                (Some (- (num_cols - starting_column) - 1)) (-1)))
    <$> range 0 (num_cols - 1).

(* Diagonal, up and right, starting in the first column *)
Definition up_lines_left : list (list (result (Position * Z))) :=
  (fun starting_row =>
     let last_index := starting_row - num_cols in
     (fun '(offset, row) => py_get (row : list (Position * Z)) offset)
       <$> enumerate
             (py_slice bwp (Some starting_row)
                (if last_index <? 0 then None else Some last_index) (-1)))
    <$> range 1 (num_rows - 1).

Definition all_lines : list (list (result (Position * Z))) :=
  horizontal_lines ++ vertical_lines ++ down_lines_top ++ down_lines_left
    ++ up_lines_bottom ++ up_lines_left.
End Lines.

Definition pieces_in_a_row (board : Board) : gen Run :=
  match py_get board 0 with
  | Ok row0 =>
      let num_rows := Z.of_nat (length board) in
      let num_cols := Z.of_nat (length row0) in
      gen_concat
        (pieces_in_a_row_from_cells 0 []
           <$> all_lines (board_with_positions board) num_rows num_cols)
  | Raise e => ([], Some e)
  | Diverge => ([], None)
  end.

(** [0 in row] *)
Definition contains_zero (row : list Z) : bool := existsb (Z.eqb 0) row.

Definition long_enough (k : Z) (run : Run) : bool :=
  k <=? Z.of_nat (length run.2).

Definition end_of_game (k : Z) (board : Board) : result Z :=
  let '(runs, ending) := pieces_in_a_row board in
  match find (long_enough k) runs with
  | Some (player, _) => Ok player
  | None =>
      match ending with
      | Some e => Raise e
      | None =>
          row0 ← py_get board 0;
          Ok (if contains_zero row0 then GAME_NOT_OVER else DRAW)
      end
  end.

(** [drop_piece] mutates the board: the board after the call is returned
    with the outcome.  [drop_from_bottom] is the loop over
    [reversed(board)]. *)
Fixpoint drop_from_bottom (rows : list (list Z)) (index player : Z)
  : list (list Z) * result bool :=
  match rows with
  | [] => ([], Ok false)
  | row :: rest =>
      match py_get row index with
      | Ok cell =>
          if cell =? 0 then
            match py_set row index player with
            | Ok row' => (row' :: rest, Ok true)
            | Raise e => (row :: rest, Raise e)
            | Diverge => (row :: rest, Diverge)
            end
          else
            let '(rest', r) := drop_from_bottom rest index player in
            (row :: rest', r)
      | Raise e => (row :: rest, Raise e)
      | Diverge => (row :: rest, Diverge)
      end
  end.

Definition drop_piece (board : Board) (player : Z) (column : Z)
  : Board * result bool :=
  let index := column - 1 in
  let '(rows, r) := drop_from_bottom (reverse board) index player in
  (reverse rows, r).

(** The copy is a fresh board, so on values the copy is the board itself
    (the store model below has the copy as the source has it). *)
Definition copy_and_drop_piece (board : Board) (player : Z) (column : Z)
  : result Board :=
  let '(new_board, r) := drop_piece board player column in
  _ ← r; Ok new_board.

(** ** Players *)

(** The loop [for column in free_columns: if end_of_game(k,
    copy_and_drop_piece(board, who, column)) == who: return column]. *)
Fixpoint first_winning_column (k : Z) (board : Board) (who : Z)
    (free_columns : list Z) : result (option Z) :=
  match free_columns with
  | [] => Ok None
  | column :: rest =>
      new_board ← copy_and_drop_piece board who column;
      state ← end_of_game k new_board;
      if state =? who then Ok (Some column)
      else first_winning_column k board who rest
  end.

(** The loop over [i in range(num_players - 1)]. *)
Fixpoint block_opponents (k num_players : Z) (board : Board)
    (free_columns : list Z) (player : Z) (indices : list Z)
  : result (option Z) :=
  match indices with
  | [] => Ok None
  | i :: rest =>
      let opponent := (player + i) `mod` num_players + 1 in
      found ← first_winning_column k board opponent free_columns;
      match found with
      | Some column => Ok (Some column)
      | None => block_opponents k num_players board free_columns player rest
      end
  end.

Definition win_or_block_column (k num_players : Z) (board : Board)
    (free_columns : list Z) (player : Z) : result (option Z) :=
  found ← first_winning_column k board player free_columns;
  match found with
  | Some column => Ok (Some column)
  | None =>
      block_opponents k num_players board free_columns player
        (range 0 (num_players - 1))
  end.

(** *** Hard CPU player *)

(** The [while True] loop of [count_free_cells]; [fuel] bounds the number
    of iterations and [Diverge] is a loop that outlives it. *)
Fixpoint count_free_cells (fuel : nat) (board : Board) (num_rows num_cols : Z)
    (row col row_diff col_diff count : Z) : result Z :=
  match fuel with
  | O => Diverge
  | S fuel =>
      let row := row + row_diff in
      let col := col + col_diff in
      if (0 <=? row) && (row <? num_rows) && (0 <=? col) && (col <? num_cols)
      then
        cells ← py_get board row;
        cell ← py_get cells col;
        if cell =? 0
        then count_free_cells fuel board num_rows num_cols row col
               row_diff col_diff (count + 1)
        else Ok count
      else Ok count
  end.

(** A loop that steps by a non-zero difference leaves the board within
    [num_rows + num_cols + 1] iterations (lemma [count_free_cells_fuel]);
    one that steps by zero and does not exit at once never exits. *)
Definition can_win_from_pieces (k : Z) (board : Board)
    (positions : list Position) : result bool :=
  let num_rows := Z.of_nat (length board) in
  row0 ← py_get board 0;
  let num_cols := Z.of_nat (length row0) in
  let fuel := S (length board + length row0) in
  fst_pos ← py_get positions 0;
  snd_pos ← py_get positions 1;
  lst_pos ← py_get positions (-1);
  let row_diff := snd_pos.1 - fst_pos.1 in
  let col_diff := snd_pos.2 - fst_pos.2 in
  forwards ← count_free_cells fuel board num_rows num_cols
                lst_pos.1 lst_pos.2 row_diff col_diff 0;
  backwards ← count_free_cells fuel board num_rows num_cols
                 fst_pos.1 fst_pos.2 (- row_diff) (- col_diff) 0;
  Ok (k - Z.of_nat (length positions) <=? forwards + backwards).

Fixpoint can_win_now_loop (k : Z) (board : Board) (player : Z)
    (columns : list Z) : result bool :=
  match columns with
  | [] => Ok false
  | column :: rest =>
      new_board ← copy_and_drop_piece board player column;
      state ← end_of_game k new_board;
      if state =? player then Ok true
      else can_win_now_loop k board player rest
  end.

Definition can_win_now (k : Z) (board : Board) (player : Z) : result bool :=
  columns ← get_free_columns board;
  can_win_now_loop k board player columns.

(** [for x in g: s = body(x, s)] over a generator. *)
Fixpoint for_each {A S} (body : A → S → result S) (xs : list A) (s : S)
  : result S :=
  match xs with
  | [] => Ok s
  | x :: rest => s' ← body x s; for_each body rest s'
  end.

Definition for_gen {A S} (g : gen A) (body : A → S → result S) (s : S)
  : result S :=
  s' ← for_each body g.1 s;
  match g.2 with
  | Some e => Raise e
  | None => Ok s'
  end.

(** [counts[i][j] += 1] *)
Definition bump (counts : list (list Z)) (i j : Z) : result (list (list Z)) :=
  row ← py_get counts i;
  x ← py_get row j;
  row' ← py_set row j (x + 1);
  py_set counts i row'.

Definition count_player_run (k : Z) (board : Board) (player : Z)
    (run : Run) (counts : list (list Z)) : result (list (list Z)) :=
  let '(row_player, cells) := run in
  if row_player =? player then
    threat ← can_win_from_pieces k board cells;
    if threat : bool then bump counts (k - Z.of_nat (length cells) - 1) 0
    else Ok counts
  else Ok counts.

Definition count_opponent_run (k : Z) (board_with_opponents_play : Board)
    (opponent : Z) (run : Run) (counts : list (list Z))
  : result (list (list Z)) :=
  let '(row_player, cells) := run in
  if row_player =? opponent then
    threat ← can_win_from_pieces k board_with_opponents_play cells;
    if threat : bool then
      if negb (Z.of_nat (length cells) =? 2)
      then bump counts (k - Z.of_nat (length cells) - 1) 1
      else Ok counts
    else Ok counts
  else Ok counts.

(** The loop over [opponent in range(1, num_players + 1)]. *)
Fixpoint score_opponents (k : Z) (board : Board) (player column : Z)
    (opponents : list Z) (counts : list (list Z))
  : result (bool * list (list Z)) :=
  match opponents with
  | [] => Ok (true, counts)
  | opponent :: rest =>
      if opponent =? player
      then score_opponents k board player column rest counts
      else
        board_with_players_play ← copy_and_drop_piece board player column;
        loses ← can_win_now k board_with_players_play opponent;
        if loses : bool then Ok (false, [])
        else
          board_with_opponents_play ←
            copy_and_drop_piece board opponent column;
          counts' ← for_gen (pieces_in_a_row board_with_opponents_play)
                      (count_opponent_run k board_with_opponents_play opponent)
                      counts;
          score_opponents k board player column rest counts'
  end.

Definition column_score (k num_players : Z) (board : Board)
    (player column : Z) : result (bool * list (list Z)) :=
  let counts := replicate (Z.to_nat (k - 2)) [0; 0] in
  new_board ← copy_and_drop_piece board player column;
  counts ← for_gen (pieces_in_a_row new_board)
             (count_player_run k board player) counts;
  score_opponents k board player column (range 1 (num_players + 1)) counts.

(** Python's [>] and [==] on the keys of [cpu_player_hard]: lists and
    tuples compare at the first position where they differ, a list that is
    a proper prefix of another is smaller, and [True > False]. *)
Fixpoint py_list_eq {A} (eqA : A → A → bool) (a b : list A) : bool :=
  match a, b with
  | [], [] => true
  | x :: a, y :: b => eqA x y && py_list_eq eqA a b
  | _, _ => false
  end.

Fixpoint py_list_gt {A} (eqA gtA : A → A → bool) (a b : list A) : bool :=
  match a, b with
  | [], _ => false
  | _ :: _, [] => true
  | x :: a, y :: b => if eqA x y then py_list_gt eqA gtA a b else gtA x y
  end.

(** A row of the counts, a list of integers. *)
Definition ints_eq : list Z → list Z → bool := py_list_eq Z.eqb.

Definition ints_gt : list Z → list Z → bool :=
  py_list_gt Z.eqb (fun x y => y <? x).

(** The counts, a list of rows. *)
Definition counts_eq : list (list Z) → list (list Z) → bool :=
  py_list_eq ints_eq.

Definition counts_gt : list (list Z) → list (list Z) → bool :=
  py_list_gt ints_eq ints_gt.

Definition score_eq (a b : bool * list (list Z)) : bool :=
  eqb a.1 b.1 && counts_eq a.2 b.2.

Definition score_gt (a b : bool * list (list Z)) : bool :=
  if eqb a.1 b.1 then counts_gt a.2 b.2 else a.1 && negb b.1.

Definition Key : Type := (bool * list (list Z)) * Q.

Definition key_gt (a b : Key) : bool :=
  if score_eq a.1 b.1 then negb (Qle_bool a.2 b.2) else score_gt a.1 b.1.

(** [max(items, key=key)]: the first item whose key no other exceeds. *)
Fixpoint max_loop (key : Z → result Key) (items : list Z)
    (max_item : Z) (max_val : Key) : result Z :=
  match items with
  | [] => Ok max_item
  | item :: rest =>
      val ← key item;
      if key_gt val max_val then max_loop key rest item val
      else max_loop key rest max_item max_val
  end.

Definition py_max (key : Z → result Key) (items : list Z) : result Z :=
  match items with
  | [] => Raise ValueError
  | item :: rest => val ← key item; max_loop key rest item val
  end.

(** The second component of the key.  [(num_cols + 1) / 2] is a float in
    Python; halves of integers are exact in binary floating point, so the
    rationals give the same comparisons. *)
Definition center_distance_key (num_cols column : Z) : Q :=
  (inject_Z num_cols
   - Qabs (inject_Z (num_cols + 1) / inject_Z 2 - inject_Z column))%Q.

Definition hard_key (k num_players : Z) (board : Board) (player : Z)
    (num_cols : Z) (column : Z) : result Key :=
  score ← column_score k num_players board player column;
  Ok (score, center_distance_key num_cols column).

(** [cpu_player_hard] mutates the board: the board after the call is
    returned with the outcome. *)
Definition choose_column_hard (k num_players : Z) (board : Board)
    (player : Z) : result Z :=
  row0 ← py_get board 0;
  let num_cols := Z.of_nat (length row0) in
  free_columns ← get_free_columns board;
  found ← win_or_block_column k num_players board free_columns player;
  match found with
  | Some column =>
      (* [x or y] takes [y] when [x] is [None] or [0] *)
      if column =? 0
      then py_max (hard_key k num_players board player num_cols) free_columns
      else Ok column
  | None => py_max (hard_key k num_players board player num_cols) free_columns
  end.

Definition cpu_player_hard (k num_players : Z) (board : Board) (player : Z)
  : Board * result Z :=
  match choose_column_hard k num_players board player with
  | Ok chosen_column =>
      let '(board', dropped) := drop_piece board player chosen_column in
      (board',
       ok ← dropped;
       if ok : bool then Ok chosen_column else Raise AssertionError)
  | Raise e => (board, Raise e)
  | Diverge => (board, Diverge)
  end.

(** ** The store: rows as mutable objects

    A Python board is a list of references to row objects, and
    [drop_piece] writes into a row object in place.  The store maps a
    reference to the row it holds; the outer list of a board is never
    written to, so a board object is the list of its row references. *)
Module Store.
Abbreviation loc := nat (only parsing).
Abbreviation heap := (gmap nat (list Z)) (only parsing).

(** The rows a board object holds in a store. *)
Definition contents (h : gmap loc (list Z)) (board : list loc) : Board :=
  (fun l => default [] (h !! l)) <$> board.

Fixpoint drop_from_bottom (h : gmap loc (list Z)) (rows : list loc)
    (index player : Z) : gmap loc (list Z) * result bool :=
  match rows with
  | [] => (h, Ok false)
  | r :: rest =>
      let row := default [] (h !! r) in
      match py_get row index with
      | Ok cell =>
          if cell =? 0 then
            match py_set row index player with
            | Ok row' => (<[r:=row']> h, Ok true)
            | Raise e => (h, Raise e)
            | Diverge => (h, Diverge)
            end
          else drop_from_bottom h rest index player
      | Raise e => (h, Raise e)
      | Diverge => (h, Diverge)
      end
  end.

Definition drop_piece (h : gmap loc (list Z)) (board : list loc)
    (player column : Z) : gmap loc (list Z) * result bool :=
  let index := column - 1 in
  drop_from_bottom h (reverse board) index player.

(** [[row.copy() for row in board]]: every copy is a new object. *)
Fixpoint copy_rows (h : gmap loc (list Z)) (rows : list loc)
  : gmap loc (list Z) * list loc :=
  match rows with
  | [] => (h, [])
  | r :: rest =>
      let l := fresh (dom h) in
      let '(h', ls) := copy_rows (<[l:=default [] (h !! r)]> h) rest in
      (h', l :: ls)
  end.

Definition copy_and_drop_piece (h : gmap loc (list Z)) (board : list loc)
    (player column : Z) : gmap loc (list Z) * result (list loc) :=
  let '(h1, new_board) := copy_rows h board in
  let '(h2, r) := drop_piece h1 new_board player column in
  (h2, _ ← r; Ok new_board).
End Store.

(** ** Specification vocabulary *)

(** The cell in row [r] and column [c], both counted from 0. *)
Definition cell (board : Board) (r c : nat) : option Z :=
  row ← board !! r; row !! c.

(** The cell at a position; [None] outside the board. *)
Definition cell_at (board : Board) (p : Position) : option Z :=
  if (0 <=? p.1) && (0 <=? p.2)
  then cell board (Z.to_nat p.1) (Z.to_nat p.2)
  else None.

(** A board of [m] rows of [n] cells each. *)
Definition rect (m n : nat) (board : Board) : Prop :=
  length board = m ∧ Forall (fun row => length row = n) board.

(** Every piece rests on the bottom or on another piece. *)
Definition gravity (board : Board) : Prop :=
  ∀ r c x, cell board r c = Some x → x ≠ 0 →
    ∀ r', (r < r' < length board)%nat → cell board r' c ≠ Some 0.

(** The fold of [get_free_columns] over a top row. *)
Definition free_of (row0 : list Z) : list Z :=
  omap (fun '(i, x) => if x =? 0 then Some (i + 1) else None) (enumerate row0).

(** Row [r] holds the lowest empty cell of column [c]. *)
Definition lowest_empty (board : Board) (c r : nat) : Prop :=
  cell board r c = Some 0 ∧ ∀ r', (r < r')%nat → cell board r' c ≠ Some 0.

(** The runs of a line whose cells all evaluate. *)
Definition runs_of (cs : list (Position * Z)) : list Run :=
  (pieces_in_a_row_from_cells 0 [] (Ok <$> cs)).1.

(** [run] is a block of the line [cs]: at least two adjacent cells of one
    player, with a different cell (or the end of the line) on each side. *)
Definition block_in (cs : list (Position * Z)) (run : Run) : Prop :=
  ∃ pre blk post,
    cs = pre ++ blk ++ post
    ∧ run.2 = blk.*1
    ∧ Forall (fun c : Position * Z => c.2 = run.1) blk
    ∧ (2 <= length blk)%nat
    ∧ run.1 ≠ 0
    ∧ (∀ c, last pre = Some c → c.2 ≠ run.1)
    ∧ (∀ c, head post = Some c → c.2 ≠ run.1).

(** The value of a cell of the board. *)
Definition value_at (board : Board) (p : Position) : Z :=
  default 0 (cell_at board p).

(** The position [t] steps of [d] away from [start]. *)
Definition pos_on (start d : Z * Z) (t : Z) : Position :=
  (start.1 + d.1 * t, start.2 + d.2 * t).

(** [len] positions from [start], stepping by [d]. *)
Definition segment (start d : Z * Z) (len : nat) : list Position :=
  (fun t : nat => (start.1 + d.1 * Z.of_nat t, start.2 + d.2 * Z.of_nat t))
    <$> seq 0 len.

Definition cells_on (board : Board) (ps : list Position)
  : list (Position * Z) :=
  (fun p => (p, value_at board p)) <$> ps.

(** The lines of a board of [m] rows and [n] columns, each with its first
    position, its direction and its length, in the order
    [pieces_in_a_row] scans them. *)
Definition line_specs (m n : Z) : list (Position * (Z * Z) * nat) :=
  ((fun i => ((i, 0), (0, 1), Z.to_nat n)) <$> range 0 m)
  ++ ((fun j => ((0, j), (1, 0), Z.to_nat m)) <$> range 0 n)
  ++ ((fun sc => ((0, sc), (1, 1), Z.to_nat (Z.min m (n - sc))))
        <$> range 0 (n - 1))
  ++ ((fun sr => ((sr, 0), (1, 1), Z.to_nat (Z.min (m - sr) n)))
        <$> range 1 (m - 1))
  ++ ((fun sc => ((m - 1, sc), (-1, 1), Z.to_nat (Z.min m (n - sc))))
        <$> range 0 (n - 1))
  ++ ((fun sr => ((sr, 0), (-1, 1), Z.to_nat (Z.min (sr + 1) n)))
        <$> range 1 (m - 1)).

Definition line_cells (board : Board) (spec : Position * (Z * Z) * nat)
  : list (Position * Z) :=
  cells_on board (segment spec.1.1 spec.1.2 spec.2).

(** The four scan directions: right, down, down-right and up-right. *)
Definition directions : list (Z * Z) := [(0, 1); (1, 0); (1, 1); (-1, 1)].

Definition in_board (m n : Z) (p : Position) : Prop :=
  0 <= p.1 < m ∧ 0 <= p.2 < n.

(** A maximal run: at least two cells of one player in a row along one
    of the four directions, listed from its first cell to its last, that
    cannot be extended at either end. *)
Definition maximal_run (board : Board) (run : Run) : Prop :=
  ∃ start d (len : nat),
    d ∈ directions
    ∧ run.2 = segment start d len
    ∧ (2 <= len)%nat
    ∧ run.1 ≠ 0
    ∧ (∀ p, p ∈ run.2 → cell_at board p = Some run.1)
    ∧ cell_at board (start.1 - d.1, start.2 - d.2) ≠ Some run.1
    ∧ cell_at board
        (start.1 + d.1 * Z.of_nat len, start.2 + d.2 * Z.of_nat len)
      ≠ Some run.1.

(** What tells the lines apart: the direction, and the cross product of
    the direction with any position of the line. *)
Definition spec_key (spec : Position * (Z * Z) * nat) : Z * Z * Z :=
  let '(start, d, _) := spec in
  (d.1, d.2, d.2 * start.1 - d.1 * start.2).

Definition run_key (run : Run) : Z * Z * Z :=
  match run.2 with
  | a :: b :: _ =>
      (b.1 - a.1, b.2 - a.2, (b.2 - a.2) * a.1 - (b.1 - a.1) * a.2)
  | _ => (0, 0, 0)
  end.

(** Cells hold [0] (empty) or a player from [1] to [num_players]. *)
Definition valid_cells (num_players : Z) (board : Board) : Prop :=
  Forall (Forall (fun x => 0 <= x <= num_players)) board.

(** Dropping in [column] makes [who] the winner at once. *)
Definition wins (k : Z) (board : Board) (who column : Z) : Prop :=
  ∃ new_board,
    copy_and_drop_piece board who column = Ok new_board
    ∧ end_of_game k new_board = Ok who.

(** [column] is the first of [columns] that wins for [who]. *)
Definition first_win (k : Z) (board : Board) (who : Z) (columns : list Z)
    (column : Z) : Prop :=
  ∃ i : nat,
    columns !! i = Some column
    ∧ wins k board who column
    ∧ ∀ (j : nat) c, (j < i)%nat → columns !! j = Some c →
                     ¬ wins k board who c.

Definition no_win (k : Z) (board : Board) (who : Z) (columns : list Z)
  : Prop :=
  ∀ c, c ∈ columns → ¬ wins k board who c.

(** The player whose turn follows that of [player]. *)
Definition next_player (num_players player : Z) : Z :=
  player `mod` num_players + 1.

(** The board of the second concrete scenario of the specification. *)
Definition scenario_board : Board :=
  replicate 5 (replicate 7 0) ++ [[1; 0; 1; 1; 1; 0; 0]].

(** The first [w] values of [l] exist and all equal [x]. *)
Fixpoint all_eq (w : nat) (x : Z) (l : list Z) : bool :=
  match w with
  | O => true
  | S w =>
      match l with
      | [] => false
      | y :: l => (y =? x) && all_eq w x l
      end
  end.

(** The player of the first window of [w] equal non-empty cells. *)
Fixpoint first_window (w : nat) (l : list Z) : option Z :=
  match l with
  | [] => None
  | x :: l' =>
      if negb (x =? 0) && all_eq w x l then Some x else first_window w l'
  end.

(** The run compression, keeping only the player of the first block of
    at least [w] cells. *)
Fixpoint scan_owner (w : nat) (cur : Z) (cnt : nat) (vs : list Z)
  : option Z :=
  match vs with
  | [] => if (w <=? cnt)%nat && negb (cur =? 0) then Some cur else None
  | v :: vs =>
      if v =? cur then scan_owner w cur (S cnt) vs
      else if (w <=? cnt)%nat && negb (cur =? 0) then Some cur
           else scan_owner w v 1 vs
  end.

Fixpoint first_some {A B} (g : A → option B) (l : list A) : option B :=
  match l with
  | [] => None
  | x :: l =>
      match g x with
      | Some y => Some y
      | None => first_some g l
      end
  end.

(** The window length that makes a run long enough to win. *)
Definition win_length (k : Z) : nat := Z.to_nat (Z.max k 2).

(** The player of the first long run of a board of [m] rows and [n]
    columns, line by line. *)
Definition board_owner (k : Z) (m n : Z) (board : Board) : option Z :=
  first_some
    (fun spec => first_window (win_length k) (line_cells board spec).*2)
    (line_specs m n).

(** [board'] is [board] with some cells replaced by [q]. *)
Definition fills (q : Z) (board board' : Board) : Prop :=
  ∀ p, value_at board p = value_at board' p ∨ value_at board' p = q.

(** The number of elements of [l] that satisfy [f]. *)
Fixpoint count_if {A} (f : A → bool) (l : list A) : Z :=
  match l with
  | [] => 0
  | x :: l => (if f x then 1 else 0) + count_if f l
  end.

(** [can_win_from_pieces] returns True. *)
Definition threat (k : Z) (board : Board) (positions : list Position) : bool :=
  match can_win_from_pieces k board positions with
  | Ok true => true
  | _ => false
  end.

(** The board after [who] drops in [column]. *)
Definition dropped (board : Board) (who column : Z) : Board :=
  (drop_piece board who column).1.

(** The runs of [who] of length [L] that [pieces_in_a_row] yields on
    [scanned] and that are extendable on [probed]; with [skip_pairs],
    runs of length 2 are left out. *)
Definition threats (k who L : Z) (probed scanned : Board) (skip_pairs : bool)
  : Z :=
  count_if
    (fun run : Run =>
       (run.1 =? who) && (Z.of_nat (length run.2) =? L)
       && threat k probed run.2 && negb (skip_pairs && (L =? 2)))
    (pieces_in_a_row scanned).1.

(** The two entries of the row of [column_score] for run length [L]. *)
Definition player_count (k : Z) (board : Board) (player column L : Z) : Z :=
  threats k player L board (dropped board player column) false.

Definition opponent_count (k num_players : Z) (board : Board)
    (player column L : Z) : Z :=
  foldr Z.add 0
    ((fun opponent =>
        if opponent =? player then 0
        else threats k opponent L (dropped board opponent column)
               (dropped board opponent column) true)
       <$> range 1 (num_players + 1)).

(** A counts table of [K] rows: row [i] is [[f i 0; f i 1]]. *)
Definition table (K : nat) (T : list (list Z)) (f : nat → nat → Z) : Prop :=
  length T = K
  ∧ ∀ i, (i < K)%nat → T !! i = Some [f i 0%nat; f i 1%nat].

(** [who] has a free column of [board] that wins at once. *)
Definition immediate_win (k : Z) (board : Board) (who : Z) : Prop :=
  ∃ top c, board !! 0%nat = Some top ∧ c ∈ free_of top ∧ wins k board who c.

(** After [player]'s drop in [column] some opponent wins at once. *)
Definition loses (k num_players : Z) (board : Board) (player column : Z)
  : Prop :=
  ∃ o, 1 <= o <= num_players ∧ o ≠ player
       ∧ immediate_win k (dropped board player column) o.

(** No run on the board after a drop of [who] in [column] reaches
    length [k]. *)
Definition short_runs (k : Z) (board : Board) (who column : Z) : Prop :=
  ∀ run, run ∈ (pieces_in_a_row (dropped board who column)).1 →
         Z.of_nat (length run.2) < k.

(** The order of the keys in the words of the specification: the
    flag first, [True] above [False], then the counts read row after row
    from index 0, the player's count before the opponents'; between equal
    scores the larger tiebreak. *)
Fixpoint lex_gt (a b : list Z) : bool :=
  match a, b with
  | x :: a, y :: b => if x =? y then lex_gt a b else y <? x
  | _, _ => false
  end.

Definition score_above (a b : bool * list (list Z)) : bool :=
  if eqb a.1 b.1 then lex_gt (mjoin a.2) (mjoin b.2) else a.1 && negb b.1.

Definition key_above (a b : Key) : bool :=
  score_above a.1 b.1
  || (bool_decide (a.1 = b.1) && negb (Qle_bool a.2 b.2)).

(** The scores that [column_score] returns for a table of [K] rows. *)
Definition shaped (K : nat) (score : bool * list (list Z)) : Prop :=
  score = (false, [])
  ∨ (score.1 = true ∧ length score.2 = K
     ∧ Forall (fun row => length row = 2%nat) score.2).

(** The number of empty cells of a board. *)
Definition empty_cells (board : Board) : Z :=
  count_if (fun x => x =? 0) (mjoin board).

(** The [t] cells that follow [p] in direction [d] are empty cells of the
    board, and the next one is not. *)
Definition free_run (board : Board) (p d : Z * Z) (t : nat) : Prop :=
  (∀ i : nat, (1 <= i <= t)%nat →
              cell_at board (pos_on p d (Z.of_nat i)) = Some 0)
  ∧ cell_at board (pos_on p d (Z.of_nat (S t))) ≠ Some 0.

(** ** The random players and the games of the CPU

    [random.choice(seq)] raises [IndexError] on an empty sequence and
    otherwise returns [seq[i]] for some [i] below [len(seq)]; [draw]
    stands for the number drawn, taken modulo the length. *)
Definition random_choice {A} (draw : nat) (seq : list A) : result A :=
  match seq with
  | [] => Raise IndexError
  | _ :: _ => py_get seq (Z.of_nat (draw mod length seq))
  end.

(** [assert drop_piece(board, player, chosen_column); return
    chosen_column] *)
Definition drop_chosen (board : Board) (player chosen_column : Z)
  : Board * result Z :=
  let '(board', dropped) := drop_piece board player chosen_column in
  (board',
   ok ← dropped;
   if ok : bool then Ok chosen_column else Raise AssertionError).

Definition cpu_player_easy (draw : nat) (board : Board) (player : Z)
  : Board * result Z :=
  match (free_columns ← get_free_columns board;
         random_choice draw free_columns) with
  | Ok chosen_column => drop_chosen board player chosen_column
  | Raise e => (board, Raise e)
  | Diverge => (board, Diverge)
  end.

Definition choose_column_medium (draw : nat) (k num_players : Z)
    (board : Board) (player : Z) : result Z :=
  free_columns ← get_free_columns board;
  found ← win_or_block_column k num_players board free_columns player;
  match found with
  | Some column =>
      if column =? 0 then random_choice draw free_columns else Ok column
  | None => random_choice draw free_columns
  end.

Definition cpu_player_medium (draw : nat) (k num_players : Z)
    (board : Board) (player : Z) : Board * result Z :=
  match choose_column_medium draw k num_players board player with
  | Ok chosen_column => drop_chosen board player chosen_column
  | Raise e => (board, Raise e)
  | Diverge => (board, Diverge)
  end.

(** The constants of [connect4.py]. *)
Module Connect4.
Definition NUM_ROWS : Z := 6.
Definition NUM_COLS : Z := 7.
Definition NUM_PLAYERS : Z := 2.
Definition K : Z := 4.
End Connect4.

(** [util.py]: the medium player, as player 1, against the hard player.
    [draws] gives the number drawn in each turn, and [fuel] bounds the
    number of turns; [Diverge] is a game that outlasts it. *)
Module Util.
Fixpoint game_loop (fuel : nat) (draws : nat → nat) (turn : nat)
    (board : Board) (player : Z) : result Z :=
  match fuel with
  | O => Diverge
  | S fuel =>
      let '(board', column) :=
        if player =? 1
        then cpu_player_medium (draws turn) Connect4.K Connect4.NUM_PLAYERS
               board player
        else cpu_player_hard Connect4.K Connect4.NUM_PLAYERS board player in
      _ ← column;
      state ← end_of_game Connect4.K board';
      let player' := player `mod` Connect4.NUM_PLAYERS + 1 in
      if state =? GAME_NOT_OVER
      then game_loop fuel draws (S turn) board' player'
      else Ok state
  end.

Definition hard_vs_medium (fuel : nat) (draws : nat → nat) : result Z :=
  game_loop fuel draws 0
    (create_board Connect4.NUM_ROWS Connect4.NUM_COLS) 1.
End Util.

(** [create_board] in the store: the comprehension
    [[[0] * num_cols for _ in range(num_rows)]] builds a new row object in
    each round. *)
Module Alloc.
Fixpoint create_rows (h : gmap nat (list Z)) (num_rows : nat) (row : list Z)
  : gmap nat (list Z) * list nat :=
  match num_rows with
  | O => (h, [])
  | S num_rows =>
      let l := fresh (dom h) in
      let '(h', ls) := create_rows (<[l:=row]> h) num_rows row in
      (h', l :: ls)
  end.

Definition create_board (h : gmap nat (list Z)) (num_rows num_cols : Z)
  : gmap nat (list Z) * list nat :=
  create_rows h (Z.to_nat num_rows) (replicate (Z.to_nat num_cols) 0).
End Alloc.

(** [util.py]: a game is recorded and played again.  Printing, the
    key presses and the file that holds the columns in between are left
    out: the columns recorded are the columns read. *)
Module Watch.
(** The loop of [save_hard_cpu_losses]: the game of [hard_vs_medium],
    with the column of every turn appended to [plays]. *)
Fixpoint record_loop (fuel : nat) (draws : nat → nat) (turn : nat)
    (board : Board) (player : Z) (plays : list Z) : result (list Z * Z) :=
  match fuel with
  | O => Diverge
  | S fuel =>
      let '(board', column) :=
        if player =? 1
        then cpu_player_medium (draws turn) Connect4.K Connect4.NUM_PLAYERS
               board player
        else cpu_player_hard Connect4.K Connect4.NUM_PLAYERS board player in
      column ← column;
      let plays := plays ++ [column] in
      state ← end_of_game Connect4.K board';
      let player' := player `mod` Connect4.NUM_PLAYERS + 1 in
      if state =? GAME_NOT_OVER
      then record_loop fuel draws (S turn) board' player' plays
      else Ok (plays, state)
  end.

Definition record_game (fuel : nat) (draws : nat → nat)
  : result (list Z * Z) :=
  record_loop fuel draws 0
    (create_board Connect4.NUM_ROWS Connect4.NUM_COLS) 1 [].

(** How [watch_game] ends: with a state and the columns not yet read,
    with [StopIteration] when [next(columns)] finds none, with another
    exception, or not within the turns allowed. *)
Inductive ending :=
  | Returned (state : Z) (columns : list Z)
  | StopIteration
  | Raised (e : exn)
  | Unfinished.

(** The loop of [watch_game] with the [play_turn] of
    [load_and_watch_game]: [column = next(columns); assert
    drop_piece(board, player, column)]. *)
Fixpoint watch_loop (fuel : nat) (columns : list Z) (board : Board)
    (player : Z) : ending :=
  match fuel with
  | O => Unfinished
  | S fuel =>
      match columns with
      | [] => StopIteration
      | column :: columns =>
          let '(board', dropped) := drop_piece board player column in
          match dropped with
          | Ok true =>
              match end_of_game Connect4.K board' with
              | Ok state =>
                  let player' := player `mod` Connect4.NUM_PLAYERS + 1 in
                  if state =? GAME_NOT_OVER
                  then watch_loop fuel columns board' player'
                  else Returned state columns
              | Raise e => Raised e
              | Diverge => Unfinished
              end
          | Ok false => Raised AssertionError
          | Raise e => Raised e
          | Diverge => Unfinished
          end
      end
  end.

Definition watch_game (fuel : nat) (columns : list Z) : ending :=
  watch_loop fuel columns
    (create_board Connect4.NUM_ROWS Connect4.NUM_COLS) 1.
End Watch.

(* PROOFS *)

(** ** Python lists: lemmas *)

Lemma norm_index_nat (len n : nat) :
  (n < len)%nat → norm_index len (Z.of_nat n) = Some n.
Proof.
  intros Hn. unfold norm_index.
  destruct (Z.leb_spec 0 (Z.of_nat n)); [|lia].
  destruct (Z.ltb_spec (Z.of_nat n) (Z.of_nat len)); [|lia].
  by rewrite Nat2Z.id.
Qed.

Lemma norm_index_ge (len : nat) (i : Z) :
  Z.of_nat len <= i → norm_index len i = None.
Proof.
  intros Hi. unfold norm_index.
  destruct (Z.leb_spec 0 i); [|lia].
  by destruct (Z.ltb_spec i (Z.of_nat len)); [lia|].
Qed.

Lemma norm_index_lt (len : nat) (i : Z) (n : nat) :
  norm_index len i = Some n → (n < len)%nat.
Proof.
  unfold norm_index. intros H.
  destruct (Z.leb_spec 0 i).
  - destruct (Z.ltb_spec i (Z.of_nat len)); simplify_eq. lia.
  - destruct (Z.leb_spec (- Z.of_nat len) i); simplify_eq. lia.
Qed.

Lemma py_get_nat {A} (l : list A) (n : nat) (x : A) :
  l !! n = Some x → py_get l (Z.of_nat n) = Ok x.
Proof.
  intros H. unfold py_get.
  rewrite norm_index_nat by (by eapply lookup_lt_Some). by rewrite H.
Qed.

Lemma py_get_ge {A} (l : list A) (i : Z) :
  Z.of_nat (length l) <= i → py_get l i = Raise IndexError.
Proof. intros H. unfold py_get. by rewrite norm_index_ge. Qed.

Lemma py_get_Ok {A} (l : list A) (i : Z) (x : A) :
  py_get l i = Ok x →
  ∃ n, norm_index (length l) i = Some n ∧ l !! n = Some x.
Proof.
  unfold py_get. destruct (norm_index _ _) as [n|]; [|done].
  destruct (l !! n) eqn:E; [|done]. intros [= ->]. eauto.
Qed.

Lemma py_get_cases {A} (l : list A) (i : Z) :
  (∃ n x, norm_index (length l) i = Some n ∧ l !! n = Some x
          ∧ py_get l i = Ok x)
  ∨ (norm_index (length l) i = None ∧ py_get l i = Raise IndexError).
Proof.
  unfold py_get. destruct (norm_index _ _) as [n|] eqn:E; [|by right].
  left. destruct (lookup_lt_is_Some_2 l n) as [x Hx].
  { by eapply norm_index_lt. }
  exists n, x. by rewrite Hx.
Qed.

Lemma py_set_nat {A} (l : list A) (n : nat) (x : A) :
  (n < length l)%nat → py_set l (Z.of_nat n) x = Ok (<[n:=x]> l).
Proof. intros H. unfold py_set. by rewrite norm_index_nat. Qed.

Lemma norm_index_wrap (len : nat) (i : Z) :
  - Z.of_nat len <= i < 0 →
  norm_index len i = norm_index len (i + Z.of_nat len).
Proof.
  intros Hi. unfold norm_index.
  destruct (Z.leb_spec 0 i); [lia|].
  destruct (Z.leb_spec (- Z.of_nat len) i); [|lia].
  destruct (Z.leb_spec 0 (i + Z.of_nat len)); [|lia].
  destruct (Z.ltb_spec (i + Z.of_nat len) (Z.of_nat len)); [|lia].
  do 2 f_equal. lia.
Qed.

Lemma norm_index_low (len : nat) (i : Z) :
  i < - Z.of_nat len → norm_index len i = None.
Proof.
  intros Hi. unfold norm_index.
  destruct (Z.leb_spec 0 i); [lia|].
  by destruct (Z.leb_spec (- Z.of_nat len) i); [lia|].
Qed.

(** ** Board: dropping a piece *)

Lemma drop_from_bottom_unchanged rows index player :
  (drop_from_bottom rows index player).2 ≠ Ok true →
  (drop_from_bottom rows index player).1 = rows.
Proof.
  induction rows as [|row rest IH]; simpl; [done|].
  destruct (py_get row index) as [c| |]; [|done..].
  destruct (c =? 0).
  - destruct (py_set row index player); simpl; done.
  - destruct (drop_from_bottom rest index player) as [rest' r]; simpl in *.
    intros H. by rewrite IH.
Qed.

Lemma drop_piece_unchanged board player column :
  (drop_piece board player column).2 ≠ Ok true →
  (drop_piece board player column).1 = board.
Proof.
  unfold drop_piece.
  pose proof (drop_from_bottom_unchanged (reverse board) (column - 1) player).
  destruct (drop_from_bottom _ _ _) as [rows r]; simpl in *.
  intros Hr. rewrite H by done. apply reverse_involutive.
Qed.

(** The loop on rows that all have the column: it fills the first row
    whose cell is empty, the same row whoever the player is. *)
Lemma drop_from_bottom_spec rows (c : nat) :
  Forall (fun row : list Z => (c < length row)%nat) rows →
  (Forall (fun row : list Z => row !! c ≠ Some 0) rows
   ∧ ∀ player, drop_from_bottom rows (Z.of_nat c) player = (rows, Ok false))
  ∨ (∃ full row rest,
       rows = full ++ row :: rest
       ∧ Forall (fun row : list Z => row !! c ≠ Some 0) full
       ∧ row !! c = Some 0
       ∧ ∀ player,
           drop_from_bottom rows (Z.of_nat c) player
           = (full ++ <[c:=player]> row :: rest, Ok true)).
Proof.
  induction 1 as [|row rest Hrow Hrest IH].
  { left. by split. }
  destruct (lookup_lt_is_Some_2 row c Hrow) as [x Hx].
  assert (∀ player,
            drop_from_bottom (row :: rest) (Z.of_nat c) player
            = if x =? 0 then (<[c:=player]> row :: rest, Ok true)
              else let '(rest', r) :=
                     drop_from_bottom rest (Z.of_nat c) player in
                   (row :: rest', r)) as Hstep.
  { intros player. simpl. rewrite (py_get_nat _ _ _ Hx).
    destruct (x =? 0); [|done]. by rewrite py_set_nat. }
  destruct (Z.eqb_spec x 0) as [->|Hx0].
  - right. exists [], row, rest. split_and!; try done.
  - destruct IH as [[Hnz Heq]|(full & row' & rest' & -> & Hfull & Hrow' & Heq)].
    + left. split.
      * constructor; [|done]. rewrite Hx. congruence.
      * intros player. by rewrite Hstep, Heq.
    + right. exists (row :: full), row', rest'. split_and!; try done.
      * constructor; [|done]. rewrite Hx. congruence.
      * intros player. by rewrite Hstep, Heq.
Qed.

(** [drop_piece] on rows that all have the column: the lowest row with
    an empty cell in the column takes the piece. *)
Lemma drop_piece_spec board (c : nat) :
  Forall (fun row : list Z => (c < length row)%nat) board →
  (Forall (fun row : list Z => row !! c ≠ Some 0) board
   ∧ ∀ player, drop_piece board player (Z.of_nat c + 1) = (board, Ok false))
  ∨ (∃ above row below,
       board = above ++ row :: below
       ∧ Forall (fun row : list Z => row !! c ≠ Some 0) below
       ∧ row !! c = Some 0
       ∧ ∀ player,
           drop_piece board player (Z.of_nat c + 1)
           = (above ++ <[c:=player]> row :: below, Ok true)).
Proof.
  intros Hrange. unfold drop_piece.
  replace (Z.of_nat c + 1 - 1) with (Z.of_nat c) by lia.
  rewrite <-Forall_reverse in Hrange.
  destruct (drop_from_bottom_spec (reverse board) c Hrange)
    as [[Hnz Heq]|(full & row & rest & Hrev & Hfull & Hrow & Heq)].
  - left. split.
    + by rewrite Forall_reverse in Hnz.
    + intros player. by rewrite Heq, reverse_involutive.
  - right. exists (reverse rest), row, (reverse full).
    assert (board = reverse rest ++ row :: reverse full) as Hb.
    { rewrite <-(reverse_involutive board), Hrev.
      by rewrite reverse_app, reverse_cons, <-app_assoc. }
    split_and!; try done.
    + by rewrite Forall_reverse.
    + intros player.
      by rewrite Heq, reverse_app, reverse_cons, <-app_assoc.
Qed.

Lemma rect_lookup m n board r row :
  rect m n board → board !! r = Some row → length row = n.
Proof. intros [_ H] Hr. by eapply Forall_lookup_1 in H. Qed.

Lemma rect_in_range m n board (c : nat) :
  rect m n board → (c < n)%nat →
  Forall (fun row : list Z => (c < length row)%nat) board.
Proof. intros [_ H] Hc. eapply Forall_impl; [done|]. simpl. lia. Qed.

Lemma cell_Some board r c x :
  cell board r c = Some x ↔ ∃ row, board !! r = Some row ∧ row !! c = Some x.
Proof.
  unfold cell. destruct (board !! r) as [row|]; simpl.
  - split; [eauto|]. by intros (? & [= <-] & ?).
  - split; [done|]. by intros (? & ? & ?).
Qed.

Lemma cell_rect_is_Some m n board r c :
  rect m n board → (r < m)%nat → (c < n)%nat → is_Some (cell board r c).
Proof.
  intros [Hm Hn] Hr Hc.
  destruct (lookup_lt_is_Some_2 board r) as [row Hrow]; [lia|].
  destruct (lookup_lt_is_Some_2 row c) as [x Hx].
  { by rewrite (Forall_lookup_1 _ _ _ _ Hn Hrow). }
  exists x. apply cell_Some. eauto.
Qed.

Lemma cell_rect_lt m n board r c x :
  rect m n board → cell board r c = Some x → (r < m)%nat ∧ (c < n)%nat.
Proof.
  intros Hrect (row & Hrow & Hx)%cell_Some.
  pose proof (rect_lookup _ _ _ _ _ Hrect Hrow).
  apply lookup_lt_Some in Hrow, Hx. destruct Hrect. lia.
Qed.

(** The cells of a board in which one row took a piece. *)
Lemma cell_insert_row above row below c player r' c' :
  (c < length row)%nat →
  cell (above ++ <[c:=player]> row :: below) r' c'
  = if decide (r' = length above ∧ c' = c) then Some player
    else cell (above ++ row :: below) r' c'.
Proof.
  intros Hc. unfold cell.
  destruct (decide (r' = length above)) as [->|Hr].
  - rewrite !list_lookup_middle by done. simpl.
    destruct (decide (c' = c)) as [->|Hc'].
    + rewrite decide_True by done. by apply list_lookup_insert_eq.
    + rewrite decide_False by (by intros [_ ?]).
      by apply list_lookup_insert_ne.
  - rewrite decide_False by (by intros [? _]).
    destruct (decide (r' < length above)%nat).
    + by rewrite !lookup_app_l by done.
    + rewrite !lookup_app_r by lia.
      destruct (r' - length above)%nat eqn:E; [lia|done].
Qed.

(** ** Free columns *)

Lemma get_free_columns_cons row0 rest :
  get_free_columns (row0 :: rest) = Ok (free_of row0).
Proof. done. Qed.

Lemma elem_of_free_of row0 j :
  j ∈ free_of row0 ↔ 1 <= j ∧ row0 !! Z.to_nat (j - 1) = Some 0.
Proof.
  unfold free_of, enumerate. rewrite list_elem_of_omap. split.
  - intros ([i x] & Hin & Hj).
    apply list_elem_of_lookup in Hin as [t Ht].
    apply list_lookup_imap_Some in Ht as (y & Hy & [= -> ->]).
    destruct (Z.eqb_spec y 0) as [->|]; [|done]. simplify_eq.
    split; [lia|]. by replace (Z.to_nat (Z.of_nat t + 1 - 1)) with t by lia.
  - intros [Hj Hrow]. exists (j - 1, 0). split; [|simpl; f_equal; lia].
    apply list_elem_of_lookup. exists (Z.to_nat (j - 1)).
    apply list_lookup_imap_Some. exists 0. split; [done|]. f_equal. lia.
Qed.

Lemma free_sublist_gen (g : nat → Z) (l l' : list Z) :
  Forall2 (fun x y => y = x ∨ x = 0) l l' →
  omap (fun '(i, x) => if x =? 0 then Some (i + 1) else None)
    (imap (fun i x => (g i, x)) l')
  `sublist_of`
  omap (fun '(i, x) => if x =? 0 then Some (i + 1) else None)
    (imap (fun i x => (g i, x)) l).
Proof.
  intros H. revert g. induction H as [|x y l l' Hxy _ IH]; intros g.
  { done. }
  simpl. specialize (IH (g ∘ S)). unfold compose in IH.
  destruct Hxy as [->| ->].
  - destruct (x =? 0); [by constructor|done].
  - simpl. destruct (y =? 0); by constructor.
Qed.

Lemma free_of_sublist (row0 row0' : list Z) :
  Forall2 (fun x y => y = x ∨ x = 0) row0 row0' →
  free_of row0' `sublist_of` free_of row0.
Proof. apply (free_sublist_gen Z.of_nat). Qed.

Lemma fill_related (row : list Z) c player :
  row !! c = Some 0 →
  Forall2 (fun x y => y = x ∨ x = 0) row (<[c:=player]> row).
Proof.
  intros Hc. apply Forall2_same_length_lookup. split.
  { by rewrite length_insert. }
  intros i x y Hx Hy. destruct (decide (i = c)) as [->|Hne].
  - right. congruence.
  - rewrite list_lookup_insert_ne in Hy by done. left. congruence.
Qed.

Lemma drop_from_bottom_wrap (n : nat) rows index player :
  Forall (fun row : list Z => length row = n) rows →
  - Z.of_nat n <= index < 0 →
  drop_from_bottom rows index player
  = drop_from_bottom rows (index + Z.of_nat n) player.
Proof.
  intros Hrows Hi. induction Hrows as [|row rest Hrow _ IH]; simpl; [done|].
  unfold py_get, py_set. rewrite Hrow, <-(norm_index_wrap n index Hi).
  destruct (norm_index n index) as [t|]; [|done].
  destruct (row !! t) as [x|]; [|done].
  destruct (x =? 0); [done|]. by rewrite IH.
Qed.

Lemma drop_from_bottom_out_of_range (n : nat) row rest index player :
  length row = n →
  Z.of_nat n <= index ∨ index < - Z.of_nat n →
  drop_from_bottom (row :: rest) index player
  = (row :: rest, Raise IndexError).
Proof.
  intros Hrow Hi. simpl. unfold py_get. rewrite Hrow.
  destruct Hi as [Hi|Hi].
  - by rewrite norm_index_ge.
  - by rewrite norm_index_low.
Qed.

(** C7: on an in-range column with an empty cell, [drop_piece] returns
    True and writes the player into the lowest empty cell of the column
    and nowhere else; a column is free exactly when its topmost cell is
    empty; the free columns after the drop are a sublist of those before;
    and the drop keeps the gravity invariant. *)
Theorem drop_piece_fills_lowest_empty (m n : nat) board player column :
  rect m n board →
  1 <= column <= Z.of_nat n →
  (∃ r, cell board r (Z.to_nat (column - 1)) = Some 0) →
  ∃ r board' free free',
    drop_piece board player column = (board', Ok true)
    ∧ lowest_empty board (Z.to_nat (column - 1)) r
    ∧ cell board' r (Z.to_nat (column - 1)) = Some player
    ∧ (∀ r' c', ¬ (r' = r ∧ c' = Z.to_nat (column - 1)) →
         cell board' r' c' = cell board r' c')
    ∧ rect m n board'
    ∧ get_free_columns board = Ok free
    ∧ get_free_columns board' = Ok free'
    ∧ (∀ j, j ∈ free ↔ 1 <= j ∧ cell board 0 (Z.to_nat (j - 1)) = Some 0)
    ∧ (∀ j, j ∈ free' ↔ 1 <= j ∧ cell board' 0 (Z.to_nat (j - 1)) = Some 0)
    ∧ free' `sublist_of` free
    ∧ (gravity board → gravity board').
Proof.
  intros Hrect Hcol [r0 Hr0].
  set (c := Z.to_nat (column - 1)) in *.
  assert (c < n)%nat as Hc by lia.
  replace column with (Z.of_nat c + 1) by lia.
  destruct (drop_piece_spec board c (rect_in_range _ _ _ _ Hrect Hc))
    as [[Hfull _]|(above & row & below & -> & Hbelow & Hrow & Hdrop)].
  2: rewrite Hdrop.
  { apply cell_Some in Hr0 as (row & Hrow & Hx).
    by destruct (Forall_lookup_1 _ _ _ _ Hfull Hrow). }
  assert (length row = n) as Hlen.
  { eapply (rect_lookup _ _ _ (length above)); [done|].
    by apply list_lookup_middle. }
  assert (c < length row)%nat as Hc' by lia.
  assert (lowest_empty (above ++ row :: below) c (length above)) as Hlow.
  { split.
    - apply cell_Some. exists row. split; [by apply list_lookup_middle|done].
    - intros r' Hr' (row' & Hrow' & Hx)%cell_Some.
      rewrite lookup_app_r in Hrow' by lia.
      destruct (r' - length above)%nat as [|t] eqn:E; [lia|]. simpl in Hrow'.
      by destruct (Forall_lookup_1 _ _ _ _ Hbelow Hrow'). }
  assert (∀ r' c', cell (above ++ <[c:=player]> row :: below) r' c'
                   = if decide (r' = length above ∧ c' = c) then Some player
                     else cell (above ++ row :: below) r' c') as Hcell.
  { intros. by apply cell_insert_row. }
  set (top := fun b : list (list Z) => default [] (b !! 0%nat)).
  assert (Forall2 (fun x y => y = x ∨ x = 0) (top (above ++ row :: below))
            (top (above ++ <[c:=player]> row :: below))) as Htop.
  { unfold top. destruct above as [|a above]; simpl.
    - by apply fill_related.
    - apply Forall2_same_length_lookup. split; [done|].
      intros i x y Hx Hy. left. congruence. }
  assert (∀ (b : list (list Z)) j,
            b ≠ [] →
            j ∈ free_of (top b)
            ↔ 1 <= j ∧ cell b 0 (Z.to_nat (j - 1)) = Some 0) as Hfree.
  { intros b j Hb. rewrite elem_of_free_of. unfold top, cell.
    destruct b as [|b0 b]; [done|]. by simpl. }
  exists (length above), (above ++ <[c:=player]> row :: below),
    (free_of (top (above ++ row :: below))),
    (free_of (top (above ++ <[c:=player]> row :: below))).
  split_and!; try done.
  - rewrite Hcell. by rewrite decide_True.
  - intros r' c' Hne. rewrite Hcell. by rewrite decide_False.
  - destruct Hrect as [Hm Hn]. split.
    + rewrite <-Hm, !length_app. simpl. done.
    + apply Forall_app in Hn as [Ha Hb]. apply Forall_app. split; [done|].
      apply Forall_cons in Hb as [_ Hb]. constructor; [|done].
      by rewrite length_insert.
  - by destruct above.
  - by destruct above.
  - intros j. apply Hfree. by destruct above.
  - intros j. apply Hfree. by destruct above.
  - by apply free_of_sublist.
  - intros Hg r1 c1 x Hx Hx0 r2 Hr2.
    rewrite Hcell in Hx. rewrite Hcell.
    assert (length (above ++ <[c:=player]> row :: below)
            = length (above ++ row :: below)) as Hl.
    { by rewrite !length_app. }
    rewrite Hl in Hr2. destruct Hlow as [Hlow0 Hlow].
    destruct (decide (r2 = length above ∧ c1 = c)) as [[-> ->]|Hne2].
    + rewrite decide_False in Hx by lia.
      by destruct (Hg _ _ _ Hx Hx0 (length above) Hr2).
    + destruct (decide (r1 = length above ∧ c1 = c)) as [[-> ->]|Hne1].
      * apply Hlow. lia.
      * by apply (Hg _ _ _ Hx Hx0).
Qed.

Lemma drop_piece_fills_lowest_empty_witness :
  ∃ r board' free free',
    drop_piece [[0; 0]; [0; 1]] 2 2 = (board', Ok true)
    ∧ lowest_empty [[0; 0]; [0; 1]] (Z.to_nat (2 - 1)) r
    ∧ cell board' r (Z.to_nat (2 - 1)) = Some 2
    ∧ (∀ r' c', ¬ (r' = r ∧ c' = Z.to_nat (2 - 1)) →
         cell board' r' c' = cell [[0; 0]; [0; 1]] r' c')
    ∧ rect 2 2 board'
    ∧ get_free_columns [[0; 0]; [0; 1]] = Ok free
    ∧ get_free_columns board' = Ok free'
    ∧ (∀ j, j ∈ free
            ↔ 1 <= j ∧ cell [[0; 0]; [0; 1]] 0 (Z.to_nat (j - 1)) = Some 0)
    ∧ (∀ j, j ∈ free' ↔ 1 <= j ∧ cell board' 0 (Z.to_nat (j - 1)) = Some 0)
    ∧ free' `sublist_of` free
    ∧ (gravity [[0; 0]; [0; 1]] → gravity board').
Proof.
  apply (drop_piece_fills_lowest_empty 2 2 [[0; 0]; [0; 1]] 2 2).
  - split; [reflexivity|]. repeat constructor.
  - lia.
  - exists 0%nat. reflexivity.
Defined.

(** C6, as the code has it: whenever [drop_piece] does not return True
    the board is unchanged; a full in-range column returns False; on a
    board with a row, a column beyond the last one (or at most minus the
    number of columns) raises IndexError; and a column [c] with
    [-n < c <= 0] is read by Python's negative indexing as column
    [n + c]. *)
Theorem drop_piece_failure (m n : nat) board player column :
  rect m n board →
  ((drop_piece board player column).2 ≠ Ok true →
     (drop_piece board player column).1 = board)
  ∧ (1 <= column <= Z.of_nat n →
     (∀ r, cell board r (Z.to_nat (column - 1)) ≠ Some 0) →
     drop_piece board player column = (board, Ok false))
  ∧ ((0 < m)%nat →
     Z.of_nat n < column ∨ column <= - Z.of_nat n →
     drop_piece board player column = (board, Raise IndexError))
  ∧ (- Z.of_nat n < column <= 0 →
     drop_piece board player column
     = drop_piece board player (column + Z.of_nat n)).
Proof.
  intros Hrect. split_and!.
  - apply drop_piece_unchanged.
  - intros Hcol Hfull.
    set (c := Z.to_nat (column - 1)) in *.
    assert (c < n)%nat as Hc by lia.
    replace column with (Z.of_nat c + 1) by lia.
    destruct (drop_piece_spec board c (rect_in_range _ _ _ _ Hrect Hc))
      as [[_ ->]|(above & row & below & -> & _ & Hrow & _)]; [done|].
    destruct (Hfull (length above)). apply cell_Some.
    exists row. split; [by apply list_lookup_middle|done].
  - intros Hm Hcol. unfold drop_piece.
    destruct Hrect as [Hlen Hrows].
    destruct (reverse board) as [|row rest] eqn:E.
    { apply (f_equal length) in E. rewrite length_reverse in E.
      simpl in E. lia. }
    rewrite (drop_from_bottom_out_of_range n); [| |lia].
    + by rewrite <-E, reverse_involutive.
    + rewrite <-Forall_reverse, E in Hrows.
      by apply Forall_cons in Hrows as [? _].
  - intros Hcol. unfold drop_piece. destruct Hrect as [_ Hrows].
    rewrite (drop_from_bottom_wrap n); [| |lia].
    + by replace (column - 1 + Z.of_nat n) with (column + Z.of_nat n - 1)
        by lia.
    + by rewrite Forall_reverse.
Qed.

Lemma drop_piece_failure_witness :
  drop_piece [[2; 0]; [1; 0]] 2 1 = ([[2; 0]; [1; 0]], Ok false)
  ∧ (drop_piece [[2; 0]; [1; 0]] 2 1).1 = [[2; 0]; [1; 0]]
  ∧ drop_piece [[2; 0]; [1; 0]] 2 3 = ([[2; 0]; [1; 0]], Raise IndexError)
  ∧ drop_piece [[2; 0]; [1; 0]] 2 (-2) = ([[2; 0]; [1; 0]], Raise IndexError)
  ∧ (drop_piece [[2; 0]; [1; 0]] 2 3).1 = [[2; 0]; [1; 0]]
  ∧ drop_piece [[2; 0]; [1; 0]] 2 0
    = drop_piece [[2; 0]; [1; 0]] 2 (0 + Z.of_nat 2).
Proof.
  assert (rect 2 2 [[2; 0]; [1; 0]]) as Hrect.
  { split; [reflexivity|]. repeat constructor. }
  destruct (drop_piece_failure 2 2 [[2; 0]; [1; 0]] 2 1 Hrect)
    as (Hkeep & Hfull & _ & _).
  destruct (drop_piece_failure 2 2 [[2; 0]; [1; 0]] 2 3 Hrect)
    as (Hkeep' & _ & Hhigh & _).
  destruct (drop_piece_failure 2 2 [[2; 0]; [1; 0]] 2 (-2) Hrect)
    as (_ & _ & Hlow & _).
  destruct (drop_piece_failure 2 2 [[2; 0]; [1; 0]] 2 0 Hrect)
    as (_ & _ & _ & Hwrap).
  split_and!.
  - apply Hfull; [lia|]. intros [|[|r]]; vm_compute; discriminate.
  - apply Hkeep. vm_compute. discriminate.
  - apply Hhigh; lia.
  - apply Hlow; lia.
  - apply Hkeep'. vm_compute. discriminate.
  - apply Hwrap. lia.
Defined.

(** C6 as stated fails: column 0 is outside [1, 2], and yet the drop
    returns True and puts the piece in the last column. *)
Lemma drop_piece_column_zero_places_piece :
  ¬ (1 <= 0 <= 2)
  ∧ drop_piece [[0; 0]] 1 0 = ([[0; 1]], Ok true)
  ∧ ¬ ((drop_piece [[0; 0]] 1 0).2 = Ok false
       ∧ (drop_piece [[0; 0]] 1 0).1 = [[0; 0]]).
Proof.
  split; [lia|]. split; [reflexivity|]. intros [H _]. discriminate H.
Qed.

(** ** The store: copies and drops *)

Lemma contents_ext (h h' : gmap nat (list Z)) (rows : list nat) :
  (∀ l, l ∈ rows → h' !! l = h !! l) →
  Store.contents h' rows = Store.contents h rows.
Proof.
  intros H. unfold Store.contents. apply list_fmap_ext.
  intros i l Hl. rewrite H; [done|]. by eapply list_elem_of_lookup_2.
Qed.

Lemma copy_rows_spec (h : gmap nat (list Z)) (rows : list nat) :
  Forall (fun l => l ∈ dom h) rows →
  ∃ h' ls,
    Store.copy_rows h rows = (h', ls)
    ∧ (∀ l, l ∈ dom h → h' !! l = h !! l)
    ∧ Forall (fun l => l ∉ dom h) ls
    ∧ NoDup ls
    ∧ Store.contents h' ls = Store.contents h rows.
Proof.
  revert h. induction rows as [|r rest IH]; intros h Halloc; simpl.
  { exists h, []. split_and!; try done. constructor. }
  apply Forall_cons in Halloc as [Hr Hrest]. cbv zeta.
  set (l := fresh (dom h)).
  assert (l ∉ dom h) as Hl by apply is_fresh.
  set (h1 := <[l:=default [] (h !! r)]> h).
  assert (∀ l', l' ∈ dom h → h1 !! l' = h !! l') as Hh1.
  { intros l' Hl'. unfold h1. apply lookup_insert_ne. by intros ->. }
  destruct (IH h1) as (h' & ls & -> & Hkeep & Hfresh & Hnd & Hcont).
  { eapply Forall_impl; [done|]. simpl. intros l' Hl'.
    unfold h1. rewrite dom_insert_L. apply elem_of_union. by right. }
  assert (l ∈ dom h1) as Hl1.
  { unfold h1. rewrite dom_insert_L. apply elem_of_union. left.
    by apply elem_of_singleton. }
  exists h', (l :: ls). split_and!; try done.
  - intros l' Hl'. rewrite Hkeep.
    + by apply Hh1.
    + unfold h1. rewrite dom_insert_L. apply elem_of_union. by right.
  - constructor; [done|]. eapply Forall_impl; [done|]. simpl.
    intros l' Hl' Hin. apply Hl'. unfold h1. rewrite dom_insert_L.
    apply elem_of_union. by right.
  - constructor; [|done]. intros Hin.
    by destruct (proj1 (Forall_forall _ _) Hfresh l Hin).
  - unfold Store.contents in *. rewrite fmap_cons, Hcont. f_equal.
    + rewrite (Hkeep l Hl1). unfold h1. by rewrite lookup_insert_eq.
    + apply list_fmap_ext. intros i l' Hi. rewrite Hh1; [done|].
      eapply Forall_lookup_1 in Hrest; done.
Qed.

(** On a board whose rows are distinct objects the loop in the store is
    the loop on values, and it writes to no other object. *)
Lemma store_drop_from_bottom_refines (h : gmap nat (list Z)) rows index player :
  NoDup rows →
  ∃ h' r,
    Store.drop_from_bottom h rows index player = (h', r)
    ∧ drop_from_bottom (Store.contents h rows) index player
      = (Store.contents h' rows, r)
    ∧ (∀ l, l ∉ rows → h' !! l = h !! l).
Proof.
  induction 1 as [|r rest Hr Hnd IH]; simpl.
  { exists h, (Ok false). by split_and!. }
  destruct (py_get (default [] (h !! r)) index) as [x|e|] eqn:Hget.
  - destruct (x =? 0).
    + destruct (py_set (default [] (h !! r)) index player) as [row'|e|]
        eqn:Hset.
      * exists (<[r:=row']> h), (Ok true). split_and!; [done| |].
        -- f_equal. unfold Store.contents. simpl.
           rewrite lookup_insert_eq. simpl. f_equal.
           apply list_fmap_ext. intros i l Hl.
           rewrite lookup_insert_ne; [done|]. intros ->.
           apply Hr. by eapply list_elem_of_lookup_2.
        -- intros l Hl. apply lookup_insert_ne. intros ->. apply Hl. by left.
      * exists h, (Raise e). by split_and!.
      * exists h, Diverge. by split_and!.
    + destruct IH as (h' & res & -> & -> & Hframe).
      exists h', res. split_and!; [done| |].
      * f_equal. unfold Store.contents at 2. simpl.
        by rewrite (Hframe r Hr).
      * intros l Hl. apply Hframe. intros Hin. apply Hl. by right.
  - exists h, (Raise e). by split_and!.
  - exists h, Diverge. by split_and!.
Qed.

Lemma store_drop_piece_refines (h : gmap nat (list Z)) board player column :
  NoDup board →
  ∃ h' r,
    Store.drop_piece h board player column = (h', r)
    ∧ drop_piece (Store.contents h board) player column
      = (Store.contents h' board, r)
    ∧ (∀ l, l ∉ board → h' !! l = h !! l).
Proof.
  intros Hnd. unfold Store.drop_piece, drop_piece.
  destruct (store_drop_from_bottom_refines h (reverse board) (column - 1)
              player) as (h' & r & Hs & Hv & Hframe).
  { by rewrite reverse_Permutation. }
  exists h', r. split_and!; [done| |].
  - unfold Store.contents in *. rewrite fmap_reverse in Hv. rewrite Hv.
    by rewrite <-fmap_reverse, reverse_involutive.
  - intros l Hl. apply Hframe. by rewrite elem_of_reverse.
Qed.

Lemma drop_piece_result_not_diverge board player column :
  (drop_piece board player column).2 ≠ Diverge.
Proof.
  unfold drop_piece.
  assert (∀ rows index, (drop_from_bottom rows index player).2 ≠ Diverge)
    as H.
  { induction rows as [|row rest IH]; intros index; simpl; [done|].
    unfold py_get, py_set.
    destruct (norm_index (length row) index) as [t|]; [|done].
    destruct (row !! t) as [x|]; [|done].
    destruct (x =? 0); [done|].
    specialize (IH index).
    by destruct (drop_from_bottom rest index player). }
  specialize (H (reverse board) (column - 1)).
  by destruct (drop_from_bottom _ _ _).
Qed.

(** C8: [copy_and_drop_piece] leaves every object of the store as it
    was, so the original board keeps all its cells; the rows of the board
    it returns are new, distinct objects, none a row of the input; and
    that board holds the original board with the drop applied. *)
Theorem copy_and_drop_piece_frame (h : gmap nat (list Z)) (board : list nat)
    player column :
  Forall (fun l => l ∈ dom h) board →
  ∃ h' r,
    Store.copy_and_drop_piece h board player column = (h', r)
    ∧ (∀ l, l ∈ dom h → h' !! l = h !! l)
    ∧ Store.contents h' board = Store.contents h board
    ∧ match r with
      | Ok new_board =>
          NoDup new_board
          ∧ Forall (fun l => l ∉ dom h) new_board
          ∧ (∀ l, l ∈ new_board → l ∉ board)
          ∧ Store.contents h' new_board
            = (drop_piece (Store.contents h board) player column).1
          ∧ copy_and_drop_piece (Store.contents h board) player column
            = Ok (Store.contents h' new_board)
      | Raise e =>
          copy_and_drop_piece (Store.contents h board) player column
          = Raise e
      | Diverge => False
      end.
Proof.
  intros Halloc. unfold Store.copy_and_drop_piece.
  destruct (copy_rows_spec h board Halloc)
    as (h1 & new_board & -> & Hkeep & Hfresh & Hnd & Hcont).
  destruct (store_drop_piece_refines h1 new_board player column Hnd)
    as (h2 & r & -> & Hv & Hframe).
  assert (∀ l, l ∈ dom h → h2 !! l = h !! l) as Hkeep2.
  { intros l Hl. rewrite Hframe; [by apply Hkeep|].
    intros Hin. by destruct (proj1 (Forall_forall _ _) Hfresh l Hin). }
  exists h2, (_ ← r; Ok new_board). split_and!; [done|done| |].
  - apply contents_ext. intros l Hl. apply Hkeep2.
    by apply (proj1 (Forall_forall _ _) Halloc).
  - rewrite Hcont in Hv. unfold copy_and_drop_piece. rewrite Hv.
    pose proof (drop_piece_result_not_diverge (Store.contents h board)
                  player column) as Hdiv.
    rewrite Hv in Hdiv. simpl in Hdiv.
    destruct r as [b|e|]; simpl; [|done|done].
    split_and!; try done.
    intros l Hl Hin. apply (proj1 (Forall_forall _ _) Hfresh l Hl).
    by apply (proj1 (Forall_forall _ _) Halloc).
Qed.

Lemma copy_and_drop_piece_frame_witness :
  ∃ h' r,
    Store.copy_and_drop_piece {[ 0%nat := [0; 0]; 1%nat := [0; 1] ]}
      [0%nat; 1%nat] 2 2 = (h', r)
    ∧ (∀ l, l ∈ dom ({[ 0%nat := [0; 0]; 1%nat := [0; 1] ]}
                       : gmap nat (list Z)) →
         h' !! l
         = ({[ 0%nat := [0; 0]; 1%nat := [0; 1] ]} : gmap nat (list Z)) !! l)
    ∧ Store.contents h' [0%nat; 1%nat]
      = Store.contents {[ 0%nat := [0; 0]; 1%nat := [0; 1] ]} [0%nat; 1%nat]
    ∧ match r with
      | Ok new_board =>
          NoDup new_board
          ∧ Forall (fun l => l ∉ dom ({[ 0%nat := [0; 0]; 1%nat := [0; 1] ]}
                                        : gmap nat (list Z))) new_board
          ∧ (∀ l, l ∈ new_board → l ∉ [0%nat; 1%nat])
          ∧ Store.contents h' new_board
            = (drop_piece
                 (Store.contents {[ 0%nat := [0; 0]; 1%nat := [0; 1] ]}
                    [0%nat; 1%nat]) 2 2).1
          ∧ copy_and_drop_piece
              (Store.contents {[ 0%nat := [0; 0]; 1%nat := [0; 1] ]}
                 [0%nat; 1%nat]) 2 2
            = Ok (Store.contents h' new_board)
      | Raise e =>
          copy_and_drop_piece
            (Store.contents {[ 0%nat := [0; 0]; 1%nat := [0; 1] ]}
               [0%nat; 1%nat]) 2 2
          = Raise e
      | Diverge => False
      end.
Proof.
  apply (copy_and_drop_piece_frame
           {[ 0%nat := [0; 0]; 1%nat := [0; 1] ]} [0%nat; 1%nat] 2 2).
  repeat constructor; vm_compute; done.
Defined.

(** ** The run compression of one line *)

Lemma gen_app_nil_l {A} (l : list A) (g : gen A) :
  gen_app (l, None) g = (l ++ g.1, g.2).
Proof. done. Qed.

Lemma from_cells_ending cur acc (cs : list (Z * Z * Z)) :
  (pieces_in_a_row_from_cells cur acc (Ok <$> cs)).2 = None.
Proof.
  revert cur acc. induction cs as [|[p w] cs IH]; intros cur acc; simpl.
  { done. }
  destruct (w =? cur); [apply IH|]. rewrite gen_app_nil_l. apply IH.
Qed.

Lemma runs_of_cons p w (cs : list (Z * Z * Z)) :
  runs_of ((p, w) :: cs)
  = (pieces_in_a_row_from_cells w [p] (Ok <$> cs)).1.
Proof.
  unfold runs_of. simpl. destruct (Z.eqb_spec w 0) as [->|Hw]; [done|].
  by rewrite gen_app_nil_l.
Qed.

Lemma elem_of_flush run cur acc :
  run ∈ flush cur acc
  ↔ run = (cur, acc) ∧ (2 <= length acc)%nat ∧ cur ≠ 0.
Proof.
  unfold flush.
  destruct (Z.ltb_spec 1 (Z.of_nat (length acc))) as [Hl|Hl];
    destruct (Z.eqb_spec cur 0) as [Hc|Hc]; simpl.
  - rewrite elem_of_nil. split; [done|]. by intros (_ & _ & ?).
  - rewrite list_elem_of_singleton. split.
    + intros ->. split_and!; [done|lia|done].
    + by intros (-> & _ & _).
  - rewrite elem_of_nil. split; [done|]. by intros (_ & _ & ?).
  - rewrite elem_of_nil. split; [done|]. intros (_ & ? & _). lia.
Qed.

(** Every run the scan of a line yields is the block in progress, or a
    block that lies wholly in the cells still to come. *)
Lemma from_cells_sound cur acc (cs : list (Z * Z * Z)) run :
  run ∈ (pieces_in_a_row_from_cells cur acc (Ok <$> cs)).1 →
  (∃ blk post,
      cs = blk ++ post
      ∧ Forall (fun c : Z * Z * Z => c.2 = cur) blk
      ∧ (∀ c, head post = Some c → c.2 ≠ cur)
      ∧ run = (cur, acc ++ blk.*1)
      ∧ (2 <= length (acc ++ blk.*1))%nat
      ∧ cur ≠ 0)
  ∨ (∃ pre blk post,
        cs = pre ++ blk ++ post
        ∧ run.2 = blk.*1
        ∧ Forall (fun c : Z * Z * Z => c.2 = run.1) blk
        ∧ (2 <= length blk)%nat
        ∧ run.1 ≠ 0
        ∧ (∀ c, last pre = Some c → c.2 ≠ run.1)
        ∧ (pre = [] → cur ≠ run.1)
        ∧ (∀ c, head post = Some c → c.2 ≠ run.1)).
Proof.
  revert cur acc. induction cs as [|[p w] cs IH]; intros cur acc; simpl.
  { intros (-> & Hlen & Hcur)%elem_of_flush. left. exists [], [].
    simpl. rewrite app_nil_r. by split_and!. }
  destruct (Z.eqb_spec w cur) as [->|Hw].
  - intros [(blk & post & -> & Hblk & Hpost & -> & Hlen & Hcur)
           |(pre & blk & post & -> & Hps & Hblk & Hlen & Hpl & Hlast & Hfirst
             & Hpost)]%IH.
    + left. exists ((p, cur) :: blk), post. split_and!; try done.
      * by constructor.
      * simpl. by rewrite <-app_assoc.
      * simpl. by rewrite <-app_assoc in Hlen.
    + right. exists ((p, cur) :: pre), blk, post. split_and!; try done.
      intros c. destruct pre as [|c' pre]; simpl.
      * intros [= <-]. simpl. by apply Hfirst.
      * intros Hc. by apply Hlast.
  - rewrite gen_app_nil_l. simpl.
    intros [(-> & Hlen & Hcur)%elem_of_flush|Hin]%elem_of_app.
    + left. exists [], ((p, w) :: cs). simpl. rewrite app_nil_r.
      split_and!; try done.
      intros c [= <-]. done.
    + apply IH in Hin
        as [(blk & post & -> & Hblk & Hpost & -> & Hlen & Hcur)
           |(pre & blk & post & -> & Hps & Hblk & Hlen & Hpl & Hlast & Hfirst
             & Hpost)].
      * right. exists [], ((p, w) :: blk), post. split_and!; try done.
        -- by constructor.
        -- simpl in *. rewrite length_fmap in Hlen. lia.
      * right. exists ((p, w) :: pre), blk, post. split_and!; try done.
        intros c. destruct pre as [|c' pre]; simpl.
        -- intros [= <-]. simpl. by apply Hfirst.
        -- intros Hc. by apply Hlast.
Qed.

(** The scan from the start of a block: the block is flushed when the
    line leaves it. *)
Lemma from_cells_block cur acc (blk post : list (Z * Z * Z)) :
  Forall (fun c : Z * Z * Z => c.2 = cur) blk →
  (∀ c, head post = Some c → c.2 ≠ cur) →
  (pieces_in_a_row_from_cells cur acc (Ok <$> (blk ++ post))).1
  = flush cur (acc ++ blk.*1) ++ runs_of post.
Proof.
  intros Hblk Hpost. revert acc.
  induction Hblk as [|[p w] blk Hw _ IH]; intros acc; simpl in *.
  - rewrite app_nil_r. destruct post as [|[p w] post]; simpl.
    { by rewrite app_nil_r. }
    destruct (Z.eqb_spec w cur) as [->|Hne].
    { by destruct (Hpost (p, cur) eq_refl). }
    rewrite gen_app_nil_l. simpl. by rewrite runs_of_cons.
  - subst w. rewrite Z.eqb_refl, IH. by rewrite <-app_assoc.
Qed.

Lemma from_cells_complete cur acc (pre blk post : list (Z * Z * Z)) v :
  Forall (fun c : Z * Z * Z => c.2 = v) blk →
  (2 <= length blk)%nat →
  v ≠ 0 →
  (∀ c, last pre = Some c → c.2 ≠ v) →
  (pre = [] → cur ≠ v) →
  (∀ c, head post = Some c → c.2 ≠ v) →
  (v, blk.*1)
    ∈ (pieces_in_a_row_from_cells cur acc (Ok <$> (pre ++ blk ++ post))).1.
Proof.
  intros Hblk Hlen Hv Hlast Hcur Hpost. revert cur acc Hcur.
  induction pre as [|[p w] pre IH]; intros cur acc Hcur; simpl.
  - destruct blk as [|[p w] blk]; [simpl in Hlen; lia|].
    apply Forall_cons in Hblk as [Hw Hblk]. simpl in Hw. subst w. simpl.
    destruct (Z.eqb_spec v cur) as [->|Hne]; [by destruct Hcur|].
    rewrite gen_app_nil_l. simpl. apply elem_of_app. right.
    rewrite from_cells_block by done. apply elem_of_app. left.
    apply elem_of_flush. simpl in *. rewrite length_fmap.
    split_and!; [done|lia|done].
  - assert (∀ c, last pre = Some c → c.2 ≠ v) as Hlast'.
    { intros c Hc. apply Hlast. destruct pre; [done|]. done. }
    assert (pre = [] → w ≠ v) as Hw.
    { intros ->. by apply (Hlast (p, w)). }
    destruct (Z.eqb_spec w cur) as [->|Hne].
    + by apply IH.
    + rewrite gen_app_nil_l. simpl. apply elem_of_app. right. by apply IH.
Qed.

(** The runs of a line are exactly its blocks. *)
Lemma runs_of_spec (cs : list (Z * Z * Z)) run :
  run ∈ runs_of cs ↔ block_in cs run.
Proof.
  split.
  - intros [(blk & post & _ & _ & _ & _ & _ & H0)
           |(pre & blk & post & -> & Hps & Hblk & Hlen & Hpl & Hlast & _
             & Hpost)]%from_cells_sound; [done|].
    by exists pre, blk, post.
  - intros (pre & blk & post & -> & Hps & Hblk & Hlen & Hpl & Hlast & Hpost).
    destruct run as [v ps]. simpl in *. subst ps.
    by apply from_cells_complete.
Qed.

Lemma from_cells_positions cur acc (cs : list (Z * Z * Z)) run :
  run ∈ (pieces_in_a_row_from_cells cur acc (Ok <$> cs)).1 →
  (2 <= length run.2)%nat ∧ ∀ x, x ∈ run.2 → x ∈ acc ++ cs.*1.
Proof.
  intros [(blk & post & -> & _ & _ & -> & Hlen & _)
         |(pre & blk & post & -> & -> & _ & Hlen & _)]%from_cells_sound;
    simpl.
  - split; [done|]. intros x. rewrite !elem_of_app, !fmap_app, elem_of_app.
    tauto.
  - rewrite length_fmap. split; [done|]. intros x.
    rewrite !fmap_app, !elem_of_app. tauto.
Qed.

Lemma NoDup_flush cur acc : NoDup (flush cur acc).
Proof.
  unfold flush. destruct (_ && _); [apply NoDup_singleton|apply NoDup_nil_2].
Qed.

Lemma from_cells_NoDup cur acc (cs : list (Z * Z * Z)) :
  NoDup (acc ++ cs.*1) →
  NoDup (pieces_in_a_row_from_cells cur acc (Ok <$> cs)).1.
Proof.
  revert cur acc. induction cs as [|[p w] cs IH]; intros cur acc Hnd; simpl.
  { apply NoDup_flush. }
  destruct (Z.eqb_spec w cur) as [->|Hw].
  - apply IH. by rewrite <-app_assoc.
  - rewrite gen_app_nil_l. simpl in *.
    apply NoDup_app in Hnd as (Hacc & Hdisj & Hrest).
    apply NoDup_app. split_and!.
    + apply NoDup_flush.
    + intros run (-> & Hlen & _)%elem_of_flush
        [_ Hsub]%from_cells_positions. simpl in Hsub.
      destruct acc as [|x acc]; [simpl in Hlen; lia|].
      apply (Hdisj x); [by left|]. apply (Hsub x). by left.
    + by apply IH.
Qed.

Lemma runs_of_NoDup (cs : list (Z * Z * Z)) :
  NoDup cs.*1 → NoDup (runs_of cs).
Proof. intros H. by apply from_cells_NoDup. Qed.

(** ** Slices *)

Lemma omap_lookup_total {A B} (f : A → option B) (xs : list A) (i : nat) :
  Forall (fun x => is_Some (f x)) xs →
  omap f xs !! i = xs !! i ≫= f.
Proof.
  intros H. revert i. induction H as [|x xs [y Hy] _ IH]; intros i; simpl.
  { done. }
  rewrite Hy. destruct i as [|i]; simpl; [done|]. apply IH.
Qed.

Lemma gather_lookup {A} (l : list A) (lo step n : Z) (i : nat) :
  (∀ t, 0 <= t < n → 0 <= lo + step * t < Z.of_nat (length l)) →
  omap (fun t => l !! Z.to_nat (lo + step * t)) (seqZ 0 n) !! i
  = if decide (Z.of_nat i < n)
    then l !! Z.to_nat (lo + step * Z.of_nat i) else None.
Proof.
  intros Hrange. rewrite omap_lookup_total.
  - destruct (decide (Z.of_nat i < n)).
    + by rewrite lookup_seqZ_lt by done.
    + by rewrite lookup_seqZ_ge by lia.
  - apply Forall_seqZ. intros t Ht. apply lookup_lt_is_Some.
    specialize (Hrange t). lia.
Qed.

Ltac zcmp :=
  repeat match goal with
    | |- context [?a <? ?b] => destruct (Z.ltb_spec a b)
    | |- context [?a <=? ?b] => destruct (Z.leb_spec a b)
    | H : context [?a <? ?b] |- _ => destruct (Z.ltb_spec a b)
    | H : context [?a <=? ?b] |- _ => destruct (Z.leb_spec a b)
    end.

(** [l[:k]] *)
Lemma py_slice_prefix {A} (l : list A) (k : Z) :
  0 <= k → py_slice l None (Some k) 1 = take (Z.to_nat k) l.
Proof.
  intros Hk. apply list_eq. intros i. unfold py_slice, slice_adjust.
  change (1 <? 0) with false. cbv iota. rewrite lookup_take.
  set (len := Z.of_nat (length l)).
  assert (∀ x, x / 1 = x) as Hdiv by apply Z.div_1_r.
  zcmp; rewrite ?Hdiv, gather_lookup by lia;
    repeat case_decide; try lia; try done;
    try (f_equal; lia);
    try (symmetry; apply lookup_ge_None_2; lia).
Qed.

(** [l[a:b]] *)
Lemma py_slice_range {A} (l : list A) (a b : Z) :
  0 <= a <= Z.of_nat (length l) → a <= b →
  py_slice l (Some a) (Some b) 1
  = take (Z.to_nat (b - a)) (drop (Z.to_nat a) l).
Proof.
  intros Ha Hb. apply list_eq. intros i. unfold py_slice, slice_adjust.
  change (1 <? 0) with false. cbv iota. rewrite lookup_take, lookup_drop.
  set (len := Z.of_nat (length l)) in *.
  assert (∀ x, x / 1 = x) as Hdiv by apply Z.div_1_r.
  zcmp; rewrite ?Hdiv, gather_lookup by lia;
    repeat case_decide; try lia; try done;
    try (f_equal; lia);
    try (symmetry; apply lookup_ge_None_2; lia).
Qed.

(** [l[-1:-k-1:-1]] *)
Lemma py_slice_suffix_reversed {A} (l : list A) (k : Z) :
  0 <= k →
  py_slice l (Some (-1)) (Some (- k - 1)) (-1)
  = take (Z.to_nat k) (reverse l).
Proof.
  intros Hk. apply list_eq. intros i. unfold py_slice, slice_adjust.
  change (-1 <? 0) with true. change (- -1) with 1. cbv iota.
  rewrite lookup_take.
  set (len := Z.of_nat (length l)) in *.
  assert (∀ x, x / 1 = x) as Hdiv by apply Z.div_1_r.
  zcmp; rewrite ?Hdiv, gather_lookup by lia;
    repeat case_decide; try lia; try done;
    try (rewrite reverse_lookup by lia; f_equal; lia);
    try (symmetry; apply lookup_ge_None_2; rewrite length_reverse; lia).
Qed.

(** [l[a:stop:-1]] where [stop] is [None] or [a - n]. *)
Lemma py_slice_down_from {A} (l : list A) (a n : Z) :
  0 <= a < Z.of_nat (length l) → 0 <= n →
  py_slice l (Some a) (if a - n <? 0 then None else Some (a - n)) (-1)
  = take (Z.to_nat n) (reverse (take (S (Z.to_nat a)) l)).
Proof.
  intros Ha Hn. apply list_eq. intros i. unfold py_slice, slice_adjust.
  change (-1 <? 0) with true. change (- -1) with 1. cbv iota.
  rewrite lookup_take.
  set (len := Z.of_nat (length l)) in *.
  assert (length (take (S (Z.to_nat a)) l) = S (Z.to_nat a)) as Hlen.
  { rewrite length_take. lia. }
  assert (∀ x, x / 1 = x) as Hdiv by apply Z.div_1_r.
  destruct (Z.ltb_spec (a - n) 0);
  zcmp; rewrite ?Hdiv, gather_lookup by lia;
    repeat case_decide; try lia; try done;
    try (rewrite reverse_lookup by lia; rewrite Hlen, lookup_take_lt by lia;
         f_equal; lia);
    try (symmetry; apply lookup_ge_None_2; rewrite length_reverse; lia).
Qed.

(** ** The lines of a rectangular board *)

Lemma value_at_nat board (i j : nat) x :
  cell board i j = Some x → value_at board (Z.of_nat i, Z.of_nat j) = x.
Proof.
  intros H. unfold value_at, cell_at. simpl.
  destruct (Z.leb_spec 0 (Z.of_nat i)); [|lia].
  destruct (Z.leb_spec 0 (Z.of_nat j)); [|lia].
  simpl. by rewrite !Nat2Z.id, H.
Qed.

Lemma board_with_positions_lookup board i row :
  board !! i = Some row →
  board_with_positions board !! i
  = Some (imap (fun j c => ((Z.of_nat i, Z.of_nat j), c)) row).
Proof.
  intros H. unfold board_with_positions. by rewrite list_lookup_imap, H.
Qed.

Lemma length_board_with_positions board :
  length (board_with_positions board) = length board.
Proof. apply length_imap. Qed.

Lemma py_get_positioned (row : list Z) (i j : nat) x :
  row !! j = Some x →
  py_get (imap (fun j c => ((Z.of_nat i, Z.of_nat j), c)) row) (Z.of_nat j)
  = Ok ((Z.of_nat i, Z.of_nat j), x).
Proof.
  intros H. apply py_get_nat. by rewrite list_lookup_imap, H.
Qed.

(** A line read off a selection [rows] of the rows of the board, row
    [r t] at column [c0 + t]. *)
Lemma selected_line m n board (rows : list (list (Z * Z * Z)))
    (f : Z * list (Z * Z * Z) → result (Z * Z * Z))
    (L : nat) (r : nat → nat) (c0 : nat) :
  rect m n board →
  (∀ offset row, f (offset, row) = py_get row (Z.of_nat c0 + offset)) →
  length rows = L →
  (∀ t, (t < L)%nat →
        rows !! t = board_with_positions board !! r t
        ∧ (r t < m)%nat ∧ (c0 + t < n)%nat) →
  f <$> enumerate rows
  = Ok <$> cells_on board
             ((fun t : nat => (Z.of_nat (r t), Z.of_nat (c0 + t)))
                <$> seq 0 L).
Proof.
  intros Hrect Hf Hlen Hrows. apply list_eq. intros t.
  unfold cells_on, enumerate.
  rewrite !list_lookup_fmap, list_lookup_imap.
  destruct (decide (t < L)%nat) as [Ht|Ht].
  - destruct (Hrows t Ht) as (Hrow & Hr & Hc).
    destruct (cell_rect_is_Some m n board (r t) (c0 + t) Hrect Hr Hc)
      as [x Hx].
    pose proof Hx as (row & Hbrow & Hcell)%cell_Some.
    rewrite Hrow, (board_with_positions_lookup _ _ _ Hbrow).
    rewrite lookup_seq_lt by done. simpl.
    rewrite Hf, <-Nat2Z.inj_add, (py_get_positioned _ _ _ _ Hcell).
    by rewrite (value_at_nat _ _ _ _ Hx).
  - rewrite lookup_ge_None_2 by lia.
    by rewrite lookup_seq_ge by lia.
Qed.

Lemma segment_ext (L : nat) start d (g : nat → Z * Z) :
  (∀ t : nat, (t < L)%nat →
     g t = (start.1 + d.1 * Z.of_nat t, start.2 + d.2 * Z.of_nat t)) →
  g <$> seq 0 L = segment start d L.
Proof.
  intros H. unfold segment. apply list_eq. intros t.
  rewrite !list_lookup_fmap.
  destruct (decide (t < L)%nat) as [Ht|Ht].
  - rewrite lookup_seq_lt by done. simpl. by rewrite H.
  - by rewrite lookup_seq_ge by lia.
Qed.

Lemma horizontal_lines_spec m n board :
  rect m n board →
  horizontal_lines (board_with_positions board)
  = (fun i => Ok <$> cells_on board (segment (i, 0) (0, 1) n))
      <$> range 0 (Z.of_nat m).
Proof.
  intros Hrect. pose proof Hrect as [Hm Hn].
  unfold horizontal_lines, range. apply list_eq. intros i.
  rewrite !list_lookup_fmap.
  destruct (decide (i < m)%nat) as [Hi|Hi].
  - destruct (lookup_lt_is_Some_2 board i) as [row Hrow]; [lia|].
    pose proof (rect_lookup _ _ _ _ _ Hrect Hrow) as Hlen.
    rewrite (board_with_positions_lookup _ _ _ Hrow).
    rewrite lookup_seqZ_lt by lia. simpl. f_equal. f_equal.
    apply list_eq. intros j. unfold cells_on, segment.
    rewrite list_lookup_imap, !list_lookup_fmap.
    destruct (decide (j < n)%nat) as [Hj|Hj].
    + destruct (lookup_lt_is_Some_2 row j) as [x Hx]; [lia|].
      rewrite Hx, lookup_seq_lt by done. simpl.
      replace (0 + Z.of_nat i + 0 * Z.of_nat j) with (Z.of_nat i) by lia.
      replace (0 + 1 * Z.of_nat j) with (Z.of_nat j) by lia.
      rewrite (value_at_nat board i j x); [done|].
      apply cell_Some. eauto.
    + rewrite lookup_ge_None_2 by lia. by rewrite lookup_seq_ge by lia.
  - rewrite lookup_ge_None_2 by (rewrite length_board_with_positions; lia).
    by rewrite lookup_seqZ_ge by lia.
Qed.

Lemma vertical_lines_spec m n board :
  rect m n board →
  vertical_lines (board_with_positions board) (Z.of_nat n)
  = (fun j => Ok <$> cells_on board (segment (0, j) (1, 0) m))
      <$> range 0 (Z.of_nat n).
Proof.
  intros Hrect. pose proof Hrect as [Hm Hn].
  unfold vertical_lines. apply list_fmap_ext.
  intros c j [-> Hj]%lookup_seqZ.
  rewrite <-(segment_ext m _ _ (fun t => (Z.of_nat t, Z.of_nat (c + 0)))).
  2:{ intros t Ht. simpl. f_equal; lia. }
  apply list_eq. intros t. unfold cells_on.
  rewrite !list_lookup_fmap.
  destruct (decide (t < m)%nat) as [Ht|Ht].
  - destruct (cell_rect_is_Some m n board t c Hrect) as [x Hx]; [lia..|].
    pose proof Hx as (row & Hbrow & Hcell)%cell_Some.
    rewrite (board_with_positions_lookup _ _ _ Hbrow).
    rewrite lookup_seq_lt by done. simpl.
    rewrite Z.add_0_l, (py_get_positioned _ _ _ _ Hcell).
    replace (c + 0)%nat with c by lia.
    by rewrite (value_at_nat _ _ _ _ Hx).
  - rewrite lookup_ge_None_2 by (rewrite length_board_with_positions; lia).
    by rewrite lookup_seq_ge by lia.
Qed.

Lemma down_lines_top_spec m n board :
  rect m n board →
  down_lines_top (board_with_positions board) (Z.of_nat n)
  = (fun sc => Ok <$> cells_on board
                 (segment (0, sc) (1, 1)
                    (Z.to_nat (Z.min (Z.of_nat m) (Z.of_nat n - sc)))))
      <$> range 0 (Z.of_nat n - 1).
Proof.
  intros Hrect. pose proof Hrect as [Hm Hn].
  pose proof (length_board_with_positions board) as Hlen.
  unfold down_lines_top. apply list_fmap_ext.
  intros c sc [-> Hc]%lookup_seqZ. rewrite Z.add_0_l.
  rewrite py_slice_prefix by lia.
  set (L := Z.to_nat (Z.min (Z.of_nat m) (Z.of_nat n - Z.of_nat c))).
  rewrite (selected_line m n board _ _ L (fun t => t) c Hrect).
  - f_equal. f_equal. apply segment_ext. intros t Ht. simpl. f_equal; lia.
  - by intros offset row.
  - rewrite length_take. lia.
  - intros t Ht. split_and!; [|lia..]. apply lookup_take_lt. lia.
Qed.

Lemma down_lines_left_spec m n board :
  rect m n board →
  down_lines_left (board_with_positions board) (Z.of_nat m) (Z.of_nat n)
  = (fun sr => Ok <$> cells_on board
                 (segment (sr, 0) (1, 1)
                    (Z.to_nat (Z.min (Z.of_nat m - sr) (Z.of_nat n)))))
      <$> range 1 (Z.of_nat m - 1).
Proof.
  intros Hrect. pose proof Hrect as [Hm Hn].
  pose proof (length_board_with_positions board) as Hlen.
  unfold down_lines_left. apply list_fmap_ext.
  intros i sr [-> Hi]%lookup_seqZ.
  rewrite py_slice_range by lia.
  set (L := Z.to_nat (Z.min (Z.of_nat m - (1 + Z.of_nat i)) (Z.of_nat n))).
  rewrite (selected_line m n board _ _ L (fun t => (S i + t)%nat) 0 Hrect).
  - f_equal. f_equal. apply segment_ext. intros t Ht. simpl. f_equal; lia.
  - intros offset row. by rewrite Z.add_0_l.
  - rewrite length_take, length_drop. lia.
  - intros t Ht. split_and!; [|lia..].
    rewrite lookup_take_lt by lia. rewrite lookup_drop. f_equal. lia.
Qed.

Lemma up_lines_bottom_spec m n board :
  rect m n board →
  up_lines_bottom (board_with_positions board) (Z.of_nat n)
  = (fun sc => Ok <$> cells_on board
                 (segment (Z.of_nat m - 1, sc) (-1, 1)
                    (Z.to_nat (Z.min (Z.of_nat m) (Z.of_nat n - sc)))))
      <$> range 0 (Z.of_nat n - 1).
Proof.
  intros Hrect. pose proof Hrect as [Hm Hn].
  pose proof (length_board_with_positions board) as Hlen.
  unfold up_lines_bottom. apply list_fmap_ext.
  intros c sc [-> Hc]%lookup_seqZ. rewrite Z.add_0_l.
  rewrite py_slice_suffix_reversed by lia.
  set (L := Z.to_nat (Z.min (Z.of_nat m) (Z.of_nat n - Z.of_nat c))).
  rewrite (selected_line m n board _ _ L (fun t => (m - S t)%nat) c Hrect).
  - f_equal. f_equal. apply segment_ext. intros t Ht. simpl. f_equal; lia.
  - by intros offset row.
  - rewrite length_take, length_reverse. lia.
  - intros t Ht. split_and!; [|lia..].
    rewrite lookup_take_lt by lia. rewrite reverse_lookup by lia.
    f_equal. lia.
Qed.

Lemma up_lines_left_spec m n board :
  rect m n board →
  up_lines_left (board_with_positions board) (Z.of_nat m) (Z.of_nat n)
  = (fun sr => Ok <$> cells_on board
                 (segment (sr, 0) (-1, 1)
                    (Z.to_nat (Z.min (sr + 1) (Z.of_nat n)))))
      <$> range 1 (Z.of_nat m - 1).
Proof.
  intros Hrect. pose proof Hrect as [Hm Hn].
  pose proof (length_board_with_positions board) as Hlen.
  unfold up_lines_left. apply list_fmap_ext.
  intros i sr [-> Hi]%lookup_seqZ. cbv zeta.
  rewrite py_slice_down_from by lia.
  set (L := Z.to_nat (Z.min (1 + Z.of_nat i + 1) (Z.of_nat n))).
  assert (length (take (S (Z.to_nat (1 + Z.of_nat i)))
                    (board_with_positions board)) = S (S i)) as Htake.
  { rewrite length_take. lia. }
  rewrite (selected_line m n board _ _ L (fun t => (S i - t)%nat) 0 Hrect).
  - f_equal. f_equal. apply segment_ext. intros t Ht. simpl. f_equal; lia.
  - intros offset row. by rewrite Z.add_0_l.
  - rewrite length_take, length_reverse, Htake. lia.
  - intros t Ht. split_and!; [|lia..].
    rewrite lookup_take_lt by lia.
    rewrite reverse_lookup by (rewrite Htake; lia).
    rewrite Htake, lookup_take_lt by lia. f_equal; lia.
Qed.

Lemma all_lines_spec m n board :
  rect m n board →
  all_lines (board_with_positions board) (Z.of_nat m) (Z.of_nat n)
  = (fun spec => Ok <$> line_cells board spec)
      <$> line_specs (Z.of_nat m) (Z.of_nat n).
Proof.
  intros Hrect. unfold all_lines, line_specs.
  rewrite (horizontal_lines_spec m n), (vertical_lines_spec m n),
    (down_lines_top_spec m n), (down_lines_left_spec m n),
    (up_lines_bottom_spec m n), (up_lines_left_spec m n) by done.
  rewrite !fmap_app, <-!list_fmap_compose. unfold line_cells.
  repeat (apply (f_equal2 app);
          [apply list_fmap_ext; intros i x Hx; simpl; by rewrite ?Nat2Z.id|]).
  apply list_fmap_ext; intros i x Hx; simpl; by rewrite ?Nat2Z.id.
Qed.

(** ** The scan of a rectangular board *)

Lemma gen_concat_runs (css : list (list (Z * Z * Z))) :
  gen_concat
    (pieces_in_a_row_from_cells 0 []
       <$> ((fun cs : list (Z * Z * Z) => Ok <$> cs) <$> css))
  = (mjoin (runs_of <$> css), None).
Proof.
  unfold gen_concat. induction css as [|cs css IH]; [done|].
  rewrite !fmap_cons. cbn [foldr mjoin list_join]. rewrite IH. unfold gen_app.
  by rewrite from_cells_ending.
Qed.

Lemma pieces_in_a_row_rect m n board :
  rect m n board → (0 < m)%nat →
  pieces_in_a_row board
  = (mjoin (runs_of <$> (line_cells board
                            <$> line_specs (Z.of_nat m) (Z.of_nat n))),
     None).
Proof.
  intros Hrect Hm. unfold pieces_in_a_row.
  destruct (lookup_lt_is_Some_2 board 0) as [row0 Hrow0].
  { destruct Hrect. lia. }
  change 0 with (Z.of_nat 0). rewrite (py_get_nat board 0 row0 Hrow0).
  rewrite (rect_lookup _ _ _ _ _ Hrect Hrow0).
  pose proof Hrect as [Hlen Hrows]. rewrite Hlen.
  rewrite (all_lines_spec m n) by done.
  rewrite <-gen_concat_runs. by rewrite <-!list_fmap_compose.
Qed.

(** A block of a line, by the index of its first cell and its length. *)
Lemma block_in_index (cs : list (Z * Z * Z)) run :
  block_in cs run
  ↔ ∃ i len : nat,
      (i + len <= length cs)%nat
      ∧ run.2 = (take len (drop i cs)).*1
      ∧ (2 <= len)%nat
      ∧ run.1 ≠ 0
      ∧ (∀ t c, (i <= t < i + len)%nat → cs !! t = Some c → c.2 = run.1)
      ∧ (∀ c, (0 < i)%nat → cs !! (i - 1)%nat = Some c → c.2 ≠ run.1)
      ∧ (∀ c, cs !! (i + len)%nat = Some c → c.2 ≠ run.1).
Proof.
  split.
  - intros (pre & blk & post & -> & Hps & Hblk & Hlen & Hpl & Hlast & Hpost).
    exists (length pre), (length blk). split_and!; try done.
    + rewrite !length_app. lia.
    + by rewrite drop_app_length, take_app_length.
    + intros t c Ht Hc. rewrite lookup_app_r in Hc by lia.
      rewrite lookup_app_l in Hc by lia.
      by apply (Forall_lookup_1 _ _ _ _ Hblk Hc).
    + intros c Hi Hc. apply Hlast. rewrite last_lookup.
      rewrite lookup_app_l in Hc by lia.
      by replace (pred (length pre)) with (length pre - 1)%nat by lia.
    + intros c Hc. apply Hpost. rewrite head_lookup.
      rewrite lookup_app_r in Hc by lia. rewrite lookup_app_r in Hc by lia.
      by replace (length pre + length blk - length pre - length blk)%nat
        with 0%nat in Hc by lia.
  - intros (i & len & Hbound & Hps & Hlen & Hpl & Hblk & Hlast & Hpost).
    exists (take i cs), (take len (drop i cs)), (drop len (drop i cs)).
    split_and!; try done.
    + by rewrite !take_drop.
    + apply Forall_lookup_2. intros t c Hc.
      apply lookup_take_Some in Hc as [Hc Ht]. rewrite lookup_drop in Hc.
      apply (Hblk (i + t)%nat); [lia|done].
    + rewrite length_take, length_drop. lia.
    + intros c. rewrite last_lookup, length_take.
      replace (i `min` length cs)%nat with i by lia.
      destruct i as [|i]; [done|]. simpl.
      rewrite lookup_take_lt by lia. intros Hc. apply Hlast; [lia|].
      by replace (S i - 1)%nat with i by lia.
    + intros c. rewrite head_lookup, !lookup_drop.
      replace (i + (len + 0))%nat with (i + len)%nat by lia. apply Hpost.
Qed.

(** ** Lines and positions *)

Lemma cell_at_in_board m n board p :
  rect m n board →
  in_board (Z.of_nat m) (Z.of_nat n) p
  ↔ cell_at board p = Some (value_at board p).
Proof.
  intros Hrect. unfold value_at, cell_at, in_board.
  destruct (Z.leb_spec 0 p.1), (Z.leb_spec 0 p.2); simpl;
    try (split; [lia|done]).
  split.
  - intros [H1 H2].
    destruct (cell_rect_is_Some m n board (Z.to_nat p.1) (Z.to_nat p.2))
      as [x ->]; [done|lia..|done].
  - destruct (cell board _ _) as [x|] eqn:E; [|done]. intros _.
    apply (cell_rect_lt m n) in E; [|done]. lia.
Qed.

Lemma cell_at_Some m n board p x :
  rect m n board →
  cell_at board p = Some x
  ↔ in_board (Z.of_nat m) (Z.of_nat n) p ∧ value_at board p = x.
Proof.
  intros Hrect. rewrite (cell_at_in_board m n board p Hrect). split.
  - intros H. unfold value_at. rewrite H. simpl. by split.
  - intros [H <-]. done.
Qed.

Lemma cell_at_None m n board p :
  rect m n board →
  ¬ in_board (Z.of_nat m) (Z.of_nat n) p → cell_at board p = None.
Proof.
  intros Hrect Hp. destruct (cell_at board p) as [x|] eqn:E; [|done].
  apply (cell_at_Some m n) in E as [? _]; done.
Qed.

Ltac in_specs H :=
  unfold line_specs, range in H;
  repeat (apply elem_of_app in H as [H|H]);
  apply list_elem_of_fmap in H as (? & ? & H%elem_of_seqZ); simplify_eq.

(** A line holds exactly the positions of the board on it. *)
Lemma line_specs_exact (m n : nat) start d L :
  (start, d, L) ∈ line_specs (Z.of_nat m) (Z.of_nat n) →
  d ∈ directions
  ∧ ∀ t : Z,
      in_board (Z.of_nat m) (Z.of_nat n)
        (start.1 + d.1 * t, start.2 + d.2 * t)
      ↔ 0 <= t < Z.of_nat L.
Proof.
  intros H. unfold directions, in_board.
  in_specs H; simpl;
    (split; [repeat first [by left|right]|intros t; lia]).
Qed.

(** Two adjacent positions of the board lie on one of its lines. *)
Lemma line_specs_cover (m n : nat) p d :
  d ∈ directions →
  in_board (Z.of_nat m) (Z.of_nat n) p →
  in_board (Z.of_nat m) (Z.of_nat n) (p.1 + d.1, p.2 + d.2) →
  ∃ start L (t : nat),
    (start, d, L) ∈ line_specs (Z.of_nat m) (Z.of_nat n)
    ∧ p = (start.1 + d.1 * Z.of_nat t, start.2 + d.2 * Z.of_nat t).
Proof.
  unfold directions, in_board, line_specs, range. destruct p as [r c].
  intros Hd [Hr Hc] [Hr' Hc']. simpl in *.
  rewrite !elem_of_cons, elem_of_nil in Hd.
  destruct Hd as [->|[->|[->|[->|[]]]]]; simpl in *.
  - exists (r, 0), (Z.to_nat (Z.of_nat n)), (Z.to_nat c). split.
    + apply elem_of_app. left. apply list_elem_of_fmap. exists r.
      split; [done|]. apply elem_of_seqZ. lia.
    + simpl. f_equal; lia.
  - exists (0, c), (Z.to_nat (Z.of_nat m)), (Z.to_nat r). split.
    + apply elem_of_app. right. apply elem_of_app. left.
      apply list_elem_of_fmap. exists c.
      split; [done|]. apply elem_of_seqZ. lia.
    + simpl. f_equal; lia.
  - destruct (decide (r <= c)).
    + exists (0, c - r),
        (Z.to_nat (Z.min (Z.of_nat m) (Z.of_nat n - (c - r)))),
        (Z.to_nat r). split.
      * do 2 (apply elem_of_app; right). apply elem_of_app. left.
        apply list_elem_of_fmap. exists (c - r).
        split; [done|]. apply elem_of_seqZ. lia.
      * simpl. f_equal; lia.
    + exists (r - c, 0),
        (Z.to_nat (Z.min (Z.of_nat m - (r - c)) (Z.of_nat n))),
        (Z.to_nat c). split.
      * do 3 (apply elem_of_app; right). apply elem_of_app. left.
        apply list_elem_of_fmap. exists (r - c).
        split; [done|]. apply elem_of_seqZ. lia.
      * simpl. f_equal; lia.
  - destruct (decide (Z.of_nat m - 1 <= r + c)).
    + exists (Z.of_nat m - 1, r + c - (Z.of_nat m - 1)),
        (Z.to_nat (Z.min (Z.of_nat m)
                     (Z.of_nat n - (r + c - (Z.of_nat m - 1))))),
        (Z.to_nat (Z.of_nat m - 1 - r)). split.
      * do 4 (apply elem_of_app; right). apply elem_of_app. left.
        apply list_elem_of_fmap. exists (r + c - (Z.of_nat m - 1)).
        split; [done|]. apply elem_of_seqZ. lia.
      * simpl. f_equal; lia.
    + exists (r + c, 0),
        (Z.to_nat (Z.min (r + c + 1) (Z.of_nat n))),
        (Z.to_nat c). split.
      * do 5 (apply elem_of_app; right).
        apply list_elem_of_fmap. exists (r + c).
        split; [done|]. apply elem_of_seqZ. lia.
      * simpl. f_equal; lia.
Qed.

Lemma segment_lookup start d L (t : nat) :
  segment start d L !! t
  = if decide (t < L)%nat then Some (pos_on start d (Z.of_nat t)) else None.
Proof.
  unfold segment. rewrite list_lookup_fmap. case_decide.
  - by rewrite lookup_seq_lt.
  - by rewrite lookup_seq_ge by lia.
Qed.

Lemma length_segment start d L : length (segment start d L) = L.
Proof. unfold segment. by rewrite length_fmap, length_seq. Qed.

Lemma elem_of_segment start d L p :
  p ∈ segment start d L
  ↔ ∃ t : nat, (t < L)%nat ∧ p = pos_on start d (Z.of_nat t).
Proof.
  rewrite list_elem_of_lookup. split.
  - intros [t Ht]. rewrite segment_lookup in Ht. case_decide; [|done].
    exists t. by simplify_eq.
  - intros (t & Ht & ->). exists t. rewrite segment_lookup.
    by rewrite decide_True.
Qed.

Lemma pos_on_add start d a b :
  pos_on (pos_on start d a) d b = pos_on start d (a + b).
Proof. unfold pos_on. simpl. f_equal; lia. Qed.

Lemma line_cells_lookup board start d L (t : nat) :
  line_cells board (start, d, L) !! t
  = if decide (t < L)%nat
    then Some (pos_on start d (Z.of_nat t),
               value_at board (pos_on start d (Z.of_nat t)))
    else None.
Proof.
  unfold line_cells, cells_on. simpl.
  rewrite list_lookup_fmap, segment_lookup. by case_decide.
Qed.

Lemma length_line_cells board start d L :
  length (line_cells board (start, d, L)) = L.
Proof.
  unfold line_cells, cells_on. simpl. by rewrite length_fmap, length_segment.
Qed.

Lemma line_cells_block board start d L (i len : nat) :
  (i + len <= L)%nat →
  (take len (drop i (line_cells board (start, d, L)))).*1
  = segment (pos_on start d (Z.of_nat i)) d len.
Proof.
  intros Hb. apply list_eq. intros t.
  rewrite list_lookup_fmap, lookup_take, lookup_drop, line_cells_lookup,
    segment_lookup.
  destruct (decide (t < len)%nat); [|done].
  rewrite decide_True by lia. simpl. rewrite pos_on_add. do 2 f_equal. lia.
Qed.

(** The blocks of a line of the board are maximal runs. *)
Lemma block_in_line_maximal m n board spec run :
  rect m n board →
  spec ∈ line_specs (Z.of_nat m) (Z.of_nat n) →
  block_in (line_cells board spec) run →
  maximal_run board run.
Proof.
  intros Hrect Hspec. destruct spec as [[start d] L].
  destruct (line_specs_exact m n start d L Hspec) as [Hd Hexact].
  change (∀ t, in_board (Z.of_nat m) (Z.of_nat n) (pos_on start d t)
               ↔ 0 <= t < Z.of_nat L) in Hexact.
  intros (i & len & Hb & Hps & Hlen & Hpl & Hblk & Hlast & Hpost)
    %block_in_index.
  rewrite length_line_cells in Hb. rewrite line_cells_block in Hps by done.
  exists (pos_on start d (Z.of_nat i)), d, len. split_and!; try done.
  - intros p. rewrite Hps. intros (t & Ht & ->)%elem_of_segment.
    rewrite pos_on_add. apply (cell_at_Some m n); [done|]. split.
    + apply Hexact. lia.
    + specialize (Hblk (i + t)%nat). rewrite line_cells_lookup in Hblk.
      rewrite decide_True in Hblk by lia.
      rewrite <-Nat2Z.inj_add. refine (Hblk _ _ eq_refl). lia.
  - replace ((pos_on start d (Z.of_nat i)).1 - d.1,
             (pos_on start d (Z.of_nat i)).2 - d.2)
      with (pos_on start d (Z.of_nat i - 1))
      by (unfold pos_on; simpl; f_equal; lia).
    destruct (decide (i = 0)%nat) as [->|Hi].
    + rewrite (cell_at_None m n); [done..|]. rewrite Hexact. lia.
    + intros [_ Hv]%(cell_at_Some m n); [|done].
      specialize (Hlast (pos_on start d (Z.of_nat (i - 1)),
                         value_at board (pos_on start d (Z.of_nat (i - 1))))).
      rewrite line_cells_lookup, decide_True in Hlast by lia.
      replace (Z.of_nat (i - 1)) with (Z.of_nat i - 1) in Hlast by lia.
      apply Hlast; [lia|done|done].
  - replace ((pos_on start d (Z.of_nat i)).1 + d.1 * Z.of_nat len,
             (pos_on start d (Z.of_nat i)).2 + d.2 * Z.of_nat len)
      with (pos_on start d (Z.of_nat (i + len)))
      by (unfold pos_on; simpl; f_equal; lia).
    destruct (decide (i + len = L)%nat) as [HL|HL].
    + rewrite (cell_at_None m n); [done..|]. rewrite Hexact. lia.
    + intros [_ Hv]%(cell_at_Some m n); [|done].
      specialize (Hpost (pos_on start d (Z.of_nat (i + len)),
                         value_at board (pos_on start d (Z.of_nat (i + len))))).
      rewrite line_cells_lookup, decide_True in Hpost by lia.
      by apply Hpost.
Qed.

(** Every maximal run is a block of one of the lines of the board. *)
Lemma maximal_block_in_line m n board run :
  rect m n board →
  maximal_run board run →
  ∃ spec,
    spec ∈ line_specs (Z.of_nat m) (Z.of_nat n)
    ∧ block_in (line_cells board spec) run.
Proof.
  intros Hrect (start' & d & len & Hd & Hps & Hlen & Hpl & Hcells & Hbefore
                & Hafter).
  assert (∀ t : nat, (t < len)%nat →
            cell_at board (pos_on start' d (Z.of_nat t)) = Some run.1)
    as Hrun.
  { intros t Ht. apply Hcells. rewrite Hps. apply elem_of_segment. eauto. }
  assert (∀ t : nat, (t < len)%nat →
            in_board (Z.of_nat m) (Z.of_nat n)
              (pos_on start' d (Z.of_nat t))) as Hin.
  { intros t Ht.
    by apply (proj1 (cell_at_Some m n _ _ _ Hrect) (Hrun t Ht)). }
  destruct (line_specs_cover m n start' d Hd) as (start & L & t0 & Hspec & Hs).
  { specialize (Hin 0%nat). unfold pos_on in Hin. simpl in Hin.
    destruct start'. unfold in_board in *. simpl in *. lia. }
  { specialize (Hin 1%nat). unfold pos_on in Hin. simpl in Hin.
    unfold in_board in *. simpl in *. lia. }
  change (start' = pos_on start d (Z.of_nat t0)) in Hs.
  destruct (line_specs_exact m n start d L Hspec) as [_ Hexact].
  change (∀ t, in_board (Z.of_nat m) (Z.of_nat n) (pos_on start d t)
               ↔ 0 <= t < Z.of_nat L) in Hexact.
  assert (t0 + len <= L)%nat as Hb.
  { specialize (Hin (len - 1)%nat). rewrite Hs, pos_on_add, Hexact in Hin.
    lia. }
  exists (start, d, L). split; [done|]. apply block_in_index.
  exists t0, len. rewrite length_line_cells. split_and!; try done.
  - by rewrite line_cells_block, <-Hs.
  - intros t c Ht. rewrite line_cells_lookup, decide_True by lia.
    intros [= <-]. simpl.
    specialize (Hrun (t - t0)%nat). rewrite Hs, pos_on_add in Hrun.
    replace (Z.of_nat t0 + Z.of_nat (t - t0)) with (Z.of_nat t) in Hrun
      by lia.
    apply (proj1 (cell_at_Some m n _ _ _ Hrect)). apply Hrun. lia.
  - intros c Ht0. rewrite line_cells_lookup, decide_True by lia.
    intros [= <-]. simpl. intros Hv. apply Hbefore.
    replace (start'.1 - d.1, start'.2 - d.2)
      with (pos_on start d (Z.of_nat (t0 - 1)))
      by (rewrite Hs, Nat2Z.inj_sub by lia; unfold pos_on; simpl;
          f_equal; lia).
    apply (cell_at_Some m n); [done|]. split; [|done]. apply Hexact. lia.
  - intros c. rewrite line_cells_lookup. case_decide; [|done].
    intros [= <-]. simpl. intros Hv. apply Hafter.
    replace (start'.1 + d.1 * Z.of_nat len, start'.2 + d.2 * Z.of_nat len)
      with (pos_on start d (Z.of_nat (t0 + len)))
      by (rewrite Hs, Nat2Z.inj_add; unfold pos_on; simpl; f_equal; lia).
    apply (cell_at_Some m n); [done|]. split; [|done]. apply Hexact. lia.
Qed.

Lemma elem_of_all_runs m n board run :
  rect m n board →
  run ∈ mjoin (runs_of <$> (line_cells board
                               <$> line_specs (Z.of_nat m) (Z.of_nat n)))
  ↔ maximal_run board run.
Proof.
  intros Hrect. rewrite list_elem_of_join. split.
  - intros (rs & Hrun & (cs & -> & (spec & -> & Hspec)%list_elem_of_fmap)
                          %list_elem_of_fmap).
    apply runs_of_spec in Hrun. by eapply block_in_line_maximal.
  - intros (spec & Hspec & Hblock)%(maximal_block_in_line m n); [|done].
    exists (runs_of (line_cells board spec)). split.
    + by apply runs_of_spec.
    + apply list_elem_of_fmap. eexists. split; [done|].
      apply list_elem_of_fmap. eauto.
Qed.

(** ** Every run is yielded once *)

Lemma NoDup_join_keyed {A K} (key : A → K) (ls : list (list A)) (ks : list K) :
  Forall2 (fun l k => NoDup l ∧ ∀ x, x ∈ l → key x = k) ls ks →
  NoDup ks →
  NoDup (mjoin ls).
Proof.
  induction 1 as [|l k ls ks [Hl Hk] Hrest IH]; intros Hks; simpl.
  { constructor. }
  apply NoDup_cons in Hks as [Hnotin Hks]. apply NoDup_app. split_and!.
  - done.
  - intros x Hx (l' & Hx' & Hl')%list_elem_of_join. apply Hnotin.
    apply list_elem_of_lookup in Hl' as [i Hi].
    destruct (Forall2_lookup_l _ _ _ _ _ Hrest Hi) as (k' & Hk' & _ & Hkey).
    rewrite <-(Hk x Hx), (Hkey x Hx'). by eapply list_elem_of_lookup_2.
  - by apply IH.
Qed.

Lemma cells_on_positions board ps : (cells_on board ps).*1 = ps.
Proof.
  unfold cells_on. rewrite <-list_fmap_compose.
  rewrite <-(list_fmap_id ps) at 2. by apply list_fmap_ext.
Qed.

Lemma NoDup_segment start d L :
  d ∈ directions → NoDup (segment start d L).
Proof.
  intros Hd. unfold segment. apply NoDup_fmap_2_strong; [|apply NoDup_seq].
  intros t t' _ _. unfold directions in Hd.
  rewrite !elem_of_cons, elem_of_nil in Hd.
  destruct Hd as [->|[->|[->|[->|[]]]]]; simpl; intros Heq;
    injection Heq; intros; lia.
Qed.

Lemma run_key_block board start d L run :
  block_in (line_cells board (start, d, L)) run →
  run_key run = spec_key (start, d, L).
Proof.
  intros (i & len & Hb & Hps & Hlen & _)%block_in_index.
  rewrite length_line_cells in Hb. rewrite line_cells_block in Hps by done.
  unfold run_key. rewrite Hps.
  destruct len as [|[|len]]; [lia..|]. unfold segment, pos_on. simpl.
  f_equal; [f_equal|]; lia.
Qed.

Lemma NoDup_spec_keys (m n : nat) :
  NoDup (spec_key <$> line_specs (Z.of_nat m) (Z.of_nat n)).
Proof.
  unfold line_specs, range. rewrite !fmap_app, <-!list_fmap_compose.
  repeat (apply NoDup_app; split_and!);
    try (apply NoDup_fmap_2_strong; [|apply NoDup_seqZ];
         intros x y _ _; simpl; intros Heq; injection Heq; intros; lia);
    intros k (x & -> & Hx%elem_of_seqZ)%list_elem_of_fmap;
    rewrite ?elem_of_app, !list_elem_of_fmap;
    intros H;
    repeat match goal with
      | H : _ ∨ _ |- _ => destruct H as [H|H]
      end;
    destruct H as (y & Heq & Hy%elem_of_seqZ); simpl in Heq;
    injection Heq; intros; lia.
Qed.

Lemma all_runs_NoDup m n board :
  NoDup (mjoin (runs_of <$> (line_cells board
                               <$> line_specs (Z.of_nat m) (Z.of_nat n)))).
Proof.
  apply (NoDup_join_keyed run_key _
           (spec_key <$> line_specs (Z.of_nat m) (Z.of_nat n)));
    [|apply NoDup_spec_keys].
  rewrite <-list_fmap_compose. apply Forall2_fmap, Forall_Forall2_diag.
  apply Forall_forall. intros [[start d] L] Hspec.
  destruct (line_specs_exact m n start d L Hspec) as [Hd _]. split.
  - apply runs_of_NoDup. unfold line_cells. rewrite cells_on_positions.
    by apply NoDup_segment.
  - intros run Hrun%runs_of_spec. by apply (run_key_block board).
Qed.

(** ** The scanner and the evaluator *)

Lemma find_first {A} (f : A → bool) (l : list A) x :
  find f l = Some x
  ↔ ∃ i, l !! i = Some x ∧ f x = true
         ∧ ∀ j y, (j < i)%nat → l !! j = Some y → f y = false.
Proof.
  induction l as [|a l IH]; simpl.
  { split; [done|]. by intros (i & ? & _). }
  destruct (f a) eqn:Ha.
  - split.
    + intros [= <-]. exists 0%nat. split_and!; [done..|]. intros j y Hj. lia.
    + intros (i & Hi & Hx & Hbefore). destruct i as [|i]; [by simplify_eq|].
      specialize (Hbefore 0%nat a). simpl in Hbefore.
      rewrite Hbefore in Ha by (done || lia). done.
  - rewrite IH. split.
    + intros (i & Hi & Hx & Hbefore). exists (S i). split_and!; [done..|].
      intros [|j] y Hj; simpl; [by intros [= <-]|].
      apply Hbefore. lia.
    + intros (i & Hi & Hx & Hbefore). destruct i as [|i].
      { simpl in Hi. simplify_eq. congruence. }
      exists i. split_and!; [done..|]. intros j y Hj Hy.
      apply (Hbefore (S j) y); [lia|done].
Qed.

Lemma find_none {A} (f : A → bool) (l : list A) :
  find f l = None ↔ ∀ x, x ∈ l → f x = false.
Proof.
  induction l as [|a l IH]; simpl.
  { split; [|done]. intros _ x Hx. by apply elem_of_nil in Hx. }
  destruct (f a) eqn:Ha.
  - split; [done|]. intros H. rewrite H in Ha; [done|by left].
  - rewrite IH. split.
    + intros H x [->|Hx]%elem_of_cons; [done|by apply H].
    + intros H x Hx. apply H. by right.
Qed.

Lemma contains_zero_spec (row : list Z) :
  contains_zero row = true ↔ 0 ∈ row.
Proof.
  unfold contains_zero. rewrite existsb_exists. split.
  - intros (x & Hx%list_elem_of_In & ->%Z.eqb_eq). done.
  - intros H. exists 0. by rewrite <-list_elem_of_In.
Qed.

Lemma long_enough_spec k (run : Z * list (Z * Z)) :
  long_enough k run = true ↔ k <= Z.of_nat (length run.2).
Proof. unfold long_enough. apply Z.leb_le. Qed.

Lemma long_enough_false k (run : Z * list (Z * Z)) :
  long_enough k run = false ↔ Z.of_nat (length run.2) < k.
Proof. unfold long_enough. apply Z.leb_gt. Qed.

(** The scan of a rectangular board: it ends normally, and what it
    yields is each maximal run, once. *)
Lemma pieces_in_a_row_spec m n board :
  rect m n board → (0 < m)%nat →
  ∃ runs,
    pieces_in_a_row board = (runs, None)
    ∧ NoDup runs
    ∧ ∀ run, run ∈ runs ↔ maximal_run board run.
Proof.
  intros Hrect Hm. eexists. split_and!.
  - by apply (pieces_in_a_row_rect m n).
  - apply all_runs_NoDup.
  - intros run. by apply elem_of_all_runs.
Qed.

(** C2: on a rectangular board with at least one row, [pieces_in_a_row]
    ends normally; what it yields is free of duplicates and is exactly
    the maximal runs of the board: the cells of one non-zero player, at
    least two of them, listed from the first to the last along one of
    the four directions, with no cell of that player before the first or
    after the last. *)
Theorem pieces_in_a_row_maximal_runs (m n : nat) board :
  rect m n board → (0 < m)%nat →
  ∃ runs,
    pieces_in_a_row board = (runs, None)
    ∧ NoDup runs
    ∧ (∀ run, run ∈ runs ↔ maximal_run board run)
    ∧ (∀ run, run ∈ runs →
         (2 <= length run.2)%nat
         ∧ run.1 ≠ 0
         ∧ ∀ p, p ∈ run.2 → cell_at board p = Some run.1).
Proof.
  intros Hrect Hm.
  destruct (pieces_in_a_row_spec m n board Hrect Hm)
    as (runs & Hruns & Hnd & Hiff).
  exists runs. split_and!; [done..|].
  intros run (start & d & len & _ & Hps & Hlen & Hpl & Hcells & _)%Hiff.
  split_and!; [|done..]. by rewrite Hps, length_segment.
Qed.

Lemma pieces_in_a_row_maximal_runs_witness :
  ∃ runs,
    pieces_in_a_row [[1; 1; 0]; [2; 1; 2]] = (runs, None)
    ∧ NoDup runs
    ∧ (∀ run, run ∈ runs ↔ maximal_run [[1; 1; 0]; [2; 1; 2]] run)
    ∧ (∀ run, run ∈ runs →
         (2 <= length run.2)%nat
         ∧ run.1 ≠ 0
         ∧ ∀ p, p ∈ run.2 → cell_at [[1; 1; 0]; [2; 1; 2]] p = Some run.1).
Proof.
  apply (pieces_in_a_row_maximal_runs 2 3 [[1; 1; 0]; [2; 1; 2]]).
  - split; [reflexivity|]. repeat constructor.
  - lia.
Defined.

Lemma end_of_game_rect board k runs row0 :
  pieces_in_a_row board = (runs, None) →
  board !! 0%nat = Some row0 →
  end_of_game k board
  = Ok (match find (long_enough k) runs with
        | Some (player, _) => player
        | None => if contains_zero row0 then GAME_NOT_OVER else DRAW
        end).
Proof.
  intros Hruns Hrow0. unfold end_of_game. rewrite Hruns.
  destruct (find _ _) as [[player ps]|]; [done|].
  change 0 with (Z.of_nat 0). by rewrite (py_get_nat board 0 row0 Hrow0).
Qed.

(** C1: on a rectangular board with at least one row, [end_of_game]
    returns the player of the first run of length at least [k] in scan
    order when there is one, and otherwise 0 when the top row has an
    empty cell and -1 when it has none.  On a board whose cells are 0 or
    a player from 1 up, exactly one of three cases holds: not over (0),
    with an empty cell in the top row and no long run; draw (-1), with a
    full top row and no long run; or a winner [p >= 1] who owns a
    maximal run of length at least [k]. *)
Theorem end_of_game_outcome (m n : nat) board k num_players :
  rect m n board → (0 < m)%nat → 1 <= k →
  ∃ runs row0,
    pieces_in_a_row board = (runs, None)
    ∧ board !! 0%nat = Some row0
    ∧ (∀ i player ps,
         runs !! i = Some (player, ps) →
         k <= Z.of_nat (length ps) →
         (∀ j run, (j < i)%nat → runs !! j = Some run →
                   Z.of_nat (length run.2) < k) →
         end_of_game k board = Ok player)
    ∧ ((∀ run, maximal_run board run → Z.of_nat (length run.2) < k) →
       end_of_game k board
       = Ok (if bool_decide (0 ∈ row0) then GAME_NOT_OVER else DRAW))
    ∧ (valid_cells num_players board →
       (end_of_game k board = Ok GAME_NOT_OVER
        ∧ 0 ∈ row0
        ∧ ∀ run, maximal_run board run → Z.of_nat (length run.2) < k)
       ∨ (end_of_game k board = Ok DRAW
          ∧ (0 ∉ row0)
          ∧ ∀ run, maximal_run board run → Z.of_nat (length run.2) < k)
       ∨ (∃ p ps,
            end_of_game k board = Ok p
            ∧ 1 <= p <= num_players
            ∧ maximal_run board (p, ps)
            ∧ k <= Z.of_nat (length ps))).
Proof.
  intros Hrect Hm Hk.
  destruct (pieces_in_a_row_spec m n board Hrect Hm)
    as (runs & Hruns & Hnd & Hiff).
  destruct (lookup_lt_is_Some_2 board 0) as [row0 Hrow0].
  { destruct Hrect. lia. }
  pose proof (end_of_game_rect board k runs row0 Hruns Hrow0) as Heog.
  assert ((if contains_zero row0 then GAME_NOT_OVER else DRAW)
          = if bool_decide (0 ∈ row0) then GAME_NOT_OVER else DRAW) as Htop.
  { destruct (contains_zero row0) eqn:E.
    - apply contains_zero_spec in E. by rewrite bool_decide_eq_true_2.
    - rewrite bool_decide_eq_false_2; [done|].
      intros H%contains_zero_spec. congruence. }
  assert ((∀ run, maximal_run board run → Z.of_nat (length run.2) < k) →
          find (long_enough k) runs = None) as Hnone.
  { intros Hshort. apply find_none. intros run Hrun%Hiff.
    apply long_enough_false. by apply Hshort. }
  exists runs, row0. split_and!; [done..| | |].
  - intros i player ps Hi Hlong Hbefore. rewrite Heog.
    assert (find (long_enough k) runs = Some (player, ps)) as ->; [|done].
    apply find_first. exists i. split_and!; [done| |].
    + by apply long_enough_spec.
    + intros j run Hj Hrun. apply long_enough_false. by eapply Hbefore.
  - intros Hshort. by rewrite Heog, (Hnone Hshort), Htop.
  - intros Hvalid. rewrite Heog.
    destruct (find (long_enough k) runs) as [[p ps]|] eqn:Hfind.
    + right. right. exists p, ps.
      apply find_first in Hfind as (i & Hi & Hlong%long_enough_spec & _).
      apply list_elem_of_lookup_2, Hiff in Hi.
      split; [done|]. split; [|by split].
      destruct Hi as (start & d & [|len] & _ & Hps & Hlen & Hp & Hcells & _);
        [lia|]. simpl in *.
      specialize (Hcells (pos_on start d (Z.of_nat 0))).
      rewrite Hps in Hcells. unfold segment in Hcells. simpl in Hcells.
      pose proof (Hcells ltac:(by left)) as Hcell.
      unfold cell_at in Hcell. destruct (_ && _); [|done].
      apply cell_Some in Hcell as (row & Hrow & Hx).
      pose proof (Forall_lookup_1 _ _ _ _ Hvalid Hrow) as Hr.
      pose proof (Forall_lookup_1 _ _ _ _ Hr Hx) as Hb. simpl in Hb. lia.
    + assert (∀ run, maximal_run board run → Z.of_nat (length run.2) < k)
        as Hshort.
      { intros run Hrun%Hiff. apply long_enough_false.
        by apply (proj1 (find_none _ _) Hfind). }
      rewrite Htop. case_bool_decide.
      * left. by split_and!.
      * right. left. by split_and!.
Qed.

Lemma end_of_game_outcome_witness :
  ∃ runs row0,
    pieces_in_a_row [[1; 1; 1; 0]] = (runs, None)
    ∧ [[1; 1; 1; 0]] !! 0%nat = Some row0
    ∧ (∀ i player ps,
         runs !! i = Some (player, ps) →
         3 <= Z.of_nat (length ps) →
         (∀ j run, (j < i)%nat → runs !! j = Some run →
                   Z.of_nat (length run.2) < 3) →
         end_of_game 3 [[1; 1; 1; 0]] = Ok player)
    ∧ ((∀ run, maximal_run [[1; 1; 1; 0]] run →
               Z.of_nat (length run.2) < 3) →
       end_of_game 3 [[1; 1; 1; 0]]
       = Ok (if bool_decide (0 ∈ row0) then GAME_NOT_OVER else DRAW))
    ∧ (valid_cells 2 [[1; 1; 1; 0]] →
       (end_of_game 3 [[1; 1; 1; 0]] = Ok GAME_NOT_OVER
        ∧ 0 ∈ row0
        ∧ ∀ run, maximal_run [[1; 1; 1; 0]] run →
                 Z.of_nat (length run.2) < 3)
       ∨ (end_of_game 3 [[1; 1; 1; 0]] = Ok DRAW
          ∧ (0 ∉ row0)
          ∧ ∀ run, maximal_run [[1; 1; 1; 0]] run →
                   Z.of_nat (length run.2) < 3)
       ∨ (∃ p ps,
            end_of_game 3 [[1; 1; 1; 0]] = Ok p
            ∧ 1 <= p <= 2
            ∧ maximal_run [[1; 1; 1; 0]] (p, ps)
            ∧ 3 <= Z.of_nat (length ps))).
Proof.
  apply (end_of_game_outcome 1 4 [[1; 1; 1; 0]] 3 2).
  - split; [reflexivity|]. repeat constructor.
  - lia.
  - lia.
Defined.

(** ** Winning and blocking *)

Lemma rect_insert_row m n above (row : list Z) below c player :
  rect m n (above ++ row :: below) →
  rect m n (above ++ <[c:=player]> row :: below).
Proof.
  intros [Hm Hn]. split.
  - rewrite <-Hm, !length_app. done.
  - apply Forall_app in Hn as [Ha Hb]. apply Forall_app. split; [done|].
    apply Forall_cons in Hb as [Hrow Hb]. constructor; [|done].
    by rewrite length_insert.
Qed.

Lemma copy_and_drop_piece_rect m n board who column :
  rect m n board → 1 <= column <= Z.of_nat n →
  ∃ new_board,
    copy_and_drop_piece board who column = Ok new_board
    ∧ rect m n new_board.
Proof.
  intros Hrect Hcol. unfold copy_and_drop_piece.
  set (c := Z.to_nat (column - 1)).
  assert (c < n)%nat as Hc by lia.
  replace column with (Z.of_nat c + 1) by lia.
  destruct (drop_piece_spec board c (rect_in_range _ _ _ _ Hrect Hc))
    as [[_ ->]|(above & row & below & -> & _ & _ & ->)]; simpl.
  - by exists board.
  - eexists. split; [done|]. by apply rect_insert_row.
Qed.

Lemma end_of_game_total m n board k :
  rect m n board → (0 < m)%nat → ∃ state, end_of_game k board = Ok state.
Proof.
  intros Hrect Hm.
  destruct (lookup_lt_is_Some_2 board 0) as [row0 Hrow0].
  { destruct Hrect. lia. }
  eexists. eapply end_of_game_rect; [|done].
  by apply (pieces_in_a_row_rect m n).
Qed.

(** The scan of the columns returns the first column that wins. *)
Lemma first_winning_column_spec m n board k who columns :
  rect m n board → (0 < m)%nat →
  Forall (fun c => 1 <= c <= Z.of_nat n) columns →
  ∃ found,
    first_winning_column k board who columns = Ok found
    ∧ match found with
      | Some column => first_win k board who columns column
      | None => no_win k board who columns
      end.
Proof.
  intros Hrect Hm Hcols.
  induction Hcols as [|column rest Hcolumn _ IH]; simpl.
  { exists None. split; [done|]. intros c Hc. by apply elem_of_nil in Hc. }
  destruct (copy_and_drop_piece_rect m n board who column Hrect Hcolumn)
    as (new_board & Hcopy & Hrect').
  destruct (end_of_game_total m n new_board k Hrect' Hm) as [state Hstate].
  rewrite Hcopy. simpl. rewrite Hstate. simpl.
  destruct (Z.eqb_spec state who) as [->|Hne].
  - exists (Some column). split; [done|]. exists 0%nat. split_and!.
    + done.
    + by exists new_board.
    + intros j c Hj. lia.
  - assert (¬ wins k board who column) as Hnot.
    { intros (b & Hb & Hwin). congruence. }
    destruct IH as (found & -> & Hfound). exists found. split; [done|].
    destruct found as [c|].
    + destruct Hfound as (i & Hi & Hwin & Hbefore). exists (S i).
      split_and!; [done..|]. intros [|j] c' Hj; simpl.
      * by intros [= <-].
      * apply Hbefore. lia.
    + intros c [->|Hc]%elem_of_cons; [done|by apply Hfound].
Qed.

Lemma first_win_unique k board who columns c c' :
  first_win k board who columns c → first_win k board who columns c' → c = c'.
Proof.
  intros (i & Hi & Hw & Hb) (i' & Hi' & Hw' & Hb').
  destruct (Nat.lt_trichotomy i i') as [H|[->|H]].
  - by destruct (Hb' i c H Hi).
  - congruence.
  - by destruct (Hb i' c' H Hi').
Qed.

Lemma first_win_not_no_win k board who columns c :
  first_win k board who columns c → ¬ no_win k board who columns.
Proof.
  intros (i & Hi & Hw & _) Hno. apply (Hno c); [|done].
  by eapply list_elem_of_lookup_2.
Qed.

(** The loop over the opponents returns the first winning column of the
    first opponent that has one. *)
Lemma block_opponents_spec m n board k num_players columns player indices :
  rect m n board → (0 < m)%nat →
  Forall (fun c => 1 <= c <= Z.of_nat n) columns →
  ∃ found,
    block_opponents k num_players board columns player indices = Ok found
    ∧ match found with
      | Some column =>
          ∃ (a : nat) i,
            indices !! a = Some i
            ∧ first_win k board ((player + i) `mod` num_players + 1)
                columns column
            ∧ ∀ (b : nat) j, (b < a)%nat → indices !! b = Some j →
                no_win k board ((player + j) `mod` num_players + 1) columns
      | None =>
          ∀ i, i ∈ indices →
               no_win k board ((player + i) `mod` num_players + 1) columns
      end.
Proof.
  intros Hrect Hm Hcols. induction indices as [|i rest IH]; simpl.
  { exists None. split; [done|]. intros i Hi. by apply elem_of_nil in Hi. }
  destruct (first_winning_column_spec m n board k
              ((player + i) `mod` num_players + 1) columns Hrect Hm Hcols)
    as (found & -> & Hfound). simpl.
  destruct found as [column|].
  - exists (Some column). split; [done|]. exists 0%nat, i.
    split_and!; [done..|]. intros b j Hb. lia.
  - destruct IH as (found & -> & Hrest). exists found. split; [done|].
    destruct found as [column|].
    + destruct Hrest as (a & i' & Ha & Hwin & Hbefore).
      exists (S a), i'. split_and!; [done..|].
      intros [|b] j Hb; simpl.
      * by intros [= <-].
      * apply Hbefore. lia.
    + intros i' [->|Hi']%elem_of_cons; [done|by apply Hrest].
Qed.

Lemma next_player_iter num_players player (i : nat) :
  0 < num_players →
  Nat.iter (S i) (next_player num_players) player
  = (player + Z.of_nat i) `mod` num_players + 1.
Proof.
  intros Hn. induction i as [|i IH].
  { simpl. unfold next_player. by rewrite Z.add_0_r. }
  rewrite Nat.iter_succ, IH. unfold next_player.
  rewrite Zplus_mod_idemp_l. do 2 f_equal. lia.
Qed.

(** C5: on a rectangular board and columns within it,
    [win_or_block_column] returns the first column, in the order given,
    that wins at once for [player]; failing that, the first column that
    wins at once for the first opponent, in turn order from the player
    after [player], who has such a column; and no column when there is
    none.  On the board of the second scenario it returns column 2. *)
Theorem win_or_block_column_spec (m n : nat) board k num_players columns
    player :
  rect m n board → (0 < m)%nat →
  Forall (fun c => 1 <= c <= Z.of_nat n) columns →
  (∃ found,
     win_or_block_column k num_players board columns player = Ok found
     ∧ (∀ c, first_win k board player columns c → found = Some c)
     ∧ (no_win k board player columns →
        ∀ (i : nat) c,
          Z.of_nat i < num_players - 1 →
          first_win k board
            (Nat.iter (S i) (next_player num_players) player) columns c →
          (∀ j : nat, (j < i)%nat →
             no_win k board
               (Nat.iter (S j) (next_player num_players) player) columns) →
          found = Some c)
     ∧ (no_win k board player columns →
        (∀ i : nat, Z.of_nat i < num_players - 1 →
           no_win k board
             (Nat.iter (S i) (next_player num_players) player) columns) →
        found = None))
  ∧ win_or_block_column 4 2 scenario_board [1; 2; 3; 4; 5; 6; 7] 2
    = Ok (Some 2).
Proof.
  intros Hrect Hm Hcols. split; [|by vm_compute].
  unfold win_or_block_column.
  destruct (first_winning_column_spec m n board k player columns Hrect Hm
              Hcols) as (found0 & -> & Hfound0). cbn [mbind result_bind].
  destruct found0 as [c0|].
  { exists (Some c0). split_and!; [done| | |].
    - intros c Hc. f_equal. by eapply first_win_unique.
    - intros Hno. by destruct (first_win_not_no_win _ _ _ _ _ Hfound0).
    - intros Hno. by destruct (first_win_not_no_win _ _ _ _ _ Hfound0). }
  destruct (block_opponents_spec m n board k num_players columns player
              (range 0 (num_players - 1)) Hrect Hm Hcols)
    as (found & -> & Hfound).
  exists found. split_and!; [done| | |].
  - intros c Hc. by destruct (first_win_not_no_win _ _ _ _ _ Hc).
  - intros _ i c Hi Hwin Hbefore.
    rewrite next_player_iter in Hwin by lia.
    destruct found as [c'|].
    + destruct Hfound as (a & i' & Ha & Hwin' & Hbefore').
      unfold range in Ha. apply lookup_seqZ in Ha as [-> Ha].
      rewrite Z.add_0_l in Hwin'.
      destruct (Nat.lt_trichotomy a i) as [Hlt|[->|Hlt]].
      * specialize (Hbefore a Hlt).
        rewrite next_player_iter in Hbefore by lia.
        by destruct (first_win_not_no_win _ _ _ _ _ Hwin').
      * f_equal. by eapply first_win_unique.
      * destruct (first_win_not_no_win _ _ _ _ _ Hwin).
        apply (Hbefore' i (Z.of_nat i) Hlt). unfold range.
        apply lookup_seqZ. lia.
    + destruct (first_win_not_no_win _ _ _ _ _ Hwin).
      apply Hfound. unfold range. apply elem_of_seqZ. lia.
  - intros _ Hnone. destruct found as [c'|]; [|done].
    destruct Hfound as (a & i' & Ha & Hwin' & _).
    unfold range in Ha. apply lookup_seqZ in Ha as [-> Ha].
    rewrite Z.add_0_l in Hwin'.
    destruct (first_win_not_no_win _ _ _ _ _ Hwin').
    rewrite <-next_player_iter by lia. apply Hnone. lia.
Qed.

Lemma win_or_block_column_spec_witness :
  (∃ found,
     win_or_block_column 4 2 scenario_board [1; 2; 3; 4; 5; 6; 7] 2
     = Ok found
     ∧ (∀ c, first_win 4 scenario_board 2 [1; 2; 3; 4; 5; 6; 7] c →
             found = Some c)
     ∧ (no_win 4 scenario_board 2 [1; 2; 3; 4; 5; 6; 7] →
        ∀ (i : nat) c,
          Z.of_nat i < 2 - 1 →
          first_win 4 scenario_board
            (Nat.iter (S i) (next_player 2) 2) [1; 2; 3; 4; 5; 6; 7] c →
          (∀ j : nat, (j < i)%nat →
             no_win 4 scenario_board
               (Nat.iter (S j) (next_player 2) 2) [1; 2; 3; 4; 5; 6; 7]) →
          found = Some c)
     ∧ (no_win 4 scenario_board 2 [1; 2; 3; 4; 5; 6; 7] →
        (∀ i : nat, Z.of_nat i < 2 - 1 →
           no_win 4 scenario_board
             (Nat.iter (S i) (next_player 2) 2) [1; 2; 3; 4; 5; 6; 7]) →
        found = None))
  ∧ win_or_block_column 4 2 scenario_board [1; 2; 3; 4; 5; 6; 7] 2
    = Ok (Some 2).
Proof.
  apply (win_or_block_column_spec 6 7 scenario_board 4 2
           [1; 2; 3; 4; 5; 6; 7] 2).
  - split; [reflexivity|]. repeat constructor.
  - lia.
  - repeat constructor; lia.
Defined.

(** ** The first long run, as the first window of equal cells *)

Lemma find_flush k cur acc (rest : list (Z * list (Z * Z))) :
  find (long_enough k) (flush cur acc ++ rest)
  = if (win_length k <=? length acc)%nat && negb (cur =? 0)
    then Some (cur, acc) else find (long_enough k) rest.
Proof.
  unfold flush, win_length, long_enough.
  destruct (Z.ltb_spec 1 (Z.of_nat (length acc)));
    destruct (Z.eqb_spec cur 0); simpl;
    destruct (Nat.leb_spec (Z.to_nat (Z.max k 2)) (length acc));
    simpl; try done; try lia.
  - destruct (Z.leb_spec k (Z.of_nat (length acc))); [done|lia].
  - destruct (Z.leb_spec k (Z.of_nat (length acc))); [lia|done].
Qed.

Lemma owner_scan k cur acc (cs : list (Z * Z * Z)) :
  fst <$> find (long_enough k)
            (pieces_in_a_row_from_cells cur acc (Ok <$> cs)).1
  = scan_owner (win_length k) cur (length acc) cs.*2.
Proof.
  revert cur acc. induction cs as [|[p v] cs IH]; intros cur acc; simpl.
  - rewrite <-(app_nil_r (flush cur acc)), find_flush. simpl.
    by destruct (_ && _).
  - destruct (Z.eqb_spec v cur) as [->|Hne].
    + rewrite IH, length_app. simpl.
      by replace (length acc + 1)%nat with (S (length acc)) by lia.
    + rewrite gen_app_nil_l. simpl. rewrite find_flush.
      destruct (_ && _); [done|]. by rewrite IH.
Qed.

Lemma all_eq_replicate w x c (rest : list Z) :
  (∀ y, head rest = Some y → y ≠ x) →
  all_eq w x (replicate c x ++ rest) = (w <=? c)%nat.
Proof.
  intros Hrest. revert w. induction c as [|c IH]; intros [|w]; simpl; try done.
  - destruct rest as [|y rest]; [done|].
    destruct (Z.eqb_spec y x) as [->|]; [|done].
    by destruct (Hrest x).
  - by rewrite Z.eqb_refl, IH.
Qed.

Lemma first_window_replicate w x c (rest : list Z) :
  (0 < w)%nat →
  (∀ y, head rest = Some y → y ≠ x) →
  first_window w (replicate c x ++ rest)
  = if (w <=? c)%nat && negb (x =? 0) then Some x else first_window w rest.
Proof.
  intros Hw Hrest. induction c as [|c IH]; simpl.
  { destruct (Nat.leb_spec w 0); [lia|done]. }
  pose proof (all_eq_replicate w x (S c) rest Hrest) as Hall.
  simpl in Hall. rewrite Hall, IH.
  destruct (Nat.leb_spec w (S c)), (Nat.leb_spec w c),
    (Z.eqb_spec x 0); simpl; try done; lia.
Qed.

Lemma scan_owner_window w cur cnt (vs : list Z) :
  (0 < w)%nat →
  scan_owner w cur cnt vs = first_window w (replicate cnt cur ++ vs).
Proof.
  intros Hw. revert cur cnt. induction vs as [|v vs IH]; intros cur cnt; simpl.
  - rewrite first_window_replicate by done. done.
  - destruct (Z.eqb_spec v cur) as [->|Hne].
    + rewrite IH. f_equal. rewrite replicate_S_end. by rewrite <-app_assoc.
    + rewrite first_window_replicate; [|done|].
      2:{ intros y [= <-]. done. }
      destruct (_ && _); [done|]. by rewrite IH.
Qed.

Lemma runs_of_owner k (cs : list (Z * Z * Z)) :
  fst <$> find (long_enough k) (runs_of cs)
  = first_window (win_length k) cs.*2.
Proof.
  unfold runs_of. rewrite owner_scan. simpl.
  rewrite scan_owner_window; [done|]. unfold win_length. lia.
Qed.

Lemma find_append {A} (f : A → bool) (l1 l2 : list A) :
  find f (l1 ++ l2)
  = match find f l1 with
    | Some x => Some x
    | None => find f l2
    end.
Proof.
  induction l1 as [|x l1 IH]; simpl; [done|]. by destruct (f x).
Qed.

Lemma find_mjoin {A} (f : A → bool) (ls : list (list A)) :
  find f (mjoin ls) = first_some (find f) ls.
Proof.
  induction ls as [|l ls IH]; simpl; [done|].
  rewrite find_append. by rewrite IH.
Qed.

Lemma first_some_fmap {A B C} (g : A → option B) (h : B → C) (l : list A) :
  h <$> first_some g l = first_some (fun x => h <$> g x) l.
Proof.
  induction l as [|x l IH]; simpl; [done|]. by destruct (g x).
Qed.

(** The cells of a line with some of them replaced by [q]. *)
Lemma all_eq_fill q w (l l' : list Z) :
  Forall2 (fun a b => a = b ∨ b = q) l l' →
  all_eq w q l = true → all_eq w q l' = true.
Proof.
  intros H. revert w. induction H as [|a b l l' Hab _ IH]; intros [|w]; simpl;
    try done.
  intros [Ha%Z.eqb_eq Hl]%andb_true_iff. rewrite IH by done.
  destruct Hab; subst; by rewrite Z.eqb_refl.
Qed.

Lemma all_eq_unfill q w x (l l' : list Z) :
  Forall2 (fun a b => a = b ∨ b = q) l l' →
  x ≠ q →
  all_eq w x l' = true → all_eq w x l = true.
Proof.
  intros H Hx. revert w. induction H as [|a b l l' Hab _ IH]; intros [|w];
    simpl; try done.
  intros [Hb%Z.eqb_eq Hl]%andb_true_iff. rewrite IH by done.
  destruct Hab; subst; [by rewrite Z.eqb_refl|done].
Qed.

Lemma first_window_fill q w (l l' : list Z) :
  Forall2 (fun a b => a = b ∨ b = q) l l' →
  q ≠ 0 →
  (first_window w l = Some q → first_window w l' = Some q)
  ∧ (first_window w l = None →
     first_window w l' = None ∨ first_window w l' = Some q).
Proof.
  intros H Hq. induction H as [|a b l l' Hab Hrest IH]; simpl.
  { split; [done|]. by left. }
  assert (Forall2 (fun a b => a = b ∨ b = q) (a :: l) (b :: l')) as Hall.
  { by constructor. }
  destruct (negb (a =? 0) && all_eq w a (a :: l)) eqn:Ea.
  - split; [|done]. intros [= ->].
    apply andb_true_iff in Ea as [_ Ea].
    assert (b = q) as -> by (by destruct Hab).
    rewrite (all_eq_fill q w _ _ Hall Ea).
    by destruct (Z.eqb_spec q 0).
  - destruct (negb (b =? 0) && all_eq w b (b :: l')) eqn:Eb.
    + destruct (decide (b = q)) as [->|Hbq].
      { split; [done|]. by right. }
      assert (a = b) as -> by (by destruct Hab).
      apply andb_true_iff in Eb as [Hb0 Eb].
      rewrite Hb0, (all_eq_unfill q w b _ _ Hall Hbq Eb) in Ea. done.
    + done.
Qed.

Lemma first_some_ext {A B} (g h : A → option B) (l : list A) :
  (∀ x, x ∈ l → g x = h x) → first_some g l = first_some h l.
Proof.
  induction l as [|x l IH]; simpl; [done|]. intros H.
  rewrite (H x) by (by left). destruct (h x); [done|].
  apply IH. intros y Hy. apply H. by right.
Qed.

Lemma first_some_compose {A B C} (g : B → option C) (h : A → B) (l : list A) :
  first_some g (h <$> l) = first_some (fun x => g (h x)) l.
Proof.
  induction l as [|x l IH]; [done|].
  rewrite fmap_cons. cbn [first_some]. by rewrite IH.
Qed.

Lemma find_long_owner m n board k :
  fst <$> find (long_enough k)
            (mjoin (runs_of <$> (line_cells board
                                   <$> line_specs (Z.of_nat m) (Z.of_nat n))))
  = board_owner k (Z.of_nat m) (Z.of_nat n) board.
Proof.
  rewrite find_mjoin, first_some_fmap, !first_some_compose.
  unfold board_owner. apply first_some_ext. intros spec _.
  apply runs_of_owner.
Qed.

(** The outcome of a rectangular board, from its first long window. *)
Lemma end_of_game_owner m n board k row0 :
  rect m n board → (0 < m)%nat → board !! 0%nat = Some row0 →
  end_of_game k board
  = Ok (match board_owner k (Z.of_nat m) (Z.of_nat n) board with
        | Some q => q
        | None => if contains_zero row0 then GAME_NOT_OVER else DRAW
        end).
Proof.
  intros Hrect Hm Hrow0.
  rewrite (end_of_game_rect board k _ row0
             (pieces_in_a_row_rect m n board Hrect Hm) Hrow0).
  rewrite <-find_long_owner.
  by destruct (find _ _) as [[q ps]|].
Qed.

Lemma line_values_fill q board board' spec :
  fills q board board' →
  Forall2 (fun a b => a = b ∨ b = q)
    (line_cells board spec).*2 (line_cells board' spec).*2.
Proof.
  intros Hfill. unfold line_cells, cells_on.
  rewrite <-!list_fmap_compose. apply Forall2_fmap, Forall_Forall2_diag.
  apply Forall_forall. intros p _. simpl. apply Hfill.
Qed.

Lemma board_owner_fill q k m n board board' :
  fills q board board' → q ≠ 0 →
  board_owner k m n board = Some q →
  board_owner k m n board' = Some q.
Proof.
  intros Hfill Hq. unfold board_owner.
  induction (line_specs m n) as [|spec specs IH]; simpl; [done|].
  destruct (first_window_fill q (win_length k) _ _
              (line_values_fill q board board' spec Hfill) Hq)
    as [Hsome Hnone].
  destruct (first_window _ (line_cells board spec).*2) as [x|].
  - intros [= ->]. by rewrite Hsome.
  - intros Hrest. destruct (Hnone eq_refl) as [-> | ->]; [by apply IH|done].
Qed.

Lemma value_at_insert_row above (row : list Z) below c player p :
  (c < length row)%nat →
  value_at (above ++ <[c:=player]> row :: below) p
  = if decide (p = (Z.of_nat (length above), Z.of_nat c)) then player
    else value_at (above ++ row :: below) p.
Proof.
  intros Hc. unfold value_at, cell_at. destruct p as [r j]. simpl.
  destruct (Z.leb_spec 0 r), (Z.leb_spec 0 j); simpl;
    try (rewrite decide_False; [done|intros [= ? ?]; lia]).
  rewrite cell_insert_row by done.
  destruct (decide (Z.to_nat r = length above ∧ Z.to_nat j = c))
    as [[Hr Hj]|Hne].
  - rewrite decide_True; [done|]. f_equal; lia.
  - rewrite decide_False; [done|]. intros [= ? ?]. apply Hne. lia.
Qed.

Lemma fills_insert_row above (row : list Z) below c p q :
  (c < length row)%nat →
  fills q (above ++ <[c:=p]> row :: below)
    (above ++ <[c:=q]> row :: below).
Proof.
  intros Hc pos. rewrite !value_at_insert_row by done.
  case_decide; [by right|by left].
Qed.

Lemma valid_cells_insert_row np above (row : list Z) below c p :
  valid_cells np (above ++ row :: below) → 0 <= p <= np →
  valid_cells np (above ++ <[c:=p]> row :: below).
Proof.
  unfold valid_cells. intros [Ha Hb]%Forall_app Hp.
  apply Forall_cons in Hb as [Hrow Hb].
  apply Forall_app. split; [done|]. constructor; [|done].
  by apply Forall_insert.
Qed.

Lemma free_column_in_range (row0 : list Z) c :
  c ∈ free_of row0 →
  1 <= c <= Z.of_nat (length row0) ∧ row0 !! Z.to_nat (c - 1) = Some 0.
Proof.
  intros [Hc Hrow]%elem_of_free_of. split; [|done].
  apply lookup_lt_Some in Hrow. lia.
Qed.

(** The boards after a drop in a free column: the same cell takes the
    piece whoever drops. *)
Lemma drop_in_free_column m n board row0 rest c :
  rect m n board → board = row0 :: rest → c ∈ free_of row0 →
  ∃ above row below,
    board = above ++ row :: below
    ∧ (Z.to_nat (c - 1) < length row)%nat
    ∧ 1 <= c <= Z.of_nat n
    ∧ ∀ player,
        drop_piece board player c
        = (above ++ <[Z.to_nat (c - 1):=player]> row :: below, Ok true).
Proof.
  intros Hrect -> [Hc Hrow0]%free_column_in_range.
  assert (length row0 = n) as Hn.
  { by apply (rect_lookup m n (row0 :: rest) 0). }
  rewrite Hn in Hc.
  assert (Z.to_nat (c - 1) < n)%nat as Hlt by lia.
  destruct (drop_piece_spec (row0 :: rest) (Z.to_nat (c - 1))
              (rect_in_range _ _ _ _ Hrect Hlt))
    as [[Hfull _]|(above & row & below & Hb & _ & _ & Hdrop)].
  { apply Forall_cons in Hfull as [Hfull _]. done. }
  exists above, row, below. split_and!; [done| |lia..|].
  - rewrite (rect_lookup m n (row0 :: rest) (length above) row Hrect); [done|].
    rewrite Hb. by apply list_lookup_middle.
  - intros player. rewrite <-Hdrop. f_equal. lia.
Qed.

(** When no player can win by a drop in a free column, no drop in a free
    column leaves a run of length [k] or more on the board. *)
Lemma no_win_no_long_run m n board k np row0 rest :
  rect m n board → board = row0 :: rest →
  valid_cells np board →
  (∀ p c, 1 <= p <= np → c ∈ free_of row0 → ¬ wins k board p c) →
  ∀ p c new_board,
    1 <= p <= np → c ∈ free_of row0 →
    copy_and_drop_piece board p c = Ok new_board →
    ∀ run, run ∈ (pieces_in_a_row new_board).1 →
           Z.of_nat (length run.2) < k.
Proof.
  intros Hrect Hboard Hvalid Hnowin p c new_board Hp Hc Hcopy run Hrun.
  assert (0 < m)%nat as Hm.
  { destruct Hrect as [<- _]. rewrite Hboard. simpl. lia. }
  destruct (drop_in_free_column m n board row0 rest c Hrect Hboard Hc)
    as (above & row & below & Hab & Hlt & Hcr & Hdrop).
  set (j := Z.to_nat (c - 1)) in *.
  assert (∀ player, copy_and_drop_piece board player c
                    = Ok (above ++ <[j:=player]> row :: below)) as Hcopies.
  { intros player. unfold copy_and_drop_piece. by rewrite Hdrop. }
  rewrite Hcopies in Hcopy. injection Hcopy as <-.
  assert (∀ player, rect m n (above ++ <[j:=player]> row :: below)) as Hrects.
  { intros player. apply rect_insert_row. by rewrite <-Hab. }
  destruct (Z.ltb_spec (Z.of_nat (length run.2)) k) as [|Hlong]; [done|].
  exfalso.
  rewrite (pieces_in_a_row_rect m n _ (Hrects p) Hm) in Hrun. simpl in Hrun.
  destruct (find (long_enough k)
              (mjoin (runs_of <$> (line_cells (above ++ <[j:=p]> row :: below)
                        <$> line_specs (Z.of_nat m) (Z.of_nat n)))))
    as [[q ps]|] eqn:Hfind.
  2:{ pose proof (proj1 (find_none _ _) Hfind run Hrun) as Hshort.
      apply long_enough_false in Hshort. lia. }
  pose proof (find_long_owner m n (above ++ <[j:=p]> row :: below) k)
    as Howner.
  rewrite Hfind in Howner. simpl in Howner. symmetry in Howner.
  apply find_first in Hfind as (i & Hi & _ & _).
  apply list_elem_of_lookup_2, (elem_of_all_runs m n _ _ (Hrects p)) in Hi.
  assert (1 <= q <= np) as Hq.
  { destruct Hi as (start & d & [|len] & _ & Hps & Hlen & Hq0 & Hcells & _);
      [lia|]. simpl in *.
    specialize (Hcells (pos_on start d (Z.of_nat 0))).
    rewrite Hps in Hcells. unfold segment in Hcells. simpl in Hcells.
    pose proof (Hcells ltac:(by left)) as Hcell.
    unfold cell_at in Hcell. destruct (_ && _); [|done].
    apply cell_Some in Hcell as (r & Hr & Hx).
    assert (valid_cells np (above ++ <[j:=p]> row :: below)) as Hv.
    { apply valid_cells_insert_row; [by rewrite <-Hab|lia]. }
    pose proof (Forall_lookup_1 _ _ _ _ Hv Hr) as Hrow.
    pose proof (Forall_lookup_1 _ _ _ _ Hrow Hx) as Hb. simpl in Hb. lia. }
  apply (Hnowin q c Hq Hc).
  exists (above ++ <[j:=q]> row :: below). split; [apply Hcopies|].
  assert (∃ r0, (above ++ <[j:=q]> row :: below) !! 0%nat = Some r0)
    as [r0 Hr0].
  { apply lookup_lt_is_Some. destruct (Hrects q) as [-> _]. done. }
  rewrite (end_of_game_owner m n _ k r0 (Hrects q) Hm Hr0).
  rewrite (board_owner_fill q k _ _ (above ++ <[j:=p]> row :: below));
    [done| |lia|done].
  by apply fills_insert_row.
Qed.

Lemma opponent_index np player p :
  1 <= player <= np → 1 <= p <= np → p ≠ player →
  ∃ i, 0 <= i < np - 1 ∧ (player + i) `mod` np + 1 = p.
Proof.
  intros Hplayer Hp Hne. exists ((p - 1 - player) `mod` np).
  assert (0 <= (p - 1 - player) `mod` np < np) as Hi
    by (apply Z.mod_pos_bound; lia).
  assert ((player + (p - 1 - player) `mod` np) `mod` np + 1 = p) as Heq.
  { rewrite Zplus_mod_idemp_r.
    replace (player + (p - 1 - player)) with (p - 1) by lia.
    rewrite Z.mod_small by lia. lia. }
  split; [|done]. split; [lia|].
  destruct (decide ((p - 1 - player) `mod` np = np - 1)) as [E|]; [|lia].
  rewrite E in Heq.
  replace (player + (np - 1)) with (player - 1 + 1 * np) in Heq by lia.
  rewrite Z_mod_plus_full, Z.mod_small in Heq by lia. lia.
Qed.

(** When [win_or_block_column] finds no column, no player can win by a
    drop in one of the columns. *)
Lemma win_or_block_none m n board k np columns player :
  rect m n board → (0 < m)%nat →
  Forall (fun c => 1 <= c <= Z.of_nat n) columns →
  1 <= player <= np →
  win_or_block_column k np board columns player = Ok None →
  ∀ p, 1 <= p <= np → no_win k board p columns.
Proof.
  intros Hrect Hm Hcols Hplayer. unfold win_or_block_column.
  destruct (first_winning_column_spec m n board k player columns Hrect Hm
              Hcols) as (found0 & -> & Hfound0). cbn [mbind result_bind].
  destruct found0 as [c0|]; [done|].
  destruct (block_opponents_spec m n board k np columns player
              (range 0 (np - 1)) Hrect Hm Hcols) as (found & -> & Hfound).
  intros [= ->] p Hp.
  destruct (decide (p = player)) as [->|Hne]; [done|].
  destruct (opponent_index np player p Hplayer Hp Hne) as (i & Hi & <-).
  apply Hfound. unfold range. apply elem_of_seqZ. lia.
Qed.

(** ** Extendable runs *)

Lemma py_get_Z {A} (l : list A) (i : Z) :
  0 <= i < Z.of_nat (length l) →
  ∃ x, l !! Z.to_nat i = Some x ∧ py_get l i = Ok x.
Proof.
  intros Hi. destruct (lookup_lt_is_Some_2 l (Z.to_nat i)) as [x Hx]; [lia|].
  exists x. split; [done|].
  rewrite <-(Z2Nat.id i) by lia. by apply py_get_nat.
Qed.

(** A loop that moves by one column, or by one row, per iteration ends
    before it has used as many iterations as the way to the edge. *)
Lemma count_free_cells_total m n board fuel row col dr dc count :
  rect m n board →
  (dc = 1 ∧ col <= Z.of_nat n - 1 ∧ Z.of_nat n - 1 - col < Z.of_nat fuel)
  ∨ (dc = -1 ∧ 0 <= col ∧ col < Z.of_nat fuel)
  ∨ (dr = 1 ∧ row <= Z.of_nat m - 1 ∧ Z.of_nat m - 1 - row < Z.of_nat fuel)
  ∨ (dr = -1 ∧ 0 <= row ∧ row < Z.of_nat fuel) →
  ∃ c, count_free_cells fuel board (Z.of_nat m) (Z.of_nat n)
         row col dr dc count = Ok c.
Proof.
  intros Hrect. revert row col count.
  induction fuel as [|fuel IH]; intros row col count Hcond; [lia|].
  cbn [count_free_cells].
  destruct (_ && _) eqn:Hin; [|by eexists].
  apply andb_true_iff in Hin as [Hin Hc2].
  apply andb_true_iff in Hin as [Hin Hc1].
  apply andb_true_iff in Hin as [Hr1 Hr2].
  apply Z.leb_le in Hr1, Hc1. apply Z.ltb_lt in Hr2, Hc2.
  destruct Hrect as [Hm Hn].
  destruct (py_get_Z board (row + dr)) as (cells & Hcells & ->); [lia|].
  cbn [mbind result_bind].
  pose proof (Forall_lookup_1 _ _ _ _ Hn Hcells) as Hlen. simpl in Hlen.
  destruct (py_get_Z cells (col + dc)) as (x & Hx & ->); [lia|].
  cbn [mbind result_bind].
  destruct (x =? 0); [|by eexists].
  apply IH. lia.
Qed.

Lemma py_get_0 {A} (l : list A) x : l !! 0%nat = Some x → py_get l 0 = Ok x.
Proof. apply (py_get_nat l 0). Qed.

Lemma py_get_1 {A} (l : list A) x : l !! 1%nat = Some x → py_get l 1 = Ok x.
Proof. apply (py_get_nat l 1). Qed.

Lemma py_get_segment start d len (t : nat) :
  (t < len)%nat →
  py_get (segment start d len) (Z.of_nat t) = Ok (pos_on start d (Z.of_nat t)).
Proof.
  intros Ht. apply py_get_nat. rewrite segment_lookup. by rewrite decide_True.
Qed.

Lemma py_get_last {A} (l : list A) x :
  last l = Some x → py_get l (-1) = Ok x.
Proof.
  intros Hl. unfold py_get, norm_index. rewrite last_lookup in Hl.
  assert (0 < length l)%nat.
  { destruct l; [done|simpl; lia]. }
  destruct (Z.leb_spec 0 (-1)); [lia|].
  destruct (Z.leb_spec (- Z.of_nat (length l)) (-1)); [|lia].
  replace (Z.to_nat (Z.of_nat (length l) + -1)) with (pred (length l)) by lia.
  by rewrite Hl.
Qed.

(** On a segment of the board along one of the four directions,
    [can_win_from_pieces] returns. *)
Lemma can_win_from_pieces_total m n board k start d len :
  rect m n board → (0 < m)%nat →
  d ∈ directions → (2 <= len)%nat →
  (∀ p, p ∈ segment start d len → in_board (Z.of_nat m) (Z.of_nat n) p) →
  ∃ b, can_win_from_pieces k board (segment start d len) = Ok b.
Proof.
  intros Hrect Hm Hd Hlen Hin. unfold can_win_from_pieces.
  destruct (lookup_lt_is_Some_2 board 0) as [row0 Hrow0].
  { destruct Hrect. lia. }
  rewrite (py_get_0 board row0 Hrow0).
  cbn [mbind result_bind].
  pose proof (rect_lookup _ _ _ _ _ Hrect Hrow0) as Hn.
  pose proof Hrect as [Hlenb _]. rewrite Hn, Hlenb.
  rewrite (py_get_0 _ (pos_on start d (Z.of_nat 0)))
    by (rewrite segment_lookup; by rewrite decide_True by lia).
  rewrite (py_get_1 _ (pos_on start d (Z.of_nat 1)))
    by (rewrite segment_lookup; by rewrite decide_True by lia).
  rewrite (py_get_last _ (pos_on start d (Z.of_nat (len - 1)))).
  2:{ rewrite last_lookup, length_segment, segment_lookup.
      rewrite decide_True by lia. do 2 f_equal. lia. }
  cbn [mbind result_bind].
  assert (in_board (Z.of_nat m) (Z.of_nat n) (pos_on start d (Z.of_nat 0)))
    as Hfst.
  { apply Hin, elem_of_segment. exists 0%nat. split; [lia|done]. }
  assert (in_board (Z.of_nat m) (Z.of_nat n)
            (pos_on start d (Z.of_nat (len - 1)))) as Hlst.
  { apply Hin, elem_of_segment. exists (len - 1)%nat. split; [lia|done]. }
  unfold in_board, pos_on in *. simpl in Hfst, Hlst. cbn [fst snd].
  unfold directions in Hd. rewrite !elem_of_cons, elem_of_nil in Hd.
  match goal with
  | |- context [count_free_cells ?f _ _ _ ?r ?c ?dr ?dc ?cnt] =>
      destruct (count_free_cells_total m n board f r c dr dc cnt Hrect)
        as [fw ->]
  end.
  { destruct Hd as [->|[->|[->|[->|[]]]]]; simpl in *; lia. }
  cbn [mbind result_bind].
  match goal with
  | |- context [count_free_cells ?f _ _ _ ?r ?c ?dr ?dc ?cnt] =>
      destruct (count_free_cells_total m n board f r c dr dc cnt Hrect)
        as [bw ->]
  end.
  { destruct Hd as [->|[->|[->|[->|[]]]]]; simpl in *; lia. }
  by eexists.
Qed.

(** ** The counts table *)

Lemma count_if_ext {A} (f g : A → bool) (l : list A) :
  (∀ x, x ∈ l → f x = g x) → count_if f l = count_if g l.
Proof.
  induction l as [|x l IH]; simpl; [done|]. intros H.
  rewrite (H x) by (by left). rewrite IH; [done|].
  intros y Hy. apply H. by right.
Qed.

Lemma count_if_false {A} (f : A → bool) (l : list A) :
  (∀ x, x ∈ l → f x = false) → count_if f l = 0.
Proof.
  induction l as [|x l IH]; simpl; [done|]. intros H.
  rewrite (H x) by (by left). rewrite IH; [done|].
  intros y Hy. apply H. by right.
Qed.

Lemma table_ext K T f g :
  (∀ x y, f x y = g x y) → table K T f → table K T g.
Proof.
  intros Hfg [Hlen Hrows]. split; [done|]. intros i Hi.
  by rewrite Hrows, !Hfg.
Qed.

Lemma table_init K : table K (replicate K [0; 0]) (fun _ _ => 0).
Proof.
  split; [by rewrite length_replicate|]. intros i Hi.
  by apply lookup_replicate_2.
Qed.

Lemma bump_table K T f (i side : nat) :
  table K T f → (i < K)%nat → (side < 2)%nat →
  ∃ T',
    bump T (Z.of_nat i) (Z.of_nat side) = Ok T'
    ∧ table K T'
        (fun x y => f x y + if decide (x = i ∧ y = side) then 1 else 0).
Proof.
  intros [Hlen Hrows] Hi Hside. unfold bump.
  rewrite (py_get_nat T i _ (Hrows i Hi)). cbn [mbind result_bind].
  assert (∃ x, [f i 0%nat; f i 1%nat] !! side = Some x ∧ x = f i side)
    as (x & Hx & ->).
  { destruct side as [|[|side]]; [by eexists..|lia]. }
  rewrite (py_get_nat _ side _ Hx). cbn [mbind result_bind].
  rewrite py_set_nat by (simpl; lia). cbn [mbind result_bind].
  rewrite py_set_nat by lia. eexists. split; [done|]. split.
  - by rewrite length_insert.
  - intros x Hxk. destruct (decide (x = i)) as [->|Hne].
    + rewrite list_lookup_insert_eq by lia. f_equal.
      destruct side as [|[|side]]; [| |lia]; simpl;
        repeat case_decide; try (destruct_and?; lia);
        try (exfalso; match goal with H : ¬ _ |- _ => apply H; split; lia end);
        repeat f_equal; lia.
    + rewrite list_lookup_insert_ne by done. rewrite Hrows by done.
      rewrite !decide_False by lia. repeat f_equal; lia.
Qed.

(** A loop that bumps the entry [side] of row [idx run] for every run
    that is [counted]. *)
Lemma loop_table K (side : nat)
    (body : Z * list (Z * Z) → list (list Z) → result (list (list Z)))
    (counted : Z * list (Z * Z) → bool) (idx : Z * list (Z * Z) → Z)
    runs T f :
  (∀ run T, run ∈ runs →
     body run T = if counted run then bump T (idx run) (Z.of_nat side)
                  else Ok T) →
  (∀ run, run ∈ runs → counted run = true → 0 <= idx run < Z.of_nat K) →
  (side < 2)%nat →
  table K T f →
  ∃ T',
    for_each body runs T = Ok T'
    ∧ table K T'
        (fun x y =>
           f x y
           + if decide (y = side)
             then count_if
                    (fun run => counted run && (Z.to_nat (idx run) =? x)%nat)
                    runs
             else 0).
Proof.
  intros Hbody Hidx Hside. revert T f.
  induction runs as [|run runs IH]; intros T f Htable; simpl.
  { exists T. split; [done|]. eapply table_ext; [|done].
    intros x y. simpl. case_decide; lia. }
  rewrite Hbody by (by left).
  assert (∀ run T, run ∈ runs →
            body run T = if counted run then bump T (idx run) (Z.of_nat side)
                         else Ok T) as Hbody'.
  { intros r T0 Hr. apply Hbody. by right. }
  assert (∀ run, run ∈ runs → counted run = true →
                 0 <= idx run < Z.of_nat K) as Hidx'.
  { intros r Hr. apply Hidx. by right. }
  destruct (counted run) eqn:Hc.
  - destruct (bump_table K T f (Z.to_nat (idx run)) side Htable)
      as (T1 & HT1 & Htable1); [|done|].
    { specialize (Hidx run ltac:(by left) Hc). lia. }
    rewrite Z2Nat.id in HT1 by (specialize (Hidx run ltac:(by left) Hc); lia).
    rewrite HT1. cbn [mbind result_bind].
    destruct (IH Hbody' Hidx' T1 _ Htable1) as (T' & -> & Htable').
    exists T'. split; [done|]. eapply table_ext; [|done].
    intros x y. simpl.
    destruct (Nat.eqb_spec (Z.to_nat (idx run)) x);
      repeat case_decide; try lia; try (destruct_and?; lia).
    all: exfalso; match goal with H : ¬ _ |- _ => apply H end; by split.
  - cbn [mbind result_bind].
    destruct (IH Hbody' Hidx' T _ Htable) as (T' & -> & Htable').
    exists T'. split; [done|]. eapply table_ext; [|done].
    intros x y. simpl. case_decide; lia.
Qed.

(** ** The loops of [column_score] *)

Lemma copy_and_drop_piece_dropped board who column new_board :
  copy_and_drop_piece board who column = Ok new_board →
  new_board = dropped board who column.
Proof.
  unfold copy_and_drop_piece, dropped.
  destruct (drop_piece board who column) as [b [ok|e|]]; simpl; congruence.
Qed.

Lemma maximal_run_in_board m n board run :
  rect m n board → maximal_run board run →
  ∃ start d len,
    d ∈ directions ∧ run.2 = segment start d len ∧ (2 <= len)%nat
    ∧ ∀ p, p ∈ segment start d len →
           in_board (Z.of_nat m) (Z.of_nat n) p.
Proof.
  intros Hrect (start & d & len & Hd & Hps & Hlen & _ & Hcells & _).
  exists start, d, len. split_and!; [done..|]. intros p Hp.
  rewrite <-Hps in Hp.
  by apply (proj1 (cell_at_Some m n _ _ _ Hrect) (Hcells p Hp)).
Qed.

(** On the runs of a board, [can_win_from_pieces] returns, also when it
    probes another board of the same size. *)
Lemma run_threat m n scanned probed k run :
  rect m n scanned → rect m n probed → (0 < m)%nat →
  maximal_run scanned run →
  can_win_from_pieces k probed run.2 = Ok (threat k probed run.2).
Proof.
  intros Hs Hp Hm Hrun.
  destruct (maximal_run_in_board m n scanned run Hs Hrun)
    as (start & d & len & Hd & Hps & Hlen & Hin).
  destruct (can_win_from_pieces_total m n probed k start d len Hp Hm Hd Hlen
              Hin) as [b Hb].
  unfold threat. rewrite Hps, Hb. by destruct b.
Qed.

Lemma count_player_run_eq k board player (run : Z * list (Z * Z)) T :
  can_win_from_pieces k board run.2 = Ok (threat k board run.2) →
  count_player_run k board player run T
  = if (run.1 =? player) && threat k board run.2
    then bump T (k - Z.of_nat (length run.2) - 1) (Z.of_nat 0)
    else Ok T.
Proof.
  intros H. destruct run as [row_player cells]. simpl in *.
  destruct (row_player =? player); [|done]. rewrite H. simpl.
  by destruct (threat k board cells).
Qed.

Lemma count_opponent_run_eq k board opponent (run : Z * list (Z * Z)) T :
  can_win_from_pieces k board run.2 = Ok (threat k board run.2) →
  count_opponent_run k board opponent run T
  = if (run.1 =? opponent) && threat k board run.2
       && negb (Z.of_nat (length run.2) =? 2)
    then bump T (k - Z.of_nat (length run.2) - 1) (Z.of_nat 1)
    else Ok T.
Proof.
  intros H. destruct run as [row_player cells]. simpl in *.
  destruct (row_player =? opponent); [|done]. rewrite H. simpl.
  destruct (threat k board cells); [|done]. simpl.
  by destruct (negb _).
Qed.

(** The scan of [scanned] by one of the two counting loops. *)
Lemma counting_loop m n scanned probed k (side : nat)
    (body : Z * list (Z * Z) → list (list Z) → result (list (list Z)))
    (counted : Z * list (Z * Z) → bool) T f :
  rect m n scanned → rect m n probed → (0 < m)%nat →
  (side < 2)%nat →
  (∀ (run : Z * list (Z * Z)) T,
     can_win_from_pieces k probed run.2 = Ok (threat k probed run.2) →
     body run T
     = if counted run
       then bump T (k - Z.of_nat (length run.2) - 1) (Z.of_nat side)
       else Ok T) →
  (∀ run, run ∈ (pieces_in_a_row scanned).1 →
          Z.of_nat (length run.2) < k) →
  table (Z.to_nat (k - 2)) T f →
  ∃ T',
    for_gen (pieces_in_a_row scanned) body T = Ok T'
    ∧ table (Z.to_nat (k - 2)) T'
        (fun x y =>
           f x y
           + if decide (y = side)
             then count_if
                    (fun run =>
                       counted run
                       && (Z.to_nat (k - Z.of_nat (length run.2) - 1) =? x)%nat)
                    (pieces_in_a_row scanned).1
             else 0).
Proof.
  intros Hs Hp Hm Hside Hbody Hshort Htable.
  destruct (pieces_in_a_row_spec m n scanned Hs Hm)
    as (runs & Hruns & _ & Hiff).
  unfold for_gen. rewrite Hruns in *. simpl in *.
  destruct (loop_table (Z.to_nat (k - 2)) side body counted
              (fun run => k - Z.of_nat (length run.2) - 1) runs T f)
    as (T' & -> & Htable'); try done.
  - intros run T0 Hrun. apply Hbody.
    apply (run_threat m n scanned); [done..|]. by apply Hiff.
  - intros run Hrun _. specialize (Hshort run Hrun).
    apply Hiff in Hrun as (start & d & len & _ & Hps & Hlen & _).
    rewrite Hps, length_segment in *. lia.
  - by exists T'.
Qed.

Lemma can_win_now_loop_spec m n board k who columns :
  rect m n board → (0 < m)%nat →
  Forall (fun c => 1 <= c <= Z.of_nat n) columns →
  ∃ b, can_win_now_loop k board who columns = Ok b
       ∧ (b = true ↔ ∃ c, c ∈ columns ∧ wins k board who c).
Proof.
  intros Hrect Hm Hcols.
  induction Hcols as [|column rest Hcolumn _ IH]; simpl.
  { exists false. split; [done|]. split; [done|].
    intros (c & Hc & _). by apply elem_of_nil in Hc. }
  destruct (copy_and_drop_piece_rect m n board who column Hrect Hcolumn)
    as (new_board & Hcopy & Hrect').
  destruct (end_of_game_total m n new_board k Hrect' Hm) as [state Hstate].
  rewrite Hcopy. simpl. rewrite Hstate. simpl.
  destruct (Z.eqb_spec state who) as [->|Hne].
  - exists true. split; [done|]. split; [|done]. intros _.
    exists column. split; [by left|]. by exists new_board.
  - destruct IH as (b & -> & Hb). exists b. split; [done|].
    rewrite Hb. split.
    + intros (c & Hc & Hw). exists c. split; [by right|done].
    + intros (c & [->|Hc]%elem_of_cons & Hw); [|by exists c].
      destruct Hw as (b' & Hb' & Hwin). congruence.
Qed.

Lemma free_of_in_range (row0 : list Z) :
  Forall (fun c => 1 <= c <= Z.of_nat (length row0)) (free_of row0).
Proof.
  apply Forall_forall. intros c Hc.
  by destruct (free_column_in_range row0 c Hc).
Qed.

(** [can_win_now]: some free column wins at once. *)
Lemma can_win_now_spec m n board k who row0 :
  rect m n board → board !! 0%nat = Some row0 →
  ∃ b, can_win_now k board who = Ok b
       ∧ (b = true ↔ ∃ c, c ∈ free_of row0 ∧ wins k board who c).
Proof.
  intros Hrect Hrow0. unfold can_win_now, get_free_columns.
  rewrite (py_get_0 board row0 Hrow0). cbn [mbind result_bind].
  apply (can_win_now_loop_spec m n); [done| |].
  - apply lookup_lt_Some in Hrow0. destruct Hrect. lia.
  - rewrite <-(rect_lookup m n board 0 row0 Hrect Hrow0).
    apply free_of_in_range.
Qed.

Lemma table_agree K T f g :
  (∀ x y, (x < K)%nat → (y < 2)%nat → f x y = g x y) →
  table K T f → table K T g.
Proof.
  intros Hfg [Hlen Hrows]. split; [done|]. intros i Hi.
  rewrite (Hrows i Hi). by rewrite !Hfg by lia.
Qed.

(** What a counting loop adds at index [x] is the number of threats of
    length [k - 1 - x]. *)
Lemma counted_threats m n scanned probed k who (skip_pairs : bool)
    (counted : Run → bool) (x : nat) :
  rect m n scanned → (0 < m)%nat →
  (∀ run, run ∈ (pieces_in_a_row scanned).1 →
          Z.of_nat (length run.2) < k) →
  (∀ run : Run,
     counted run
     = (run.1 =? who) && threat k probed run.2
       && negb (skip_pairs && (Z.of_nat (length run.2) =? 2))) →
  count_if
    (fun run =>
       counted run && (Z.to_nat (k - Z.of_nat (length run.2) - 1) =? x)%nat)
    (pieces_in_a_row scanned).1
  = threats k who (k - 1 - Z.of_nat x) probed scanned skip_pairs.
Proof.
  intros Hrect Hm Hshort Hcounted. unfold threats.
  apply count_if_ext. intros run Hrun. rewrite Hcounted.
  specialize (Hshort run Hrun).
  destruct (Nat.eqb_spec (Z.to_nat (k - Z.of_nat (length run.2) - 1)) x)
    as [Hx|Hx];
    destruct (Z.eqb_spec (Z.of_nat (length run.2)) (k - 1 - Z.of_nat x))
      as [HL|HL]; try lia.
  rewrite <-HL.
  destruct (run.1 =? who), (threat k probed run.2), skip_pairs,
    (Z.of_nat (length run.2) =? 2); done.
Qed.

Lemma score_opponents_spec m n board row0 rest k player column new_board
    opponents T f :
  rect m n board → board = row0 :: rest → column ∈ free_of row0 →
  copy_and_drop_piece board player column = Ok new_board →
  (∀ o run, o ∈ opponents → o ≠ player →
            run ∈ (pieces_in_a_row (dropped board o column)).1 →
            Z.of_nat (length run.2) < k) →
  table (Z.to_nat (k - 2)) T f →
  ∃ res,
    score_opponents k board player column opponents T = Ok res
    ∧ ((∃ o, o ∈ opponents ∧ o ≠ player
             ∧ can_win_now k new_board o = Ok true) →
       res = (false, []))
    ∧ ((∀ o, o ∈ opponents → o ≠ player →
             can_win_now k new_board o ≠ Ok true) →
       ∃ T',
         res = (true, T')
         ∧ table (Z.to_nat (k - 2)) T'
             (fun x y =>
                f x y
                + if decide (y = 1%nat)
                  then foldr Z.add 0
                         ((fun o =>
                             if o =? player then 0
                             else threats k o (k - 1 - Z.of_nat x)
                                    (dropped board o column)
                                    (dropped board o column) true)
                            <$> opponents)
                  else 0)).
Proof.
  intros Hrect Hboard Hfree Hcopy.
  assert (0 < m)%nat as Hm.
  { destruct Hrect as [<- _]. rewrite Hboard. simpl. lia. }
  destruct (drop_in_free_column m n board row0 rest column Hrect Hboard Hfree)
    as (_ & _ & _ & _ & _ & Hcol & _).
  destruct (copy_and_drop_piece_rect m n board player column Hrect Hcol)
    as (nb & Hnb & Hrect_nb).
  assert (nb = new_board) as -> by congruence. clear Hnb.
  destruct (lookup_lt_is_Some_2 new_board 0) as [top Htop].
  { destruct Hrect_nb. lia. }
  revert T f. induction opponents as [|o os IH]; intros T f Hshort Htable.
  { exists (true, T). split; [done|]. split.
    - intros (o & Ho & _). by apply elem_of_nil in Ho.
    - intros _. exists T. split; [done|].
      apply (table_agree _ _ f); [|done]. intros x y _ _.
      destruct (decide (y = 1%nat)); simpl; lia. }
  simpl. destruct (Z.eqb_spec o player) as [->|Hne].
  { destruct (IH T f) as (res & Hres & Hlose & Hkeep); [|done|].
    { intros o run Ho. apply Hshort. by right. }
    exists res. split; [done|]. split.
    - intros (o & [->|Ho]%elem_of_cons & Hne & Hwin); [done|].
      apply Hlose. by exists o.
    - intros Hnone. destruct Hkeep as (T' & -> & Htable').
      { intros o Ho. apply Hnone. by right. }
      exists T'. split; [done|].
      apply (table_agree _ _ _ _ (fun x y _ _ => eq_refl) Htable'). }
  rewrite Hcopy. cbn [mbind result_bind].
  destruct (can_win_now_spec m n new_board k o top Hrect_nb Htop)
    as (b & Hb & _).
  rewrite Hb. cbn [mbind result_bind]. destruct b.
  { exists (false, []). split; [done|]. split; [done|].
    intros Hnone. exfalso. by apply (Hnone o); [left|..]. }
  destruct (copy_and_drop_piece_rect m n board o column Hrect Hcol)
    as (bo & Hbo & Hrect_bo).
  rewrite Hbo. cbn [mbind result_bind].
  pose proof (copy_and_drop_piece_dropped _ _ _ _ Hbo) as Hdropped.
  assert (∀ run, run ∈ (pieces_in_a_row bo).1 →
                 Z.of_nat (length run.2) < k) as Hshort_bo.
  { intros run Hrun. apply (Hshort o run); [by left|done|by rewrite <-Hdropped]. }
  destruct (counting_loop m n bo bo k 1 (count_opponent_run k bo o)
              (fun run => (run.1 =? o) && threat k bo run.2
                          && negb (Z.of_nat (length run.2) =? 2)) T f)
    as (T1 & HT1 & Htable1); try done; [lia|..].
  { intros run T0. apply count_opponent_run_eq. }
  rewrite HT1. cbn [mbind result_bind].
  destruct (IH T1 _ (fun o' run Ho' => Hshort o' run (list_elem_of_further _ _ _ Ho'))
              Htable1) as (res & Hres & Hlose & Hkeep).
  exists res. split; [done|]. split.
  - intros (o' & [->|Ho']%elem_of_cons & Hne' & Hwin); [congruence|].
    apply Hlose. by exists o'.
  - intros Hnone. destruct Hkeep as (T' & -> & Htable').
    { intros o' Ho'. apply Hnone. by right. }
    exists T'. split; [done|].
    apply (table_agree _ _ _ _) with (2 := Htable'). intros x y _ _.
    simpl. destruct (Z.eqb_spec o player) as [|_]; [done|].
    rewrite <-Hdropped.
    rewrite (counted_threats m n bo bo k o true _ x Hrect_bo Hm Hshort_bo)
      by done.
    destruct (decide (y = 1%nat)); [|lia].
    change (list_fmap Z Z) with (@fmap list _ Z Z). lia.
Qed.

Lemma elem_of_range a b x : x ∈ range a b ↔ a <= x < b.
Proof. unfold range. rewrite elem_of_seqZ. lia. Qed.

(** [column_score] on a free column of a rectangular board where no drop
    in [column] makes a run of length [k]. *)
Lemma column_score_spec m n board row0 rest k num_players player column :
  rect m n board → board = row0 :: rest → column ∈ free_of row0 →
  short_runs k board player column →
  (∀ o, 1 <= o <= num_players → o ≠ player → short_runs k board o column) →
  ∃ res,
    column_score k num_players board player column = Ok res
    ∧ (loses k num_players board player column → res = (false, []))
    ∧ (¬ loses k num_players board player column →
       ∃ counts,
         res = (true, counts)
         ∧ length counts = Z.to_nat (k - 2)
         ∧ ∀ L, 2 <= L <= k - 1 →
             counts !! Z.to_nat (k - L - 1)
             = Some [player_count k board player column L;
                     opponent_count k num_players board player column L]).
Proof.
  intros Hrect Hboard Hfree Hshort Hshort_o.
  assert (0 < m)%nat as Hm.
  { destruct Hrect as [<- _]. rewrite Hboard. simpl. lia. }
  destruct (drop_in_free_column m n board row0 rest column Hrect Hboard Hfree)
    as (_ & _ & _ & _ & _ & Hcol & _).
  destruct (copy_and_drop_piece_rect m n board player column Hrect Hcol)
    as (nb & Hnb & Hrect_nb).
  pose proof (copy_and_drop_piece_dropped _ _ _ _ Hnb) as Hdropped.
  unfold loses, short_runs in *. rewrite <-Hdropped in *.
  destruct (lookup_lt_is_Some_2 nb 0) as [top Htop].
  { destruct Hrect_nb. lia. }
  unfold column_score. rewrite Hnb. cbn [mbind result_bind].
  destruct (counting_loop m n nb board k 0 (count_player_run k board player)
              (fun run => (run.1 =? player) && threat k board run.2)
              (replicate (Z.to_nat (k - 2)) [0; 0]) (fun _ _ => 0))
    as (T1 & HT1 & Htable1); try done; [lia|..].
  { intros run T0. apply count_player_run_eq. }
  { apply table_init. }
  rewrite HT1. cbn [mbind result_bind].
  assert (∀ o run, o ∈ range 1 (num_players + 1) → o ≠ player →
                   run ∈ (pieces_in_a_row (dropped board o column)).1 →
                   Z.of_nat (length run.2) < k) as Hshort_os.
  { intros o run Ho%elem_of_range Hne. apply Hshort_o; [lia|done]. }
  destruct (score_opponents_spec m n board row0 rest k player column nb
              (range 1 (num_players + 1)) T1 _ Hrect Hboard Hfree Hnb
              Hshort_os Htable1)
    as (res & Hres & Hlose & Hkeep).
  exists res. split; [done|].
  assert (∀ o, can_win_now k nb o = Ok true ↔ immediate_win k nb o) as Hnow.
  { intros o.
    destruct (can_win_now_spec m n nb k o top Hrect_nb Htop) as (b & Hb & Hiff).
    rewrite Hb. split.
    - intros [= ->]. destruct Hiff as [Hiff _].
      destruct (Hiff eq_refl) as (c & Hc & Hw). by exists top, c.
    - intros (top' & c & Htop' & Hc & Hw). f_equal. apply Hiff.
      exists c. split; [|done]. congruence. }
  split.
  - intros (o & Ho & Hne & Hwin). apply Hlose. exists o.
    split; [apply elem_of_range; lia|]. split; [done|]. by apply Hnow.
  - intros Hnone. destruct Hkeep as (T' & -> & [Hlen Hrows]).
    { intros o Ho%elem_of_range Hne Hwin. apply Hnone. exists o.
      split; [lia|]. split; [done|]. by apply Hnow. }
    exists T'. split; [done|]. split; [done|]. intros L HL.
    rewrite Hrows by lia. do 2 f_equal.
    + rewrite (counted_threats m n nb board k player false _ _ Hrect_nb Hm
                 Hshort).
      * unfold player_count. rewrite <-Hdropped.
        replace (k - 1 - Z.of_nat (Z.to_nat (k - L - 1))) with L by lia.
        destruct (decide (0 = 1)%nat); [done|].
        destruct (decide (0 = 0)%nat); [lia|done].
      * intros run. by rewrite andb_true_r.
    + unfold opponent_count.
      replace (k - 1 - Z.of_nat (Z.to_nat (k - L - 1))) with L by lia.
      reflexivity.
Qed.

(** ** The index into the counts table *)

Lemma bump_wrap (counts : list (list Z)) (i j : Z) :
  - Z.of_nat (length counts) <= i < 0 →
  bump counts i j = bump counts (i + Z.of_nat (length counts)) j.
Proof.
  intros Hi. unfold bump, py_get, py_set.
  by rewrite (norm_index_wrap _ i Hi).
Qed.

Lemma bump_low (counts : list (list Z)) (i j : Z) :
  i < - Z.of_nat (length counts) → bump counts i j = Raise IndexError.
Proof.
  intros Hi. unfold bump, py_get. by rewrite (norm_index_low _ i Hi).
Qed.

Lemma dropped_rect m n board row0 rest who column :
  rect m n board → board = row0 :: rest → column ∈ free_of row0 →
  copy_and_drop_piece board who column = Ok (dropped board who column)
  ∧ rect m n (dropped board who column).
Proof.
  intros Hrect Hboard Hfree.
  destruct (drop_in_free_column m n board row0 rest column Hrect Hboard Hfree)
    as (_ & _ & _ & _ & _ & Hcol & _).
  destruct (copy_and_drop_piece_rect m n board who column Hrect Hcol)
    as (nb & Hnb & Hrect_nb).
  by rewrite <-(copy_and_drop_piece_dropped _ _ _ _ Hnb).
Qed.

Lemma row0_length m n (board : Board) row0 rest :
  rect m n board → board = row0 :: rest → length row0 = n ∧ (0 < m)%nat.
Proof.
  intros [Hlen Hrows] ->. split.
  - by apply Forall_cons in Hrows as [? _].
  - simpl in Hlen. lia.
Qed.

(** When [win_or_block_column] finds no column, no drop in a free column
    makes a run of length [k]. *)
Lemma win_or_block_none_short_runs m n board row0 rest k num_players player :
  rect m n board → board = row0 :: rest →
  valid_cells num_players board → 1 <= player <= num_players →
  win_or_block_column k num_players board (free_of row0) player = Ok None →
  ∀ who column,
    1 <= who <= num_players → column ∈ free_of row0 →
    short_runs k board who column.
Proof.
  intros Hrect Hboard Hvalid Hplayer Hnone who column Hwho Hfree.
  destruct (row0_length m n board row0 rest Hrect Hboard) as [Hn Hm].
  assert (∀ p c, 1 <= p <= num_players → c ∈ free_of row0 →
                 ¬ wins k board p c) as Hnowin.
  { intros p c Hp Hc.
    refine (win_or_block_none m n board k num_players (free_of row0) player
              Hrect Hm _ Hplayer Hnone p Hp c Hc).
    rewrite <-Hn. apply free_of_in_range. }
  destruct (dropped_rect m n board row0 rest who column Hrect Hboard Hfree)
    as [Hcopy _].
  exact (no_win_no_long_run m n board k num_players row0 rest Hrect Hboard
           Hvalid Hnowin who column _ Hwho Hfree Hcopy).
Qed.

Lemma run_length_ge_2 m n board run :
  rect m n board → (0 < m)%nat →
  run ∈ (pieces_in_a_row board).1 → (2 <= length run.2)%nat.
Proof.
  intros Hrect Hm Hrun.
  destruct (pieces_in_a_row_spec m n board Hrect Hm) as (runs & Hruns & _ & Hiff).
  rewrite Hruns in Hrun. apply Hiff in Hrun.
  destruct Hrun as (start & d & len & _ & -> & Hlen & _).
  by rewrite length_segment.
Qed.

(** C10 (amended).  When [win_or_block_column] finds no column on a
    rectangular board of valid cells, every run that [column_score] scans
    after a drop in a free column has a length between 2 and [k - 1], its
    index [k - len - 1] lies within the [k - 2] rows of the counts table,
    and [column_score] returns.  On a table of [k - 2] rows a run of length
    [len >= k] has a negative index: up to length [2 * k - 3] Python wraps
    it to the row of length [len - k + 2] (the length-2 row only when
    [len = k]), and beyond that the loop raises [IndexError]. *)
Theorem column_score_index_in_range m n board row0 rest k num_players
    player column :
  rect m n board → board = row0 :: rest →
  valid_cells num_players board → 1 <= player <= num_players →
  column ∈ free_of row0 →
  win_or_block_column k num_players board (free_of row0) player = Ok None →
  (∀ who run,
     1 <= who <= num_players →
     run ∈ (pieces_in_a_row (dropped board who column)).1 →
     2 <= Z.of_nat (length run.2) <= k - 1
     ∧ 0 <= k - Z.of_nat (length run.2) - 1 < k - 2)
  ∧ (∃ score, column_score k num_players board player column = Ok score)
  ∧ (∀ (counts : list (list Z)) (len j : Z),
       Z.of_nat (length counts) = k - 2 → k <= len →
       k - len - 1 < 0
       ∧ (len <= 2 * k - 3 →
          bump counts (k - len - 1) j
          = bump counts (k - (len - k + 2) - 1) j)
       ∧ (2 * k - 3 < len → bump counts (k - len - 1) j = Raise IndexError)).
Proof.
  intros Hrect Hboard Hvalid Hplayer Hfree Hnone.
  destruct (row0_length m n board row0 rest Hrect Hboard) as [Hn Hm].
  pose proof (win_or_block_none_short_runs m n board row0 rest k num_players
                player Hrect Hboard Hvalid Hplayer Hnone) as Hshort.
  split_and!.
  - intros who run Hwho Hrun.
    destruct (dropped_rect m n board row0 rest who column Hrect Hboard Hfree)
      as [_ Hrect'].
    pose proof (run_length_ge_2 m n _ run Hrect' Hm Hrun).
    pose proof (Hshort who column Hwho Hfree run Hrun). lia.
  - destruct (column_score_spec m n board row0 rest k num_players player
                column Hrect Hboard Hfree) as (res & Hres & _).
    + by apply Hshort.
    + intros o Ho _. by apply Hshort.
    + by exists res.
  - intros counts len j Hcounts Hlen. split; [lia|]. split; intros Hlen'.
    + rewrite bump_wrap by lia. f_equal. lia.
    + apply bump_low. lia.
Qed.

Lemma column_score_index_in_range_witness :
  (∀ who run,
     1 <= who <= 2 →
     run ∈ (pieces_in_a_row
              (dropped [[0; 0; 0]; [0; 2; 0]; [1; 2; 1]] who 2)).1 →
     2 <= Z.of_nat (length run.2) <= 4 - 1
     ∧ 0 <= 4 - Z.of_nat (length run.2) - 1 < 4 - 2)
  ∧ (∃ score,
       column_score 4 2 [[0; 0; 0]; [0; 2; 0]; [1; 2; 1]] 1 2 = Ok score)
  ∧ (∀ (counts : list (list Z)) (len j : Z),
       Z.of_nat (length counts) = 4 - 2 → 4 <= len →
       4 - len - 1 < 0
       ∧ (len <= 2 * 4 - 3 →
          bump counts (4 - len - 1) j = bump counts (4 - (len - 4 + 2) - 1) j)
       ∧ (2 * 4 - 3 < len → bump counts (4 - len - 1) j = Raise IndexError)).
Proof.
  apply (column_score_index_in_range 3 3 [[0; 0; 0]; [0; 2; 0]; [1; 2; 1]]
           [0; 0; 0] [[0; 2; 0]; [1; 2; 1]] 4 2 1 2).
  - split; [reflexivity|]. repeat constructor.
  - reflexivity.
  - repeat (constructor; try lia).
  - lia.
  - apply elem_of_free_of. split; [lia|reflexivity].
  - vm_compute. reflexivity.
Defined.

(** Without the precondition: player 1 drops in column 4 and joins two
    runs into one of length 6; with [k = 4] its index is [-3], outside a
    table of two rows, and [column_score] raises [IndexError] instead of
    counting the run in the length-2 row. *)
Lemma column_score_long_run_raises :
  (1, [(0, 0); (0, 1); (0, 2); (0, 3); (0, 4); (0, 5)])
    ∈ (pieces_in_a_row (dropped [[1; 1; 1; 0; 1; 1]] 1 4)).1
  ∧ 4 ∈ free_of [1; 1; 1; 0; 1; 1]
  ∧ 4 - 6 - 1 = -3
  ∧ column_score 4 2 [[1; 1; 1; 0; 1; 1]] 1 4 = Raise IndexError
  ∧ column_score 5 2 [[1; 1; 1; 0; 1; 1]] 1 4
    = Ok (true, [[0; 0]; [1; 0]; [0; 0]])
  ∧ column_score 4 2 [[1; 1; 1; 0]] 1 4 = Ok (true, [[0; 0]; [1; 0]]).
Proof.
  split_and!; [|apply elem_of_free_of; split; [lia|reflexivity]
               |reflexivity|by vm_compute..].
  vm_compute. left.
Qed.

(** ** The result of [column_score] *)

Lemma can_win_now_immediate_win m n board k who :
  rect m n board → (0 < m)%nat →
  can_win_now k board who = Ok true ↔ immediate_win k board who.
Proof.
  intros Hrect Hm.
  destruct (lookup_lt_is_Some_2 board 0) as [top Htop].
  { destruct Hrect. lia. }
  destruct (can_win_now_spec m n board k who top Hrect Htop) as (b & Hb & Hiff).
  rewrite Hb. split.
  - intros [= ->]. destruct Hiff as [Hiff _].
    destruct (Hiff eq_refl) as (c & Hc & Hw). by exists top, c.
  - intros (top' & c & Htop' & Hc & Hw). f_equal. apply Hiff.
    exists c. split; [|done]. congruence.
Qed.

Lemma loses_decidable m n board row0 rest k num_players player column :
  rect m n board → board = row0 :: rest → column ∈ free_of row0 →
  loses k num_players board player column
  ∨ ¬ loses k num_players board player column.
Proof.
  intros Hrect Hboard Hfree.
  destruct (row0_length m n board row0 rest Hrect Hboard) as [_ Hm].
  destruct (dropped_rect m n board row0 rest player column Hrect Hboard Hfree)
    as [_ Hrect'].
  set (nb := dropped board player column) in *.
  destruct (decide (Exists (fun o => o ≠ player ∧ can_win_now k nb o = Ok true)
                      (range 1 (num_players + 1)))) as [Hex|Hnone].
  - left. apply Exists_exists in Hex as (o & Ho%elem_of_range & Hne & Hwin).
    exists o. split; [lia|]. split; [done|].
    by apply (can_win_now_immediate_win m n).
  - right. intros (o & Ho & Hne & Hwin). apply Hnone, Exists_exists.
    exists o. split; [apply elem_of_range; lia|]. split; [done|].
    by apply (can_win_now_immediate_win m n).
Qed.

(** C3 (amended).  On a rectangular board where no drop in the free
    column [column], by [player] or by an opponent, makes a run of length
    [k] or more, [column_score] returns [(False, [])] exactly when some
    opponent has a winning drop on the board after [player]'s drop in
    [column]; otherwise it returns [(True, counts)] where [counts] has
    [k - 2] rows and the row of index [k - L - 1] is
    [[player_count; opponent_count]]: the runs of length [L] of [player]
    on the board after the drop that [can_win_from_pieces] accepts on the
    board before the drop, and for every opponent dropped in the same
    column of the original board, that opponent's runs of length [L]
    accepted on that board, runs of length 2 left out. *)
Theorem column_score_result m n board row0 rest k num_players player column :
  rect m n board → board = row0 :: rest → column ∈ free_of row0 →
  short_runs k board player column →
  (∀ o, 1 <= o <= num_players → o ≠ player → short_runs k board o column) →
  ∃ score,
    column_score k num_players board player column = Ok score
    ∧ (score = (false, []) ↔ loses k num_players board player column)
    ∧ (¬ loses k num_players board player column →
       ∃ counts,
         score = (true, counts)
         ∧ length counts = Z.to_nat (k - 2)
         ∧ ∀ L, 2 <= L <= k - 1 →
             counts !! Z.to_nat (k - L - 1)
             = Some [player_count k board player column L;
                     opponent_count k num_players board player column L]).
Proof.
  intros Hrect Hboard Hfree Hshort Hshort_o.
  destruct (column_score_spec m n board row0 rest k num_players player column
              Hrect Hboard Hfree Hshort Hshort_o)
    as (score & Hscore & Hlose & Hkeep).
  exists score. split; [done|]. split; [|done]. split; [|done].
  intros ->.
  destruct (loses_decidable m n board row0 rest k num_players player column
              Hrect Hboard Hfree) as [Hl|Hn]; [done|].
  by destruct (Hkeep Hn) as (counts & [=] & _).
Qed.

Lemma column_score_result_witness :
  ∃ score,
    column_score 4 2 [[0; 0; 0]; [0; 2; 0]; [1; 2; 1]] 1 2 = Ok score
    ∧ (score = (false, [])
       ↔ loses 4 2 [[0; 0; 0]; [0; 2; 0]; [1; 2; 1]] 1 2)
    ∧ (¬ loses 4 2 [[0; 0; 0]; [0; 2; 0]; [1; 2; 1]] 1 2 →
       ∃ counts,
         score = (true, counts)
         ∧ length counts = Z.to_nat (4 - 2)
         ∧ ∀ L, 2 <= L <= 4 - 1 →
             counts !! Z.to_nat (4 - L - 1)
             = Some [player_count 4 [[0; 0; 0]; [0; 2; 0]; [1; 2; 1]] 1 2 L;
                     opponent_count 4 2 [[0; 0; 0]; [0; 2; 0]; [1; 2; 1]]
                       1 2 L]).
Proof.
  apply (column_score_result 3 3 [[0; 0; 0]; [0; 2; 0]; [1; 2; 1]]
           [0; 0; 0] [[0; 2; 0]; [1; 2; 1]] 4 2 1 2).
  - split; [reflexivity|]. repeat constructor.
  - reflexivity.
  - apply elem_of_free_of. split; [lia|reflexivity].
  - intros run Hrun. vm_compute in Hrun.
    repeat (apply elem_of_cons in Hrun as [->|Hrun]; [simpl; lia|]).
    by apply elem_of_nil in Hrun.
  - intros o Ho Hne. assert (o = 2) as -> by lia.
    intros run Hrun. vm_compute in Hrun.
    repeat (apply elem_of_cons in Hrun as [->|Hrun]; [simpl; lia|]).
    by apply elem_of_nil in Hrun.
Defined.

(** Without the precondition: player 1 completes a run of length 4 with
    [k = 4]; no opponent can win next, and the run is counted at index
    [-1], the row of length 2, where the player has no run of length 2. *)
Lemma column_score_counts_long_run_as_pair :
  4 ∈ free_of [1; 1; 1; 0]
  ∧ ¬ loses 4 2 [[1; 1; 1; 0]] 1 4
  ∧ column_score 4 2 [[1; 1; 1; 0]] 1 4 = Ok (true, [[0; 0]; [1; 0]])
  ∧ Z.to_nat (4 - 2 - 1) = 1%nat
  ∧ player_count 4 [[1; 1; 1; 0]] 1 4 2 = 0
  ∧ opponent_count 4 2 [[1; 1; 1; 0]] 1 4 2 = 0.
Proof.
  split_and!; [apply elem_of_free_of; split; [lia|reflexivity]
              | |by vm_compute..].
  intros (o & _ & _ & top & c & Htop & Hc & _).
  vm_compute in Htop. injection Htop as <-.
  vm_compute in Hc. by apply elem_of_nil in Hc.
Qed.

(** C9.  In [column_score] the runs of [player] are those of the board
    after the drop, but [can_win_from_pieces] probes them on the board
    before the drop, whereas the runs of each opponent are found and
    probed on that opponent's own board after the drop.  So a run of the
    player can be counted although the dropped piece takes a cell it
    needs: on [[1; 1; 0; 0]] with [k = 4], the pair of player 1 is
    extendable before the drop in column 4, not after it, and is counted. *)
Theorem column_score_probes_board_before_drop m n board row0 rest k
    num_players player column :
  rect m n board → board = row0 :: rest → column ∈ free_of row0 →
  short_runs k board player column →
  (∀ o, 1 <= o <= num_players → o ≠ player → short_runs k board o column) →
  ¬ loses k num_players board player column →
  (∃ counts,
     column_score k num_players board player column = Ok (true, counts)
     ∧ ∀ L, 2 <= L <= k - 1 →
         counts !! Z.to_nat (k - L - 1)
         = Some
             [threats k player L board (dropped board player column) false;
              foldr Z.add 0
                ((fun o =>
                    if o =? player then 0
                    else threats k o L (dropped board o column)
                           (dropped board o column) true)
                   <$> range 1 (num_players + 1))])
  ∧ (let pair := [(0, 0); (0, 1)] in
     dropped [[1; 1; 0; 0]] 1 4 = [[1; 1; 0; 1]]
     ∧ (1, pair) ∈ (pieces_in_a_row (dropped [[1; 1; 0; 0]] 1 4)).1
     ∧ ((0, 3) ∉ pair)
     ∧ can_win_from_pieces 4 [[1; 1; 0; 0]] pair = Ok true
     ∧ can_win_from_pieces 4 (dropped [[1; 1; 0; 0]] 1 4) pair = Ok false
     ∧ column_score 4 2 [[1; 1; 0; 0]] 1 4 = Ok (true, [[0; 0]; [1; 0]])).
Proof.
  intros Hrect Hboard Hfree Hshort Hshort_o Hkeep. split.
  - destruct (column_score_spec m n board row0 rest k num_players player
                column Hrect Hboard Hfree Hshort Hshort_o)
      as (score & Hscore & _ & Hcounts).
    destruct (Hcounts Hkeep) as (counts & -> & _ & Hrows).
    by exists counts.
  - cbv zeta. split_and!; [by vm_compute| |
                           |by vm_compute|by vm_compute|by vm_compute].
    + vm_compute. left.
    + intros Hin. apply elem_of_cons in Hin as [[=]|Hin].
      apply elem_of_cons in Hin as [[=]|Hin]. by apply elem_of_nil in Hin.
Qed.

Lemma column_score_probes_board_before_drop_witness :
  ∃ counts,
    column_score 4 2 [[1; 1; 0; 0]] 1 4 = Ok (true, counts)
    ∧ ∀ L, 2 <= L <= 4 - 1 →
        counts !! Z.to_nat (4 - L - 1)
        = Some
            [threats 4 1 L [[1; 1; 0; 0]] (dropped [[1; 1; 0; 0]] 1 4) false;
             foldr Z.add 0
               ((fun o =>
                   if o =? 1 then 0
                   else threats 4 o L (dropped [[1; 1; 0; 0]] o 4)
                          (dropped [[1; 1; 0; 0]] o 4) true)
                  <$> range 1 (2 + 1))].
Proof.
  refine (proj1 (column_score_probes_board_before_drop 1 4 [[1; 1; 0; 0]]
                   [1; 1; 0; 0] [] 4 2 1 4 _ _ _ _ _ _)).
  - split; [reflexivity|]. repeat constructor.
  - reflexivity.
  - apply elem_of_free_of. split; [lia|reflexivity].
  - intros run Hrun. vm_compute in Hrun.
    repeat (apply elem_of_cons in Hrun as [->|Hrun]; [simpl; lia|]).
    by apply elem_of_nil in Hrun.
  - intros o Ho Hne. assert (o = 2) as -> by lia.
    intros run Hrun. vm_compute in Hrun.
    repeat (apply elem_of_cons in Hrun as [->|Hrun]; [simpl; lia|]).
    by apply elem_of_nil in Hrun.
  - intros (o & Ho & Hne & top & c & Htop & Hc & new_board & Hcopy & Hend).
    assert (o = 2) as -> by lia.
    vm_compute in Htop. injection Htop as <-.
    vm_compute in Hc.
    apply elem_of_cons in Hc as [->|Hc]; [by vm_compute in Hcopy, Hend; simplify_eq|].
    by apply elem_of_nil in Hc.
Defined.

(** ** The order of the keys *)

Section list_order.
Context {A : Type} (eqA gtA : A → A → bool).
Hypothesis eqA_spec : ∀ x y, eqA x y = true ↔ x = y.
Hypothesis gtA_irrefl : ∀ x, gtA x x = false.
Hypothesis gtA_trans :
  ∀ x y z, gtA x y = true → gtA y z = true → gtA x z = true.
Hypothesis gtA_total : ∀ x y, x ≠ y → gtA x y = true ∨ gtA y x = true.

Lemma eqA_refl x : eqA x x = true.
Proof. by apply eqA_spec. Qed.

Lemma py_list_eq_spec a b : py_list_eq eqA a b = true ↔ a = b.
Proof.
  revert b. induction a as [|x a IH]; intros [|y b]; simpl; try done.
  rewrite andb_true_iff, eqA_spec, IH. split; [by intros [-> ->]|].
  by intros [= -> ->].
Qed.

Lemma py_list_gt_irrefl a : py_list_gt eqA gtA a a = false.
Proof. induction a as [|x a IH]; simpl; [done|]. by rewrite eqA_refl. Qed.

Lemma py_list_gt_trans a b c :
  py_list_gt eqA gtA a b = true → py_list_gt eqA gtA b c = true →
  py_list_gt eqA gtA a c = true.
Proof.
  revert b c. induction a as [|x a IH]; intros [|y b] [|z c]; simpl;
    try done.
  destruct (eqA x y) eqn:Exy.
  - apply eqA_spec in Exy as ->. destruct (eqA y z); [apply IH|done].
  - destruct (eqA y z) eqn:Eyz.
    + apply eqA_spec in Eyz as ->. by rewrite Exy.
    + intros Hxy Hyz. pose proof (gtA_trans x y z Hxy Hyz) as Hxz.
      destruct (eqA x z) eqn:Exz; [|done].
      apply eqA_spec in Exz as ->. by rewrite gtA_irrefl in Hxz.
Qed.

Lemma py_list_gt_total a b :
  a ≠ b → py_list_gt eqA gtA a b = true ∨ py_list_gt eqA gtA b a = true.
Proof.
  revert b. induction a as [|x a IH]; intros [|y b] Hne; simpl;
    [done|by right|by left|].
  destruct (eqA x y) eqn:Exy.
  - apply eqA_spec in Exy as ->. rewrite eqA_refl.
    apply IH. congruence.
  - destruct (eqA y x) eqn:Eyx.
    { apply eqA_spec in Eyx as ->. by rewrite eqA_refl in Exy. }
    apply gtA_total. intros ->. by rewrite eqA_refl in Exy.
Qed.
End list_order.

Lemma ints_eq_spec a b : ints_eq a b = true ↔ a = b.
Proof. apply py_list_eq_spec. intros x y. apply Z.eqb_eq. Qed.

Lemma ints_gt_irrefl a : ints_gt a a = false.
Proof. apply py_list_gt_irrefl. intros x y. apply Z.eqb_eq. Qed.

Lemma ints_gt_trans a b c :
  ints_gt a b = true → ints_gt b c = true → ints_gt a c = true.
Proof.
  apply py_list_gt_trans.
  - intros x y. apply Z.eqb_eq.
  - intros x. apply Z.ltb_irrefl.
  - intros x y z. rewrite !Z.ltb_lt. lia.
Qed.

Lemma ints_gt_total a b :
  a ≠ b → ints_gt a b = true ∨ ints_gt b a = true.
Proof.
  apply py_list_gt_total.
  - intros x y. apply Z.eqb_eq.
  - intros x y. rewrite !Z.ltb_lt. lia.
Qed.

Lemma counts_eq_spec a b : counts_eq a b = true ↔ a = b.
Proof. apply py_list_eq_spec, ints_eq_spec. Qed.

Lemma counts_gt_irrefl a : counts_gt a a = false.
Proof. apply py_list_gt_irrefl, ints_eq_spec. Qed.

Lemma counts_gt_trans a b c :
  counts_gt a b = true → counts_gt b c = true → counts_gt a c = true.
Proof.
  apply py_list_gt_trans;
    [apply ints_eq_spec|apply ints_gt_irrefl|apply ints_gt_trans].
Qed.

Lemma counts_gt_total a b :
  a ≠ b → counts_gt a b = true ∨ counts_gt b a = true.
Proof. apply py_list_gt_total; [apply ints_eq_spec|apply ints_gt_total]. Qed.

Lemma score_eq_spec a b : score_eq a b = true ↔ a = b.
Proof.
  destruct a as [a1 a2], b as [b1 b2]. unfold score_eq. simpl.
  rewrite andb_true_iff, counts_eq_spec, eqb_true_iff.
  split; [by intros [-> ->]|by intros [= -> ->]].
Qed.

Lemma score_gt_irrefl a : score_gt a a = false.
Proof.
  unfold score_gt. rewrite eqb_reflx. apply counts_gt_irrefl.
Qed.

Lemma score_gt_trans a b c :
  score_gt a b = true → score_gt b c = true → score_gt a c = true.
Proof.
  destruct a as [[] a2], b as [[] b2], c as [[] c2]; unfold score_gt; simpl;
    try done; apply counts_gt_trans.
Qed.

Lemma score_gt_total a b :
  a ≠ b → score_gt a b = true ∨ score_gt b a = true.
Proof.
  destruct a as [[] a2], b as [[] b2]; unfold score_gt; simpl; intros Hne;
    [|by left|by right|]; apply counts_gt_total; congruence.
Qed.

Lemma Qgt_bool_spec (a b : Q) : negb (Qle_bool a b) = true ↔ (b < a)%Q.
Proof.
  rewrite negb_true_iff, <-not_true_iff_false, Qle_bool_iff. split.
  - apply Qnot_le_lt.
  - apply Qlt_not_le.
Qed.

Lemma key_gt_cases (a b : Key) :
  key_gt a b = true
  ↔ (a.1 = b.1 ∧ (b.2 < a.2)%Q) ∨ (a.1 ≠ b.1 ∧ score_gt a.1 b.1 = true).
Proof.
  unfold key_gt. destruct (score_eq a.1 b.1) eqn:E.
  - apply score_eq_spec in E. rewrite Qgt_bool_spec. split.
    + intros H. by left.
    + by intros [[_ H]|[H _]].
  - assert (a.1 ≠ b.1) as Hne.
    { intros H%score_eq_spec. congruence. }
    split.
    + intros H. by right.
    + by intros [[H _]|[_ H]].
Qed.

Lemma key_gt_trans (a b c : Key) :
  key_gt a b = true → key_gt b c = true → key_gt a c = true.
Proof.
  rewrite !key_gt_cases.
  intros [[Hab Hlt]|[Hab Hgt]] [[Hbc Hlt']|[Hbc Hgt']].
  - left. split; [congruence|]. by apply (Qlt_trans _ b.2).
  - right. rewrite Hab. done.
  - right. rewrite <-Hbc. done.
  - right. pose proof (score_gt_trans _ _ _ Hgt Hgt') as Hac.
    split; [|done]. intros Heq. rewrite Heq in Hac.
    by rewrite score_gt_irrefl in Hac.
Qed.

(** Keys that are not below one another rank alike. *)
Lemma key_gt_between (a b c : Key) :
  key_gt a b = true → key_gt a c = true ∨ key_gt c b = true.
Proof.
  rewrite !key_gt_cases. intros [[Hab Hlt]|[Hab Hgt]].
  - destruct (decide (a.1 = c.1)) as [Hac|Hac].
    + destruct (Qlt_le_dec c.2 a.2) as [Hc|Hc].
      * left. by left.
      * right. left. split; [congruence|]. by apply (Qlt_le_trans _ a.2).
    + destruct (score_gt_total _ _ Hac) as [Hgt|Hgt].
      * left. by right.
      * right. right. rewrite <-Hab. split; [congruence|done].
  - destruct (decide (a.1 = c.1)) as [Hac|Hac].
    { right. right. by rewrite <-Hac. }
    destruct (decide (c.1 = b.1)) as [Hcb|Hcb].
    { left. right. by rewrite Hcb. }
    destruct (score_gt_total _ _ Hac) as [Hgt'|Hgt'].
    + left. by right.
    + right. right. split; [done|]. by apply (score_gt_trans _ a.1).
Qed.

(** [max_loop] returns the first item whose key none exceeds. *)
Lemma max_loop_spec key (keyed : list (Z * Key)) item0 val0 :
  Forall (fun kv => key kv.1 = Ok kv.2) keyed →
  ∃ before item val after,
    (item0, val0) :: keyed = before ++ (item, val) :: after
    ∧ max_loop key keyed.*1 item0 val0 = Ok item
    ∧ Forall (fun kv => key_gt val kv.2 = true) before
    ∧ Forall (fun kv => key_gt kv.2 val = false) after.
Proof.
  intros Hkeyed. revert item0 val0.
  induction Hkeyed as [|[item1 val1] keyed Hkey _ IH]; intros item0 val0.
  { exists [], item0, val0, []. by split_and!. }
  simpl in Hkey. rewrite fmap_cons. cbn [max_loop fst].
  rewrite Hkey. cbn [mbind result_bind].
  destruct (key_gt val1 val0) eqn:Hgt.
  - destruct (IH item1 val1)
      as (before & item & val & after & Heq & -> & Hb & Ha).
    exists ((item0, val0) :: before), item, val, after.
    split_and!; [by rewrite Heq|done| |done].
    constructor; [|done]. simpl.
    destruct before as [|kv before].
    + by injection Heq as <- <- <-.
    + injection Heq as <- _.
      apply Forall_cons in Hb as [Hb _]. by apply (key_gt_trans _ val1).
  - destruct (IH item0 val0)
      as (before & item & val & after & Heq & -> & Hb & Ha).
    destruct before as [|kv before].
    + injection Heq as <- <- <-.
      exists [], item0, val0, ((item1, val1) :: keyed).
      split_and!; [done..|by constructor].
    + injection Heq as <- Heq.
      apply Forall_cons in Hb as [Hb0 Hb]. simpl in Hb0.
      exists ((item0, val0) :: (item1, val1) :: before), item, val, after.
      split_and!; [by rewrite Heq|done| |done].
      constructor; [done|]. constructor; [|done]. simpl.
      destruct (key_gt_between _ _ val1 Hb0) as [H|H]; [done|congruence].
Qed.

Lemma py_max_spec key (items : list Z) :
  items ≠ [] →
  (∀ item, item ∈ items → ∃ val, key item = Ok val) →
  ∃ before item val after,
    items = before ++ item :: after
    ∧ py_max key items = Ok item
    ∧ key item = Ok val
    ∧ (∀ item', item' ∈ before →
         ∃ val', key item' = Ok val' ∧ key_gt val val' = true)
    ∧ (∀ item', item' ∈ after →
         ∃ val', key item' = Ok val' ∧ key_gt val' val = false).
Proof.
  intros Hne Hkeys.
  assert (∃ keyed : list (Z * Key),
             keyed.*1 = items ∧ Forall (fun kv => key kv.1 = Ok kv.2) keyed)
    as (keyed & <- & Hkeyed).
  { clear Hne. induction items as [|item items IH]; [by exists []|].
    destruct (Hkeys item) as [val Hval]; [by left|].
    destruct IH as (keyed & <- & Hkeyed).
    { intros item' Hin. apply Hkeys. by right. }
    exists ((item, val) :: keyed). split; [done|]. by constructor. }
  destruct keyed as [|[item0 val0] keyed]; [done|].
  apply Forall_cons in Hkeyed as [Hkey0 Hkeyed]. simpl in Hkey0.
  rewrite fmap_cons in *. cbn [py_max fst].
  rewrite Hkey0. cbn [mbind result_bind].
  destruct (max_loop_spec key keyed item0 val0 Hkeyed)
    as (before & item & val & after & Heq & -> & Hb & Ha).
  assert (Forall (fun kv => key kv.1 = Ok kv.2) ((item0, val0) :: keyed))
    as Hall by by constructor.
  rewrite Heq in Hall.
  apply Forall_app in Hall as [Hall_b Hall_a].
  apply Forall_cons in Hall_a as [Hitem Hall_a].
  exists before.*1, item, val, after.*1.
  split_and!; [|done|done| |].
  - change (item0 :: keyed.*1) with (((item0, val0) :: keyed).*1).
    by rewrite Heq, fmap_app, fmap_cons.
  - intros item' ([item'' val'] & -> & Hin)%list_elem_of_fmap.
    exists val'. split.
    + by apply (proj1 (Forall_forall _ _) Hall_b _ Hin).
    + by apply (proj1 (Forall_forall _ _) Hb _ Hin).
  - intros item' ([item'' val'] & -> & Hin)%list_elem_of_fmap.
    exists val'. split.
    + by apply (proj1 (Forall_forall _ _) Hall_a _ Hin).
    + by apply (proj1 (Forall_forall _ _) Ha _ Hin).
Qed.

(** Python's order on the scores and keys of [column_score] is the order
    of the specification. *)
Lemma lex_gt_irrefl a : lex_gt a a = false.
Proof. induction a as [|x a IH]; simpl; [done|]. by rewrite Z.eqb_refl. Qed.

Lemma counts_gt_flat (a b : list (list Z)) :
  length a = length b →
  Forall (fun row => length row = 2%nat) a →
  Forall (fun row => length row = 2%nat) b →
  counts_gt a b = lex_gt (mjoin a) (mjoin b).
Proof.
  unfold counts_gt. revert b.
  induction a as [|x a IH]; intros [|y b] Hlen Ha Hb; try done.
  apply Forall_cons in Ha as [Hx Ha]. apply Forall_cons in Hb as [Hy Hb].
  destruct x as [|x1 [|x2 [|]]]; try done.
  destruct y as [|y1 [|y2 [|]]]; try done.
  simpl in Hlen. cbn [py_list_gt mjoin list_join app lex_gt].
  rewrite (IH b) by (done || lia).
  unfold ints_eq, ints_gt. simpl.
  by destruct (x1 =? y1), (x2 =? y2).
Qed.

Lemma score_gt_above K a b :
  shaped K a → shaped K b → score_gt a b = score_above a b.
Proof.
  unfold score_gt, score_above.
  intros [->|(Ha1 & Ha2 & Ha3)] [->|(Hb1 & Hb2 & Hb3)]; simpl;
    rewrite ?Ha1, ?Hb1; simpl; try done.
  apply counts_gt_flat; [congruence|done..].
Qed.

Lemma key_gt_above K (a b : Key) :
  shaped K a.1 → shaped K b.1 → key_gt a b = key_above a b.
Proof.
  intros Ha Hb. unfold key_gt, key_above.
  rewrite <-(score_gt_above K) by done.
  destruct (score_eq a.1 b.1) eqn:E.
  - apply score_eq_spec in E. rewrite E, score_gt_irrefl.
    by rewrite bool_decide_eq_true_2.
  - rewrite bool_decide_eq_false_2; [by rewrite orb_false_r|].
    intros H%score_eq_spec. congruence.
Qed.

(** The free columns are listed in ascending order. *)
Lemma free_sorted_gen (g : nat → Z) (l : list Z) :
  (∀ i j, (i < j)%nat → g i < g j) →
  StronglySorted Z.lt
    (omap (fun '(i, x) => if x =? 0 then Some (i + 1) else None)
       (imap (fun i x => (g i, x)) l))
  ∧ Forall (fun c => g 0%nat < c)
      (omap (fun '(i, x) => if x =? 0 then Some (i + 1) else None)
         (imap (fun i x => (g i, x)) l)).
Proof.
  revert g. induction l as [|x l IH]; intros g Hg; simpl.
  { split; constructor. }
  destruct (IH (g ∘ S)) as [Hsorted Hlow].
  { intros i j Hij. apply Hg. lia. }
  unfold compose in *.
  assert (Forall (fun c => g 0%nat < c)
            (omap (fun '(i, x) => if x =? 0 then Some (i + 1) else None)
               (imap (fun i x => (g (S i), x)) l))) as Hlow'.
  { eapply Forall_impl; [exact Hlow|]. simpl. intros c Hc.
    specialize (Hg 0%nat 1%nat). lia. }
  destruct (x =? 0); simpl.
  - split; constructor; [done| |lia|done].
    eapply Forall_impl; [exact Hlow|]. simpl. intros c Hc.
    specialize (Hg 0%nat 1%nat). lia.
  - done.
Qed.

Lemma free_of_sorted (row0 : list Z) : StronglySorted Z.lt (free_of row0).
Proof. apply (free_sorted_gen Z.of_nat). lia. Qed.

Lemma key_gt_irrefl (a : Key) : key_gt a a = false.
Proof.
  apply not_true_iff_false. rewrite key_gt_cases.
  intros [[_ H]|[H _]]; [by apply Qlt_irrefl in H|done].
Qed.

Lemma key_gt_asym (a b : Key) : key_gt a b = true → key_gt b a = false.
Proof.
  intros Hab. apply not_true_iff_false. intros Hba.
  pose proof (key_gt_trans _ _ _ Hab Hba) as H.
  by rewrite key_gt_irrefl in H.
Qed.

(** ** [cpu_player_hard] *)

Lemma column_score_shaped m n board row0 rest k num_players player column :
  rect m n board → board = row0 :: rest → column ∈ free_of row0 →
  short_runs k board player column →
  (∀ o, 1 <= o <= num_players → o ≠ player → short_runs k board o column) →
  ∃ score,
    column_score k num_players board player column = Ok score
    ∧ shaped (Z.to_nat (k - 2)) score.
Proof.
  intros Hrect Hboard Hfree Hshort Hshort_o.
  destruct (column_score_spec m n board row0 rest k num_players player column
              Hrect Hboard Hfree Hshort Hshort_o)
    as (score & Hscore & Hlose & Hkeep).
  exists score. split; [done|].
  destruct (loses_decidable m n board row0 rest k num_players player column
              Hrect Hboard Hfree) as [Hl|Hn].
  { left. by apply Hlose. }
  destruct (Hkeep Hn) as (counts & -> & Hlen & Hrows).
  right. split_and!; [done..|]. simpl.
  apply Forall_lookup. intros i row Hi.
  pose proof (lookup_lt_Some _ _ _ Hi) as Hlt.
  specialize (Hrows (k - 1 - Z.of_nat i)).
  replace (Z.to_nat (k - (k - 1 - Z.of_nat i) - 1)) with i in Hrows by lia.
  rewrite Hrows in Hi by lia. by injection Hi as <-.
Qed.

Lemma choose_column_hard_max m n board row0 rest k num_players player :
  rect m n board → board = row0 :: rest →
  win_or_block_column k num_players board (free_of row0) player = Ok None →
  choose_column_hard k num_players board player
  = py_max (hard_key k num_players board player (Z.of_nat n)) (free_of row0).
Proof.
  intros Hrect Hboard Hnone.
  destruct (row0_length m n board row0 rest Hrect Hboard) as [Hn _].
  unfold choose_column_hard.
  rewrite (py_get_0 board row0) by by rewrite Hboard.
  cbn [mbind result_bind].
  rewrite Hboard at 1. rewrite get_free_columns_cons.
  cbn [mbind result_bind]. rewrite Hnone. cbn [mbind result_bind].
  by rewrite Hn.
Qed.

Lemma cpu_player_hard_drops m n board row0 rest k num_players player column :
  rect m n board → board = row0 :: rest → column ∈ free_of row0 →
  choose_column_hard k num_players board player = Ok column →
  drop_piece board player column = (dropped board player column, Ok true)
  ∧ cpu_player_hard k num_players board player
    = (dropped board player column, Ok column).
Proof.
  intros Hrect Hboard Hfree Hchoose.
  destruct (drop_in_free_column m n board row0 rest column Hrect Hboard Hfree)
    as (above & row & below & _ & _ & _ & Hdrop).
  unfold cpu_player_hard, dropped. rewrite Hchoose.
  by rewrite (Hdrop player).
Qed.

(** C4.  When [win_or_block_column] finds no column on a rectangular
    board of valid cells with a free column, [cpu_player_hard] drops into
    and returns the first free column, in the ascending order of
    [get_free_columns], whose key
    [(column_score, num_cols - |(num_cols + 1) / 2 - column|)] no other
    free column exceeds: the keys of the free columns before it are
    strictly below, and no key of a free column is above.  The keys are
    compared by [key_above]: the flag first, then the counts row after row
    from index 0, the player's count before the opponents', then the
    distance term.  On the empty 3x3 board with [k = 4] player 1 plays
    column 2. *)
Theorem cpu_player_hard_first_maximal m n board row0 rest k num_players
    player :
  rect m n board → board = row0 :: rest →
  valid_cells num_players board → 1 <= player <= num_players →
  free_of row0 ≠ [] →
  win_or_block_column k num_players board (free_of row0) player = Ok None →
  (∃ before column after score,
     get_free_columns board = Ok (before ++ column :: after)
     ∧ StronglySorted Z.lt (before ++ column :: after)
     ∧ cpu_player_hard k num_players board player
       = (dropped board player column, Ok column)
     ∧ drop_piece board player column
       = (dropped board player column, Ok true)
     ∧ column_score k num_players board player column = Ok score
     ∧ (∀ c, c ∈ before →
          ∃ score',
            column_score k num_players board player c = Ok score'
            ∧ key_above (score, center_distance_key (Z.of_nat n) column)
                (score', center_distance_key (Z.of_nat n) c) = true)
     ∧ (∀ c, c ∈ before ++ column :: after →
          ∃ score',
            column_score k num_players board player c = Ok score'
            ∧ key_above (score', center_distance_key (Z.of_nat n) c)
                (score, center_distance_key (Z.of_nat n) column) = false))
  ∧ cpu_player_hard 4 2 [[0; 0; 0]; [0; 0; 0]; [0; 0; 0]] 1
    = ([[0; 0; 0]; [0; 0; 0]; [0; 1; 0]], Ok 2).
Proof.
  intros Hrect Hboard Hvalid Hplayer Hfree Hnone. split; [|by vm_compute].
  pose proof (win_or_block_none_short_runs m n board row0 rest k num_players
                player Hrect Hboard Hvalid Hplayer Hnone) as Hshort.
  set (K := Z.to_nat (k - 2)).
  set (key := hard_key k num_players board player (Z.of_nat n)).
  assert (∀ c, c ∈ free_of row0 →
               ∃ score,
                 column_score k num_players board player c = Ok score
                 ∧ shaped K score
                 ∧ key c = Ok (score, center_distance_key (Z.of_nat n) c))
    as Hkeys.
  { intros c Hc.
    destruct (column_score_shaped m n board row0 rest k num_players player c
                Hrect Hboard Hc) as (score & Hscore & Hshaped).
    - by apply Hshort.
    - intros o Ho _. by apply Hshort.
    - exists score. split_and!; [done..|].
      unfold key, hard_key. by rewrite Hscore. }
  destruct (py_max_spec key (free_of row0) Hfree)
    as (before & column & val & after & Hsplit & Hmax & Hval & Hb & Ha).
  { intros c Hc. destruct (Hkeys c Hc) as (score & _ & _ & Hkey). eauto. }
  assert (column ∈ free_of row0) as Hcolumn.
  { rewrite Hsplit. apply elem_of_app. right. by left. }
  destruct (Hkeys column Hcolumn) as (score & Hscore & Hshaped & Hkey).
  assert (val = (score, center_distance_key (Z.of_nat n) column)) as ->
    by congruence.
  pose proof (choose_column_hard_max m n board row0 rest k num_players player
                Hrect Hboard Hnone) as Hchoose.
  fold key in Hchoose. rewrite Hmax in Hchoose.
  destruct (cpu_player_hard_drops m n board row0 rest k num_players player
              column Hrect Hboard Hcolumn Hchoose) as [Hdrop Hcpu].
  assert (∀ c, c ∈ before →
               ∃ score',
                 column_score k num_players board player c = Ok score'
                 ∧ shaped K score'
                 ∧ key_gt (score, center_distance_key (Z.of_nat n) column)
                     (score', center_distance_key (Z.of_nat n) c) = true)
    as Hbefore.
  { intros c Hc. destruct (Hb c Hc) as (val' & Hval' & Hgt).
    destruct (Hkeys c) as (score' & Hscore' & Hshaped' & Hkey').
    { rewrite Hsplit. apply elem_of_app. by left. }
    exists score'. split_and!; [done..|]. congruence. }
  exists before, column, after, score. rewrite <-Hsplit.
  split_and!; [by rewrite Hboard|apply free_of_sorted|done..| |].
  - intros c Hc. destruct (Hbefore c Hc) as (score' & Hscore' & Hshaped' & Hgt).
    exists score'. split; [done|]. by rewrite <-(key_gt_above K).
  - intros c Hc. destruct (Hkeys c Hc) as (score' & Hscore' & Hshaped' & Hkey').
    exists score'. split; [done|]. rewrite <-(key_gt_above K) by done.
    rewrite Hsplit in Hc.
    apply elem_of_app in Hc as [Hc|[->|Hc]%elem_of_cons].
    + destruct (Hbefore c Hc) as (score'' & Hscore'' & _ & Hgt).
      apply key_gt_asym. congruence.
    + assert (score' = score) as -> by congruence. apply key_gt_irrefl.
    + destruct (Ha c Hc) as (val' & Hval' & Hgt). congruence.
Qed.

Lemma cpu_player_hard_first_maximal_witness :
  (∃ before column after score,
     get_free_columns [[0; 0; 0]; [0; 0; 0]; [0; 0; 0]]
     = Ok (before ++ column :: after)
     ∧ StronglySorted Z.lt (before ++ column :: after)
     ∧ cpu_player_hard 4 2 [[0; 0; 0]; [0; 0; 0]; [0; 0; 0]] 1
       = (dropped [[0; 0; 0]; [0; 0; 0]; [0; 0; 0]] 1 column, Ok column)
     ∧ drop_piece [[0; 0; 0]; [0; 0; 0]; [0; 0; 0]] 1 column
       = (dropped [[0; 0; 0]; [0; 0; 0]; [0; 0; 0]] 1 column, Ok true)
     ∧ column_score 4 2 [[0; 0; 0]; [0; 0; 0]; [0; 0; 0]] 1 column = Ok score
     ∧ (∀ c, c ∈ before →
          ∃ score',
            column_score 4 2 [[0; 0; 0]; [0; 0; 0]; [0; 0; 0]] 1 c = Ok score'
            ∧ key_above (score, center_distance_key (Z.of_nat 3) column)
                (score', center_distance_key (Z.of_nat 3) c) = true)
     ∧ (∀ c, c ∈ before ++ column :: after →
          ∃ score',
            column_score 4 2 [[0; 0; 0]; [0; 0; 0]; [0; 0; 0]] 1 c = Ok score'
            ∧ key_above (score', center_distance_key (Z.of_nat 3) c)
                (score, center_distance_key (Z.of_nat 3) column) = false))
  ∧ cpu_player_hard 4 2 [[0; 0; 0]; [0; 0; 0]; [0; 0; 0]] 1
    = ([[0; 0; 0]; [0; 0; 0]; [0; 1; 0]], Ok 2).
Proof.
  apply (cpu_player_hard_first_maximal 3 3 [[0; 0; 0]; [0; 0; 0]; [0; 0; 0]]
           [0; 0; 0] [[0; 0; 0]; [0; 0; 0]] 4 2 1).
  - split; [reflexivity|]. repeat constructor.
  - reflexivity.
  - repeat (constructor; try lia).
  - lia.
  - vm_compute. discriminate.
  - vm_compute. reflexivity.
Defined.

(** * More of the game *)

(** ** A new board *)

Lemma free_columns_of_zeros (g : nat → Z) (n : nat) :
  omap (fun '(i, x) => if x =? 0 then Some (i + 1) else None)
    (imap (fun i x => (g i, x)) (replicate n 0))
  = (fun i => g i + 1) <$> seq 0 n.
Proof.
  revert g. induction n as [|n IH]; intros g; [done|].
  simpl. f_equal. etrans; [apply (IH (g ∘ S))|].
  change (list_fmap nat Z) with (@fmap list _ nat Z).
  by rewrite <-fmap_S_seq, <-list_fmap_compose.
Qed.

Lemma free_of_zeros (n : nat) :
  free_of (replicate n 0) = range 1 (Z.of_nat n + 1).
Proof.
  unfold free_of, enumerate, range, seqZ.
  rewrite free_columns_of_zeros.
  replace (Z.to_nat (Z.of_nat n + 1 - 1)) with n by lia.
  apply list_fmap_ext. intros _ i _. lia.
Qed.

(** On a board without pieces the game goes by the top row alone. *)
Lemma end_of_game_no_pieces m n board k row0 :
  rect m n board → board !! 0%nat = Some row0 →
  (∀ r c x, cell board r c = Some x → x = 0) →
  end_of_game k board
  = Ok (if contains_zero row0 then GAME_NOT_OVER else DRAW).
Proof.
  intros Hrect Hrow0 Hzero.
  assert (0 < m)%nat as Hm.
  { apply lookup_lt_Some in Hrow0. destruct Hrect. lia. }
  destruct (pieces_in_a_row_spec m n board Hrect Hm)
    as (runs & Hruns & _ & Hiff).
  rewrite (end_of_game_rect board k runs row0 Hruns Hrow0).
  destruct runs as [|run runs]; [done|]. exfalso.
  destruct (proj1 (Hiff run) ltac:(by left))
    as (start & d & len & _ & Hps & Hlen & Hne & Hcells & _).
  destruct len as [|len]; [lia|].
  specialize (Hcells start). rewrite Hps in Hcells.
  apply Hne. unfold cell_at in *.
  assert (start ∈ segment start d (S len)) as Hin.
  { apply elem_of_segment. exists 0%nat. split; [lia|].
    destruct start; unfold pos_on; simpl; f_equal; lia. }
  specialize (Hcells Hin). destruct (_ && _); [|done]. by eapply Hzero.
Qed.

Lemma create_board_rect (num_rows num_cols : Z) :
  rect (Z.to_nat num_rows) (Z.to_nat num_cols)
    (create_board num_rows num_cols).
Proof.
  unfold create_board. split.
  - by rewrite length_replicate.
  - apply Forall_replicate. by rewrite length_replicate.
Qed.

Lemma create_board_cell (num_rows num_cols : Z) r c x :
  cell (create_board num_rows num_cols) r c = Some x → x = 0.
Proof.
  intros (row & Hrow & Hx)%cell_Some. unfold create_board in Hrow.
  apply lookup_replicate in Hrow as [-> _].
  by apply lookup_replicate in Hx as [-> _].
Qed.

(** A board made by [create_board] with at least one row and one column
    is rectangular and empty, every column is free, in ascending order,
    and the game is not over, whatever [k]. *)
Theorem create_board_fresh (num_rows num_cols k : Z) :
  0 < num_rows → 0 < num_cols →
  rect (Z.to_nat num_rows) (Z.to_nat num_cols)
    (create_board num_rows num_cols)
  ∧ (∀ r c, (r < Z.to_nat num_rows)%nat → (c < Z.to_nat num_cols)%nat →
            cell (create_board num_rows num_cols) r c = Some 0)
  ∧ gravity (create_board num_rows num_cols)
  ∧ get_free_columns (create_board num_rows num_cols)
    = Ok (range 1 (num_cols + 1))
  ∧ end_of_game k (create_board num_rows num_cols) = Ok GAME_NOT_OVER.
Proof.
  intros Hrows Hcols.
  pose proof (create_board_rect num_rows num_cols) as Hrect.
  assert (create_board num_rows num_cols !! 0%nat
          = Some (replicate (Z.to_nat num_cols) 0)) as Hrow0.
  { unfold create_board. apply lookup_replicate. split; [done|lia]. }
  split_and!; [done| | | |].
  - intros r c Hr Hc.
    destruct (cell_rect_is_Some _ _ _ r c Hrect Hr Hc) as [x Hx].
    by rewrite Hx, (create_board_cell _ _ _ _ _ Hx).
  - intros r c x Hx Hne. by destruct (Hne (create_board_cell _ _ _ _ _ Hx)).
  - unfold get_free_columns. rewrite (py_get_0 _ _ Hrow0).
    cbn [mbind result_bind]. fold (free_of (replicate (Z.to_nat num_cols) 0)).
    rewrite free_of_zeros. do 2 f_equal. lia.
  - rewrite (end_of_game_no_pieces _ _ _ k _ Hrect Hrow0)
      by apply create_board_cell.
    assert (contains_zero (replicate (Z.to_nat num_cols) 0) = true) as ->;
      [|done].
    apply contains_zero_spec, elem_of_replicate. split; [done|lia].
Qed.

Lemma create_board_fresh_witness :
  rect (Z.to_nat 6) (Z.to_nat 7) (create_board 6 7)
  ∧ (∀ r c, (r < Z.to_nat 6)%nat → (c < Z.to_nat 7)%nat →
            cell (create_board 6 7) r c = Some 0)
  ∧ gravity (create_board 6 7)
  ∧ get_free_columns (create_board 6 7) = Ok (range 1 (7 + 1))
  ∧ end_of_game 4 (create_board 6 7) = Ok GAME_NOT_OVER.
Proof. apply (create_board_fresh 6 7 4); lia. Defined.

(** Without rows there is no top row: [get_free_columns] and
    [end_of_game] raise [IndexError]. *)
Theorem create_board_no_rows (num_rows num_cols k : Z) :
  num_rows <= 0 →
  create_board num_rows num_cols = []
  ∧ get_free_columns (create_board num_rows num_cols) = Raise IndexError
  ∧ end_of_game k (create_board num_rows num_cols) = Raise IndexError.
Proof.
  intros Hrows. unfold create_board.
  replace (Z.to_nat num_rows) with 0%nat by lia. by split_and!.
Qed.

Lemma create_board_no_rows_witness :
  create_board 0 7 = []
  ∧ get_free_columns (create_board 0 7) = Raise IndexError
  ∧ end_of_game 4 (create_board 0 7) = Raise IndexError.
Proof. apply (create_board_no_rows 0 7 4). lia. Defined.

(** With rows but without columns no column is free, the game is a draw
    from the start, and every drop raises [IndexError] and leaves the
    board as it is. *)
Theorem create_board_no_columns (num_rows num_cols k : Z) :
  0 < num_rows → num_cols <= 0 →
  get_free_columns (create_board num_rows num_cols) = Ok []
  ∧ end_of_game k (create_board num_rows num_cols) = Ok DRAW
  ∧ ∀ player column,
      drop_piece (create_board num_rows num_cols) player column
      = (create_board num_rows num_cols, Raise IndexError).
Proof.
  intros Hrows Hcols.
  pose proof (create_board_rect num_rows num_cols) as Hrect.
  assert (create_board num_rows num_cols !! 0%nat = Some []) as Hrow0.
  { unfold create_board. replace (Z.to_nat num_cols) with 0%nat by lia.
    apply lookup_replicate. split; [done|lia]. }
  split_and!.
  - unfold get_free_columns. by rewrite (py_get_0 _ _ Hrow0).
  - by rewrite (end_of_game_no_pieces _ _ _ k _ Hrect Hrow0)
      by apply create_board_cell.
  - intros player column. unfold drop_piece, create_board.
    replace (Z.to_nat num_cols) with 0%nat by lia.
    rewrite reverse_replicate.
    destruct (Z.to_nat num_rows) as [|m] eqn:E; [lia|]. simpl.
    unfold py_get. simpl.
    assert (norm_index 0 (column - 1) = None) as ->.
    { unfold norm_index. destruct (0 <=? column - 1) eqn:E1.
      - destruct (Z.ltb_spec (column - 1) (Z.of_nat 0)); [lia|done].
      - destruct (Z.leb_spec (- Z.of_nat 0) (column - 1)); [|done].
        apply Z.leb_gt in E1. lia. }
    change ([] :: replicate m []) with (replicate (S m) (@nil Z)).
    by rewrite reverse_replicate.
Qed.

Lemma create_board_no_columns_witness :
  get_free_columns (create_board 6 0) = Ok []
  ∧ end_of_game 4 (create_board 6 0) = Ok DRAW
  ∧ ∀ player column,
      drop_piece (create_board 6 0) player column
      = (create_board 6 0, Raise IndexError).
Proof. apply (create_board_no_columns 6 0 4); lia. Defined.

(** ** Free columns and drops *)

(** On a board where the pieces rest on one another, the free columns
    are the columns in which a drop succeeds. *)
Theorem free_columns_are_droppable m n board row0 player column :
  rect m n board → board !! 0%nat = Some row0 → gravity board →
  1 <= column <= Z.of_nat n →
  get_free_columns board = Ok (free_of row0)
  ∧ (column ∈ free_of row0
     ↔ (drop_piece board player column).2 = Ok true).
Proof.
  intros Hrect Hrow0 Hgravity Hcol.
  destruct board as [|row0' rest]; [done|]. injection Hrow0 as ->.
  split; [done|]. split.
  - intros Hfree.
    destruct (drop_in_free_column m n _ row0 rest column Hrect eq_refl Hfree)
      as (above & row & below & _ & _ & _ & Hdrop).
    by rewrite Hdrop.
  - intros Hdrop. set (c := Z.to_nat (column - 1)).
    assert (c < n)%nat as Hc by lia.
    replace column with (Z.of_nat c + 1) in Hdrop by lia.
    destruct (drop_piece_spec (row0 :: rest) c
                (rect_in_range _ _ _ _ Hrect Hc))
      as [[_ Hfalse]|(above & row & below & Hsplit & _ & Hrow & _)].
    { by rewrite Hfalse in Hdrop. }
    apply elem_of_free_of. split; [lia|]. fold c.
    destruct above as [|row0'' above]; [by injection Hsplit as -> _|].
    injection Hsplit as <- Hrest.
    destruct (cell_rect_is_Some m n (row0 :: rest) 0 c Hrect) as [x Hx];
      [destruct Hrect as [<- _]; simpl; lia|done|].
    pose proof Hx as (row' & [= <-] & ->)%cell_Some. f_equal.
    destruct (decide (x = 0)) as [|Hne]; [done|]. exfalso.
    apply (Hgravity 0%nat c x Hx Hne (S (length above))).
    + rewrite Hrest. simpl. rewrite length_app. simpl. lia.
    + apply cell_Some. exists row. split; [|done].
      rewrite Hrest. simpl. by apply list_lookup_middle.
Qed.

Lemma free_columns_are_droppable_witness :
  get_free_columns [[0; 2]; [1; 2]] = Ok (free_of [0; 2])
  ∧ (2 ∈ free_of [0; 2] ↔ (drop_piece [[0; 2]; [1; 2]] 1 2).2 = Ok true).
Proof.
  apply (free_columns_are_droppable 2 2 [[0; 2]; [1; 2]] [0; 2] 1 2).
  - split; [reflexivity|]. repeat constructor.
  - reflexivity.
  - intros r c x Hx Hne r' Hr'. simpl in Hr'.
    assert (r = 0 ∧ r' = 1)%nat as [-> ->] by lia.
    destruct c as [|[|c]]; vm_compute in Hx; [congruence| |done].
    vm_compute. discriminate.
  - lia.
Defined.

Lemma count_if_app {A} (f : A → bool) (l1 l2 : list A) :
  count_if f (l1 ++ l2) = count_if f l1 + count_if f l2.
Proof. induction l1 as [|x l1 IH]; simpl; lia. Qed.

Lemma count_if_insert {A} (f : A → bool) (l : list A) i x y :
  l !! i = Some x →
  count_if f (<[i:=y]> l)
  = count_if f l - (if f x then 1 else 0) + (if f y then 1 else 0).
Proof.
  revert i. induction l as [|a l IH]; intros [|i] Hi; simplify_eq/=.
  - lia.
  - rewrite (IH i Hi). lia.
Qed.

Lemma drop_from_bottom_true rows index player rows' :
  drop_from_bottom rows index player = (rows', Ok true) →
  ∃ pre row post i,
    rows = pre ++ row :: post
    ∧ row !! i = Some 0
    ∧ rows' = pre ++ <[i:=player]> row :: post.
Proof.
  revert rows'. induction rows as [|row rest IH]; intros rows'; simpl.
  { intros [=]. }
  destruct (py_get row index) as [x| |] eqn:Hget; [|intros [=]..].
  destruct (Z.eqb_spec x 0) as [->|Hne].
  - apply py_get_Ok in Hget as (i & Hi & Hrow).
    unfold py_set. rewrite Hi. intros [= <-].
    by exists [], row, rest, i.
  - destruct (drop_from_bottom rest index player) as [rest' r] eqn:E.
    intros [= <- ->].
    destruct (IH rest' eq_refl) as (pre & row' & post & i & -> & Hrow & ->).
    by exists (row :: pre), row', post, i.
Qed.

Lemma drop_piece_true_shape board player column board' :
  drop_piece board player column = (board', Ok true) →
  ∃ above row below i,
    board = above ++ row :: below
    ∧ row !! i = Some 0
    ∧ board' = above ++ <[i:=player]> row :: below.
Proof.
  unfold drop_piece.
  destruct (drop_from_bottom (reverse board) (column - 1) player)
    as [rows r] eqn:E.
  intros [= <- ->].
  apply drop_from_bottom_true in E as (pre & row & post & i & Hrev & Hrow & ->).
  exists (reverse post), row, (reverse pre), i. split_and!; [|done|].
  - rewrite <-(reverse_involutive board), Hrev.
    by rewrite reverse_app, reverse_cons, <-app_assoc.
  - by rewrite reverse_app, reverse_cons, <-app_assoc.
Qed.

Lemma empty_cells_insert above (row : list Z) below i player :
  row !! i = Some 0 →
  empty_cells (above ++ <[i:=player]> row :: below)
  = empty_cells (above ++ row :: below) - (if player =? 0 then 0 else 1).
Proof.
  intros Hrow. unfold empty_cells. rewrite !join_app, !count_if_app. simpl.
  rewrite !count_if_app, (count_if_insert _ _ _ _ _ Hrow). simpl.
  destruct (player =? 0); lia.
Qed.

(** A drop that succeeds writes the player over one empty cell and
    changes nothing else, whatever the shape of the board and the column:
    the number of empty cells goes down by one (or stays, for the piece
    0, which is the empty cell itself). *)
Theorem drop_piece_takes_an_empty_cell board player column board' :
  drop_piece board player column = (board', Ok true) →
  (∃ above row below i,
     board = above ++ row :: below
     ∧ row !! i = Some 0
     ∧ board' = above ++ <[i:=player]> row :: below)
  ∧ length board' = length board
  ∧ empty_cells board'
    = empty_cells board - (if player =? 0 then 0 else 1).
Proof.
  intros Hdrop.
  destruct (drop_piece_true_shape _ _ _ _ Hdrop)
    as (above & row & below & i & -> & Hrow & ->).
  split_and!.
  - by exists above, row, below, i.
  - rewrite !length_app. simpl. done.
  - by apply empty_cells_insert.
Qed.

Lemma drop_piece_takes_an_empty_cell_witness :
  (∃ above row below i,
     [[0; 2]; [1; 2]] = above ++ row :: below
     ∧ row !! i = Some 0
     ∧ [[1; 2]; [1; 2]] = above ++ <[i:=1]> row :: below)
  ∧ length [[1; 2]; [1; 2]] = length [[0; 2]; [1; 2]]
  ∧ empty_cells [[1; 2]; [1; 2]]
    = empty_cells [[0; 2]; [1; 2]] - (if 1 =? 0 then 0 else 1).
Proof.
  apply (drop_piece_takes_an_empty_cell [[0; 2]; [1; 2]] 1 1).
  reflexivity.
Defined.

(** ** Free cells beyond a run *)

Lemma free_run_unique board p d t t' :
  free_run board p d t → free_run board p d t' → t = t'.
Proof.
  intros [H1 H1'] [H2 H2'].
  destruct (Nat.lt_trichotomy t t') as [Hlt|[->|Hlt]]; [|done|].
  - destruct H1'. apply H2. lia.
  - destruct H2'. apply H1. lia.
Qed.

Lemma free_run_step board p d t :
  free_run board p d (S t) → free_run board (pos_on p d 1) d t.
Proof.
  intros [H H']. split.
  - intros i Hi. specialize (H (S i) ltac:(lia)).
    replace (pos_on (pos_on p d 1) d (Z.of_nat i))
      with (pos_on p d (Z.of_nat (S i))); [done|].
    unfold pos_on. simpl. f_equal; lia.
  - replace (pos_on (pos_on p d 1) d (Z.of_nat (S t)))
      with (pos_on p d (Z.of_nat (S (S t)))); [done|].
    unfold pos_on. simpl. f_equal; lia.
Qed.

Lemma in_board_lookup m n (board : Board) p x :
  rect m n board → cell_at board p = Some x →
  (0 <=? p.1) && (p.1 <? Z.of_nat m) && (0 <=? p.2) && (p.2 <? Z.of_nat n)
  = true
  ∧ ∃ cells, py_get board p.1 = Ok cells ∧ py_get cells p.2 = Ok x.
Proof.
  intros Hrect Hcell.
  pose proof (proj1 (cell_at_Some m n board p x Hrect) Hcell) as [[Hr Hc] _].
  split.
  { rewrite !andb_true_iff, !Z.leb_le, !Z.ltb_lt. lia. }
  unfold cell_at in Hcell.
  destruct ((0 <=? p.1) && (0 <=? p.2)); [|done].
  apply cell_Some in Hcell as (cells & Hcells & Hx).
  exists cells. split.
  - rewrite <-(Z2Nat.id p.1) by lia. by apply py_get_nat.
  - rewrite <-(Z2Nat.id p.2) by lia. by apply py_get_nat.
Qed.

(** [count_free_cells] counts the empty cells that follow a position. *)
Lemma count_free_cells_spec m n board fuel row col dr dc count t :
  rect m n board → free_run board (row, col) (dr, dc) t → (t < fuel)%nat →
  count_free_cells fuel board (Z.of_nat m) (Z.of_nat n) row col dr dc count
  = Ok (count + Z.of_nat t).
Proof.
  intros Hrect. revert fuel row col count.
  induction t as [|t IH]; intros fuel row col count Hfree Hfuel;
    (destruct fuel as [|fuel]; [lia|]); simpl.
  - destruct Hfree as [_ Hnext]. unfold pos_on in Hnext. simpl in Hnext.
    rewrite !Z.mul_1_r in Hnext.
    destruct ((0 <=? row + dr) && (row + dr <? Z.of_nat m)
              && (0 <=? col + dc) && (col + dc <? Z.of_nat n)) eqn:Hin;
      [|f_equal; lia].
    rewrite !andb_true_iff, !Z.leb_le, !Z.ltb_lt in Hin.
    destruct (cell_rect_is_Some m n board (Z.to_nat (row + dr))
                (Z.to_nat (col + dc)) Hrect) as [x Hx]; [lia..|].
    assert (cell_at board (row + dr, col + dc) = Some x) as Hcell.
    { unfold cell_at. simpl.
      destruct (Z.leb_spec 0 (row + dr)); [|lia].
      by destruct (Z.leb_spec 0 (col + dc)); [|lia]. }
    destruct (in_board_lookup m n board _ x Hrect Hcell)
      as (_ & cells & Hcells & Hget). simpl in Hcells, Hget.
    rewrite Hcells. cbn [mbind result_bind]. rewrite Hget.
    cbn [mbind result_bind].
    destruct (Z.eqb_spec x 0) as [->|_]; [by rewrite Hcell in Hnext|].
    f_equal. lia.
  - pose proof (free_run_step _ _ _ _ Hfree) as Hstep.
    destruct Hfree as [Hzero _]. specialize (Hzero 1%nat ltac:(lia)).
    unfold pos_on in Hzero, Hstep. simpl in Hzero, Hstep.
    rewrite !Z.mul_1_r in Hzero, Hstep.
    destruct (in_board_lookup m n board _ 0 Hrect Hzero)
      as (Hin & cells & Hcells & Hget). simpl in Hin, Hcells, Hget.
    rewrite Hin, Hcells. cbn [mbind result_bind]. rewrite Hget.
    cbn [mbind result_bind]. simpl.
    rewrite (IH fuel _ _ _ Hstep) by lia. f_equal. lia.
Qed.

Lemma least_nat (P : nat → Prop) `{∀ i, Decision (P i)} (N : nat) :
  P N → ∃ t, (t <= N)%nat ∧ P t ∧ ∀ i, (i < t)%nat → ¬ P i.
Proof.
  induction N as [N IH] using lt_wf_ind. intros HN.
  destruct (decide (Exists P (seq 0 N))) as [Hex|Hnone].
  - apply Exists_exists in Hex as (i & Hi & HP).
    apply elem_of_seq in Hi.
    destruct (IH i ltac:(lia) HP) as (t & Ht & HPt & Hleast).
    exists t. split; [lia|done].
  - exists N. split; [done|]. split; [done|].
    intros i Hi HP. apply Hnone, Exists_exists. exists i.
    split; [|done]. apply elem_of_seq. lia.
Qed.

(** From any position and in any direction the empty cells that follow
    come to an end within the board. *)
Lemma free_run_exists m n board p d :
  rect m n board → d ≠ (0, 0) →
  ∃ t, free_run board p d t ∧ (t <= m + n)%nat.
Proof.
  intros Hrect Hd.
  set (P := fun i : nat => cell_at board (pos_on p d (Z.of_nat (S i))) ≠ Some 0).
  assert (P (m + n)%nat ∨ P 0%nat) as HP.
  { destruct (decide (cell_at board (pos_on p d (Z.of_nat 1)) = Some 0))
      as [Hone|Hone]; [left|by right].
    intros Hfar.
    apply (cell_at_Some m n board _ _ Hrect) in Hone as [[Hr Hc] _].
    apply (cell_at_Some m n board _ _ Hrect) in Hfar as [[Hr' Hc'] _].
    unfold pos_on in *. simpl in *. destruct d as [dr dc]. simpl in *.
    assert (dr ≠ 0 ∨ dc ≠ 0) as [Hdr|Hdc].
    { destruct (decide (dr = 0)) as [->|]; [|by left].
      right. intros ->. done. }
    - assert (dr <= -1 ∨ 1 <= dr) as [?|?] by lia; nia.
    - assert (dc <= -1 ∨ 1 <= dc) as [?|?] by lia; nia. }
  assert (∃ N, (N <= m + n)%nat ∧ P N) as (N & HN & HPN).
  { destruct HP; [by exists (m + n)%nat|exists 0%nat; split; [lia|done]]. }
  destruct (least_nat P N HPN) as (t & Ht & HPt & Hleast).
  exists t. split; [|lia]. split; [|done].
  intros [|i] Hi; [lia|].
  destruct (decide (cell_at board (pos_on p d (Z.of_nat (S i))) = Some 0))
    as [|Hne]; [done|].
  destruct (Hleast i ltac:(lia) Hne).
Qed.

(** [can_win_from_pieces] on a line of [len] positions: the empty cells
    that follow the last position, [f], and those that precede the first,
    [g], make it [True] exactly when [len + f + g >= k]. *)
Theorem can_win_from_pieces_counts_free_cells m n board k start d len :
  rect m n board → (0 < m)%nat → d ≠ (0, 0) → (2 <= len)%nat →
  ∃ f g : nat,
    free_run board (pos_on start d (Z.of_nat (len - 1))) d f
    ∧ free_run board start (- d.1, - d.2) g
    ∧ can_win_from_pieces k board (segment start d len)
      = Ok (k - Z.of_nat len <=? Z.of_nat f + Z.of_nat g).
Proof.
  intros Hrect Hm Hd Hlen.
  destruct (free_run_exists m n board (pos_on start d (Z.of_nat (len - 1))) d
              Hrect Hd) as (f & Hf & Hfm).
  destruct (free_run_exists m n board start (- d.1, - d.2) Hrect)
    as (g & Hg & Hgm).
  { destruct d as [dr dc]. simpl. intros [= ? ?]. apply Hd. f_equal; lia. }
  exists f, g. split; [done|]. split; [done|].
  unfold can_win_from_pieces.
  destruct (lookup_lt_is_Some_2 board 0) as [row0 Hrow0].
  { destruct Hrect. lia. }
  rewrite (py_get_0 board row0 Hrow0).
  cbn [mbind result_bind].
  pose proof (rect_lookup _ _ _ _ _ Hrect Hrow0) as Hn.
  pose proof Hrect as [Hlenb _]. rewrite Hn, Hlenb.
  rewrite (py_get_0 _ (pos_on start d (Z.of_nat 0)))
    by (rewrite segment_lookup; by rewrite decide_True by lia).
  rewrite (py_get_1 _ (pos_on start d (Z.of_nat 1)))
    by (rewrite segment_lookup; by rewrite decide_True by lia).
  rewrite (py_get_last _ (pos_on start d (Z.of_nat (len - 1)))).
  2:{ rewrite last_lookup, length_segment, segment_lookup.
      rewrite decide_True by lia. do 2 f_equal. lia. }
  cbn [mbind result_bind].
  destruct start as [r c], d as [dr dc]. unfold pos_on in *.
  cbn [fst snd] in *.
  replace (r + dr * Z.of_nat 1 - (r + dr * Z.of_nat 0)) with dr by lia.
  replace (c + dc * Z.of_nat 1 - (c + dc * Z.of_nat 0)) with dc by lia.
  rewrite (count_free_cells_spec m n board _ _ _ _ _ 0 f Hrect Hf) by lia.
  cbn [mbind result_bind].
  replace (r + dr * Z.of_nat 0) with r by lia.
  replace (c + dc * Z.of_nat 0) with c by lia.
  rewrite (count_free_cells_spec m n board _ _ _ _ _ 0 g Hrect Hg) by lia.
  cbn [mbind result_bind]. by rewrite length_segment.
Qed.

Lemma can_win_from_pieces_counts_free_cells_witness :
  ∃ f g : nat,
    free_run [[1; 1; 0; 0]] (pos_on (0, 0) (0, 1) (Z.of_nat (2 - 1))) (0, 1) f
    ∧ free_run [[1; 1; 0; 0]] (0, 0) (- (0, 1).1, - (0, 1).2) g
    ∧ can_win_from_pieces 4 [[1; 1; 0; 0]] (segment (0, 0) (0, 1) 2)
      = Ok (4 - Z.of_nat 2 <=? Z.of_nat f + Z.of_nat g).
Proof.
  apply (can_win_from_pieces_counts_free_cells 1 4 [[1; 1; 0; 0]] 4
           (0, 0) (0, 1) 2).
  - split; [reflexivity|]. repeat constructor.
  - lia.
  - discriminate.
  - lia.
Defined.

(** With fewer than two positions [can_win_from_pieces] raises
    [IndexError], on every board. *)
Theorem can_win_from_pieces_short_line k board (positions : list Position) :
  (length positions < 2)%nat →
  can_win_from_pieces k board positions = Raise IndexError.
Proof.
  intros Hlen. unfold can_win_from_pieces.
  destruct (py_get board 0) as [row0| |] eqn:Hrow0; cbn [mbind result_bind].
  - destruct positions as [|p [|q positions]]; [done..|simpl in Hlen; lia].
  - unfold py_get in Hrow0. destruct (norm_index _ _); [|congruence].
    destruct (board !! _); congruence.
  - unfold py_get in Hrow0. destruct (norm_index _ _); [|congruence].
    destruct (board !! _); congruence.
Qed.

Lemma can_win_from_pieces_short_line_witness :
  can_win_from_pieces 4 [[1; 0]] [(0, 0)] = Raise IndexError.
Proof. apply can_win_from_pieces_short_line. simpl. lia. Defined.

Lemma count_free_cells_stuck m n board fuel row col count :
  rect m n board → cell_at board (row, col) = Some 0 →
  count_free_cells fuel board (Z.of_nat m) (Z.of_nat n) row col 0 0 count
  = Diverge.
Proof.
  intros Hrect Hcell. revert count.
  induction fuel as [|fuel IH]; intros count; [done|]. simpl.
  rewrite !Z.add_0_r.
  destruct (in_board_lookup m n board _ 0 Hrect Hcell)
    as (Hin & cells & Hcells & Hget). simpl in Hin, Hcells, Hget.
  rewrite Hin, Hcells. cbn [mbind result_bind]. rewrite Hget.
  cbn [mbind result_bind]. simpl. apply IH.
Qed.

(** When the first two positions coincide the step is zero, and if the
    last position is an empty cell of the board the loop that counts the
    free cells never leaves it: no number of iterations is enough, and
    [can_win_from_pieces] does not return. *)
Theorem can_win_from_pieces_zero_step m n board k p q
    (positions : list Position) :
  rect m n board → (0 < m)%nat →
  last (p :: p :: positions) = Some q →
  cell_at board q = Some 0 →
  (∀ fuel count,
     count_free_cells fuel board (Z.of_nat m) (Z.of_nat n) q.1 q.2 0 0 count
     = Diverge)
  ∧ can_win_from_pieces k board (p :: p :: positions) = Diverge.
Proof.
  intros Hrect Hm Hlast Hcell.
  destruct q as [row col]. split.
  { intros fuel count. by apply count_free_cells_stuck. }
  unfold can_win_from_pieces.
  destruct (lookup_lt_is_Some_2 board 0) as [row0 Hrow0].
  { destruct Hrect. lia. }
  rewrite (py_get_0 board row0 Hrow0). cbn [mbind result_bind].
  pose proof (rect_lookup _ _ _ _ _ Hrect Hrow0) as Hn.
  pose proof Hrect as [Hlenb _]. rewrite Hn, Hlenb.
  rewrite (py_get_0 _ p) by done. rewrite (py_get_1 _ p) by done.
  rewrite (py_get_last _ _ Hlast). cbn [mbind result_bind].
  rewrite !Z.sub_diag. cbn [fst snd].
  by rewrite (count_free_cells_stuck m n board _ row col 0 Hrect Hcell).
Qed.

Lemma can_win_from_pieces_zero_step_witness :
  (∀ fuel count,
     count_free_cells fuel [[1; 0]] (Z.of_nat 1) (Z.of_nat 2)
       (0, 1).1 (0, 1).2 0 0 count = Diverge)
  ∧ can_win_from_pieces 4 [[1; 0]] [(0, 1); (0, 1)] = Diverge.
Proof.
  apply (can_win_from_pieces_zero_step 1 2 [[1; 0]] 4 (0, 1) (0, 1) []).
  - split; [reflexivity|]. repeat constructor.
  - lia.
  - reflexivity.
  - reflexivity.
Defined.

(** ** The players *)

Lemma wins_dropped m n board row0 rest k who c :
  rect m n board → board = row0 :: rest → c ∈ free_of row0 →
  wins k board who c ↔ end_of_game k (dropped board who c) = Ok who.
Proof.
  intros Hrect Hboard Hc.
  destruct (dropped_rect m n board row0 rest who c Hrect Hboard Hc)
    as [Hcopy _].
  split.
  - intros (nb & Hnb & Hend). congruence.
  - intros Hend. by exists (dropped board who c).
Qed.

(** [can_win_now] returns, and it returns [True] exactly when the drop
    in some free column ends the game in favour of the player. *)
Theorem can_win_now_iff_winning_drop m n board row0 rest k who :
  rect m n board → board = row0 :: rest →
  ∃ b,
    can_win_now k board who = Ok b
    ∧ (b = true
       ↔ ∃ c, c ∈ free_of row0
              ∧ drop_piece board who c = (dropped board who c, Ok true)
              ∧ end_of_game k (dropped board who c) = Ok who).
Proof.
  intros Hrect Hboard.
  destruct (can_win_now_spec m n board k who row0 Hrect) as (b & Hb & Hiff).
  { by rewrite Hboard. }
  exists b. split; [done|]. rewrite Hiff. split.
  - intros (c & Hc & Hw). exists c. split; [done|]. split.
    + destruct (drop_in_free_column m n board row0 rest c Hrect Hboard Hc)
        as (above & row & below & _ & _ & _ & Hdrop).
      unfold dropped. by rewrite (Hdrop who).
    + by apply (wins_dropped m n board row0 rest).
  - intros (c & Hc & _ & Hend). exists c. split; [done|].
    by apply (wins_dropped m n board row0 rest).
Qed.

Lemma can_win_now_iff_winning_drop_witness :
  ∃ b,
    can_win_now 3 [[0; 0; 0]; [1; 1; 0]] 1 = Ok b
    ∧ (b = true
       ↔ ∃ c, c ∈ free_of [0; 0; 0]
              ∧ drop_piece [[0; 0; 0]; [1; 1; 0]] 1 c
                = (dropped [[0; 0; 0]; [1; 1; 0]] 1 c, Ok true)
              ∧ end_of_game 3 (dropped [[0; 0; 0]; [1; 1; 0]] 1 c) = Ok 1).
Proof.
  apply (can_win_now_iff_winning_drop 2 3 [[0; 0; 0]; [1; 1; 0]] [0; 0; 0]
           [[1; 1; 0]] 3 1).
  - split; [reflexivity|]. repeat constructor.
  - reflexivity.
Defined.

Lemma random_choice_spec {A} (draw : nat) (seq : list A) :
  seq ≠ [] →
  ∃ x, seq !! (draw mod length seq)%nat = Some x
       ∧ random_choice draw seq = Ok x.
Proof.
  intros Hne. destruct seq as [|a seq]; [done|].
  destruct (lookup_lt_is_Some_2 (a :: seq) (draw mod length (a :: seq)))
    as [x Hx].
  { apply Nat.mod_upper_bound. simpl. lia. }
  exists x. split; [done|]. unfold random_choice. by apply py_get_nat.
Qed.

Lemma drop_chosen_free m n board row0 rest player c :
  rect m n board → board = row0 :: rest → c ∈ free_of row0 →
  drop_piece board player c = (dropped board player c, Ok true)
  ∧ drop_chosen board player c = (dropped board player c, Ok c).
Proof.
  intros Hrect Hboard Hc.
  destruct (drop_in_free_column m n board row0 rest c Hrect Hboard Hc)
    as (above & row & below & _ & _ & _ & Hdrop).
  unfold drop_chosen, dropped. by rewrite (Hdrop player).
Qed.

(** [cpu_player_easy] raises [IndexError] when no column is free;
    otherwise it drops into the free column that is drawn and returns it,
    and every free column can be drawn. *)
Theorem cpu_player_easy_plays_free_column m n board row0 rest player :
  rect m n board → board = row0 :: rest →
  (free_of row0 = [] →
   ∀ draw, cpu_player_easy draw board player = (board, Raise IndexError))
  ∧ (free_of row0 ≠ [] →
     ∀ draw, ∃ column,
       free_of row0 !! (draw mod length (free_of row0))%nat = Some column
       ∧ drop_piece board player column
         = (dropped board player column, Ok true)
       ∧ cpu_player_easy draw board player
         = (dropped board player column, Ok column))
  ∧ (∀ column, column ∈ free_of row0 →
       ∃ draw, cpu_player_easy draw board player
               = (dropped board player column, Ok column)).
Proof.
  intros Hrect Hboard.
  assert (get_free_columns board = Ok (free_of row0)) as Hfree
    by by rewrite Hboard.
  unfold cpu_player_easy. rewrite Hfree. cbn [mbind result_bind].
  split_and!.
  - intros -> draw. done.
  - intros Hne draw.
    destruct (random_choice_spec draw (free_of row0) Hne) as (c & Hc & ->).
    exists c. split; [done|].
    by apply (drop_chosen_free m n board row0 rest),
      (list_elem_of_lookup_2 _ _ _ Hc).
  - intros column Hin. pose proof Hin as [i Hi]%list_elem_of_lookup.
    exists i.
    assert (free_of row0 ≠ []) as Hne by (intros H; by rewrite H in Hi).
    destruct (random_choice_spec i (free_of row0) Hne) as (c & Hc & ->).
    rewrite Nat.mod_small in Hc by (by eapply lookup_lt_Some).
    assert (c = column) as -> by congruence.
    by apply (drop_chosen_free m n board row0 rest).
Qed.

Lemma cpu_player_easy_plays_free_column_witness :
  (free_of [0; 2] = [] →
   ∀ draw, cpu_player_easy draw [[0; 2]; [1; 2]] 1
           = ([[0; 2]; [1; 2]], Raise IndexError))
  ∧ (free_of [0; 2] ≠ [] →
     ∀ draw, ∃ column,
       free_of [0; 2] !! (draw mod length (free_of [0; 2]%Z))%nat = Some column
       ∧ drop_piece [[0; 2]; [1; 2]] 1 column
         = (dropped [[0; 2]; [1; 2]] 1 column, Ok true)
       ∧ cpu_player_easy draw [[0; 2]; [1; 2]] 1
         = (dropped [[0; 2]; [1; 2]] 1 column, Ok column))
  ∧ (∀ column, column ∈ free_of [0; 2] →
       ∃ draw, cpu_player_easy draw [[0; 2]; [1; 2]] 1
               = (dropped [[0; 2]; [1; 2]] 1 column, Ok column)).
Proof.
  apply (cpu_player_easy_plays_free_column 2 2 [[0; 2]; [1; 2]] [0; 2]
           [[1; 2]] 1).
  - split; [reflexivity|]. repeat constructor.
  - reflexivity.
Defined.

Lemma first_win_elem k board who columns c :
  first_win k board who columns c → c ∈ columns.
Proof. intros (i & Hi & _). by eapply list_elem_of_lookup_2. Qed.

(** What [win_or_block_column] finds: a column of the list; the first
    winning column of the player if there is one; otherwise that of the
    next player if there is one. *)
Lemma win_or_block_found m n board k num_players columns player :
  rect m n board → (0 < m)%nat →
  Forall (fun c => 1 <= c <= Z.of_nat n) columns →
  ∃ found,
    win_or_block_column k num_players board columns player = Ok found
    ∧ (∀ c, found = Some c → c ∈ columns)
    ∧ (∀ c, first_win k board player columns c → found = Some c)
    ∧ (no_win k board player columns → 2 <= num_players →
       ∀ c, first_win k board (next_player num_players player) columns c →
            found = Some c).
Proof.
  intros Hrect Hm Hcols. unfold win_or_block_column.
  destruct (first_winning_column_spec m n board k player columns Hrect Hm
              Hcols) as (found0 & -> & Hfound0). cbn [mbind result_bind].
  destruct found0 as [c0|].
  { exists (Some c0). split_and!; [done| | |].
    - intros c [= <-]. by eapply first_win_elem.
    - intros c Hc. f_equal. by eapply first_win_unique.
    - intros Hno. by destruct (first_win_not_no_win _ _ _ _ _ Hfound0). }
  destruct (block_opponents_spec m n board k num_players columns player
              (range 0 (num_players - 1)) Hrect Hm Hcols)
    as (found & -> & Hfound).
  exists found. split_and!; [done| | |].
  - intros c ->. destruct Hfound as (a & i & _ & Hwin & _).
    by eapply first_win_elem.
  - intros c Hc. by destruct (first_win_not_no_win _ _ _ _ _ Hc).
  - intros _ Hnp c Hc. unfold next_player in Hc.
    assert (range 0 (num_players - 1) !! 0%nat = Some 0) as Hzero.
    { unfold range. apply lookup_seqZ. lia. }
    destruct found as [c'|].
    + destruct Hfound as (a & i & Ha & Hwin & Hbefore).
      destruct a as [|a].
      * assert (i = 0) as -> by congruence. rewrite Z.add_0_r in Hwin.
        f_equal. by eapply first_win_unique.
      * destruct (first_win_not_no_win _ _ _ _ _ Hc).
        specialize (Hbefore 0%nat 0 ltac:(lia) Hzero).
        by rewrite Z.add_0_r in Hbefore.
    + destruct (first_win_not_no_win _ _ _ _ _ Hc).
      specialize (Hfound 0 (list_elem_of_lookup_2 _ _ _ Hzero)).
      by rewrite Z.add_0_r in Hfound.
Qed.

(** [cpu_player_medium] on a rectangular board with a free column: it
    drops into a free column and returns it; it takes the first column
    that wins at once, and then the game is won; failing that, the first
    column with which the next player would win; and when
    [win_or_block_column] finds nothing, the free column that is drawn. *)
Theorem cpu_player_medium_plays m n board row0 rest k num_players player
    draw :
  rect m n board → board = row0 :: rest → free_of row0 ≠ [] →
  ∃ column,
    column ∈ free_of row0
    ∧ drop_piece board player column = (dropped board player column, Ok true)
    ∧ cpu_player_medium draw k num_players board player
      = (dropped board player column, Ok column)
    ∧ (∀ c, first_win k board player (free_of row0) c →
         column = c ∧ end_of_game k (dropped board player column) = Ok player)
    ∧ (no_win k board player (free_of row0) → 2 <= num_players →
       ∀ c, first_win k board (next_player num_players player)
              (free_of row0) c →
            column = c)
    ∧ (win_or_block_column k num_players board (free_of row0) player
       = Ok None →
       free_of row0 !! (draw mod length (free_of row0))%nat = Some column).
Proof.
  intros Hrect Hboard Hne.
  destruct (row0_length m n board row0 rest Hrect Hboard) as [Hn Hm].
  assert (Forall (fun c => 1 <= c <= Z.of_nat n) (free_of row0)) as Hcols.
  { rewrite <-Hn. apply free_of_in_range. }
  destruct (win_or_block_found m n board k num_players (free_of row0) player
              Hrect Hm Hcols) as (found & Hfound & Hin & Hwin & Hblock).
  destruct (random_choice_spec draw (free_of row0) Hne) as (r & Hr & Hdraw).
  assert (∃ column,
             column ∈ free_of row0
             ∧ choose_column_medium draw k num_players board player
               = Ok column
             ∧ (∀ c, found = Some c → column = c)
             ∧ (found = None → column = r)) as (column & Hcolumn & Hchoose & Hsome & Hnone).
  { unfold choose_column_medium.
    assert (get_free_columns board = Ok (free_of row0)) as ->
      by by rewrite Hboard.
    cbn [mbind result_bind].
    rewrite Hfound. cbn [mbind result_bind].
    destruct found as [c|].
    - pose proof (Hin c eq_refl) as Hc.
      destruct (Z.eqb_spec c 0) as [->|_].
      { apply free_column_in_range in Hc. lia. }
      exists c. split_and!; [done..|congruence|done].
    - exists r. split_and!; [by eapply list_elem_of_lookup_2|done..]. }
  destruct (drop_chosen_free m n board row0 rest player column Hrect Hboard
              Hcolumn) as [Hdrop Hchosen].
  exists column. split_and!; [done..| | | |].
  - unfold cpu_player_medium. by rewrite Hchoose.
  - intros c Hc. pose proof (Hsome c (Hwin c Hc)) as ->. split; [done|].
    destruct Hc as (i & _ & Hw & _).
    by apply (wins_dropped m n board row0 rest k player c Hrect Hboard).
  - intros Hno Hnp c Hc. by apply Hsome, Hblock.
  - intros Heq. rewrite Hfound in Heq. injection Heq as ->.
    by rewrite (Hnone eq_refl).
Qed.

Lemma cpu_player_medium_plays_witness :
  ∃ column,
    column ∈ free_of [0; 0; 0]
    ∧ drop_piece [[0; 0; 0]; [1; 1; 0]] 1 column
      = (dropped [[0; 0; 0]; [1; 1; 0]] 1 column, Ok true)
    ∧ cpu_player_medium 0 3 2 [[0; 0; 0]; [1; 1; 0]] 1
      = (dropped [[0; 0; 0]; [1; 1; 0]] 1 column, Ok column)
    ∧ (∀ c, first_win 3 [[0; 0; 0]; [1; 1; 0]] 1 (free_of [0; 0; 0]) c →
         column = c
         ∧ end_of_game 3 (dropped [[0; 0; 0]; [1; 1; 0]] 1 column) = Ok 1)
    ∧ (no_win 3 [[0; 0; 0]; [1; 1; 0]] 1 (free_of [0; 0; 0]) → 2 <= 2 →
       ∀ c, first_win 3 [[0; 0; 0]; [1; 1; 0]] (next_player 2 1)
              (free_of [0; 0; 0]) c →
            column = c)
    ∧ (win_or_block_column 3 2 [[0; 0; 0]; [1; 1; 0]] (free_of [0; 0; 0]) 1
       = Ok None →
       free_of [0; 0; 0] !! (0 mod length (free_of [0; 0; 0]%Z))%nat
       = Some column).
Proof.
  apply (cpu_player_medium_plays 2 3 [[0; 0; 0]; [1; 1; 0]] [0; 0; 0]
           [[1; 1; 0]] 3 2 1 0).
  - split; [reflexivity|]. repeat constructor.
  - reflexivity.
  - vm_compute. discriminate.
Defined.

(** The keys of the free columns, when [win_or_block_column] finds no
    column. *)
Lemma hard_keys m n board row0 rest k num_players player :
  rect m n board → board = row0 :: rest →
  valid_cells num_players board → 1 <= player <= num_players →
  win_or_block_column k num_players board (free_of row0) player = Ok None →
  ∀ c, c ∈ free_of row0 →
    ∃ score,
      column_score k num_players board player c = Ok score
      ∧ (loses k num_players board player c → score = (false, []))
      ∧ (¬ loses k num_players board player c → score.1 = true)
      ∧ hard_key k num_players board player (Z.of_nat n) c
        = Ok (score, center_distance_key (Z.of_nat n) c).
Proof.
  intros Hrect Hboard Hvalid Hplayer Hnone c Hc.
  pose proof (win_or_block_none_short_runs m n board row0 rest k num_players
                player Hrect Hboard Hvalid Hplayer Hnone) as Hshort.
  destruct (column_score_spec m n board row0 rest k num_players player c
              Hrect Hboard Hc) as (score & Hscore & Hlose & Hkeep).
  - by apply Hshort.
  - intros o Ho _. by apply Hshort.
  - exists score. split_and!; [done..| |].
    + intros Hn. by destruct (Hkeep Hn) as (counts & -> & _).
    + unfold hard_key. by rewrite Hscore.
Qed.

Lemma choose_column_hard_total m n board row0 rest k num_players player :
  rect m n board → board = row0 :: rest →
  valid_cells num_players board → 1 <= player <= num_players →
  free_of row0 ≠ [] →
  ∃ found column,
    win_or_block_column k num_players board (free_of row0) player = Ok found
    ∧ column ∈ free_of row0
    ∧ choose_column_hard k num_players board player = Ok column
    ∧ (∀ c, found = Some c → column = c)
    ∧ (found = None →
       py_max (hard_key k num_players board player (Z.of_nat n))
         (free_of row0) = Ok column).
Proof.
  intros Hrect Hboard Hvalid Hplayer Hne.
  destruct (row0_length m n board row0 rest Hrect Hboard) as [Hn Hm].
  assert (Forall (fun c => 1 <= c <= Z.of_nat n) (free_of row0)) as Hcols.
  { rewrite <-Hn. apply free_of_in_range. }
  destruct (win_or_block_found m n board k num_players (free_of row0) player
              Hrect Hm Hcols) as (found & Hfound & Hin & _).
  exists found. destruct found as [c|].
  - pose proof (Hin c eq_refl) as Hc. exists c.
    split_and!; [done..| |congruence|done].
    unfold choose_column_hard.
    rewrite (py_get_0 board row0) by by rewrite Hboard.
    cbn [mbind result_bind].
    assert (get_free_columns board = Ok (free_of row0)) as ->
      by by rewrite Hboard.
    cbn [mbind result_bind]. rewrite Hfound. cbn [mbind result_bind].
    destruct (Z.eqb_spec c 0) as [->|_]; [|done].
    apply free_column_in_range in Hc. lia.
  - destruct (py_max_spec (hard_key k num_players board player (Z.of_nat n))
                (free_of row0) Hne)
      as (before & column & val & after & Hsplit & Hmax & _).
    { intros c Hc.
      destruct (hard_keys m n board row0 rest k num_players player Hrect
                  Hboard Hvalid Hplayer Hfound c Hc) as (score & _ & _ & _ & H).
      eauto. }
    exists column. split_and!; [done| | |done|done].
    + rewrite Hsplit. apply elem_of_app. right. by left.
    + by rewrite (choose_column_hard_max m n board row0 rest k num_players
                    player Hrect Hboard Hfound).
Qed.

(** [cpu_player_hard] on a rectangular board of valid cells with a free
    column never raises: it drops into a free column and returns it; it
    takes the first column that wins at once, and then the game is won;
    failing that, the first column with which the next player would
    win. *)
Theorem cpu_player_hard_plays m n board row0 rest k num_players player :
  rect m n board → board = row0 :: rest →
  valid_cells num_players board → 1 <= player <= num_players →
  free_of row0 ≠ [] →
  ∃ column,
    column ∈ free_of row0
    ∧ drop_piece board player column = (dropped board player column, Ok true)
    ∧ cpu_player_hard k num_players board player
      = (dropped board player column, Ok column)
    ∧ (∀ c, first_win k board player (free_of row0) c →
         column = c ∧ end_of_game k (dropped board player column) = Ok player)
    ∧ (no_win k board player (free_of row0) → 2 <= num_players →
       ∀ c, first_win k board (next_player num_players player)
              (free_of row0) c →
            column = c).
Proof.
  intros Hrect Hboard Hvalid Hplayer Hne.
  destruct (row0_length m n board row0 rest Hrect Hboard) as [Hn Hm].
  assert (Forall (fun c => 1 <= c <= Z.of_nat n) (free_of row0)) as Hcols.
  { rewrite <-Hn. apply free_of_in_range. }
  destruct (choose_column_hard_total m n board row0 rest k num_players player
              Hrect Hboard Hvalid Hplayer Hne)
    as (found & column & Hfound & Hcolumn & Hchoose & Hsome & _).
  destruct (win_or_block_found m n board k num_players (free_of row0) player
              Hrect Hm Hcols) as (found' & Hfound' & _ & Hwin & Hblock).
  assert (found' = found) as -> by congruence.
  destruct (cpu_player_hard_drops m n board row0 rest k num_players player
              column Hrect Hboard Hcolumn Hchoose) as [Hdrop Hcpu].
  exists column. split_and!; [done..| |].
  - intros c Hc. pose proof (Hsome c (Hwin c Hc)) as ->. split; [done|].
    destruct Hc as (i & _ & Hw & _).
    by apply (wins_dropped m n board row0 rest k player c Hrect Hboard).
  - intros Hno Hnp c Hc. by apply Hsome, Hblock.
Qed.

Lemma cpu_player_hard_plays_witness :
  ∃ column,
    column ∈ free_of [0; 0; 0]
    ∧ drop_piece [[0; 0; 0]; [1; 1; 0]] 1 column
      = (dropped [[0; 0; 0]; [1; 1; 0]] 1 column, Ok true)
    ∧ cpu_player_hard 3 2 [[0; 0; 0]; [1; 1; 0]] 1
      = (dropped [[0; 0; 0]; [1; 1; 0]] 1 column, Ok column)
    ∧ (∀ c, first_win 3 [[0; 0; 0]; [1; 1; 0]] 1 (free_of [0; 0; 0]) c →
         column = c
         ∧ end_of_game 3 (dropped [[0; 0; 0]; [1; 1; 0]] 1 column) = Ok 1)
    ∧ (no_win 3 [[0; 0; 0]; [1; 1; 0]] 1 (free_of [0; 0; 0]) → 2 <= 2 →
       ∀ c, first_win 3 [[0; 0; 0]; [1; 1; 0]] (next_player 2 1)
              (free_of [0; 0; 0]) c →
            column = c).
Proof.
  apply (cpu_player_hard_plays 2 3 [[0; 0; 0]; [1; 1; 0]] [0; 0; 0]
           [[1; 1; 0]] 3 2 1).
  - split; [reflexivity|]. repeat constructor.
  - reflexivity.
  - repeat (constructor; try lia).
  - lia.
  - vm_compute. discriminate.
Defined.

(** When [win_or_block_column] finds no column, [cpu_player_hard] gives
    an opponent a winning drop only if every free column does. *)
Theorem cpu_player_hard_avoids_loss m n board row0 rest k num_players
    player :
  rect m n board → board = row0 :: rest →
  valid_cells num_players board → 1 <= player <= num_players →
  free_of row0 ≠ [] →
  win_or_block_column k num_players board (free_of row0) player = Ok None →
  ∃ column,
    column ∈ free_of row0
    ∧ cpu_player_hard k num_players board player
      = (dropped board player column, Ok column)
    ∧ (loses k num_players board player column →
       ∀ c, c ∈ free_of row0 → loses k num_players board player c).
Proof.
  intros Hrect Hboard Hvalid Hplayer Hne Hnone.
  pose proof (hard_keys m n board row0 rest k num_players player Hrect Hboard
                Hvalid Hplayer Hnone) as Hkeys.
  destruct (py_max_spec (hard_key k num_players board player (Z.of_nat n))
              (free_of row0) Hne)
    as (before & column & val & after & Hsplit & Hmax & Hval & Hb & Ha).
  { intros c Hc. destruct (Hkeys c Hc) as (score & _ & _ & _ & H). eauto. }
  assert (column ∈ free_of row0) as Hcolumn.
  { rewrite Hsplit. apply elem_of_app. right. by left. }
  pose proof (choose_column_hard_max m n board row0 rest k num_players player
                Hrect Hboard Hnone) as Hchoose.
  rewrite Hmax in Hchoose.
  destruct (cpu_player_hard_drops m n board row0 rest k num_players player
              column Hrect Hboard Hcolumn Hchoose) as [_ Hcpu].
  exists column. split_and!; [done..|].
  intros Hloses c Hc.
  destruct (loses_decidable m n board row0 rest k num_players player c
              Hrect Hboard Hc) as [|Hkeep]; [done|]. exfalso.
  destruct (Hkeys column Hcolumn) as (score & _ & Hlose & _ & Hkey).
  rewrite (Hlose Hloses) in Hkey.
  destruct (Hkeys c Hc) as (score' & _ & _ & Htrue & Hkey').
  specialize (Htrue Hkeep). destruct score' as [flag counts].
  simpl in Htrue. subst flag.
  assert (val = ((false, []), center_distance_key (Z.of_nat n) column)) as ->
    by congruence.
  rewrite Hsplit in Hc.
  apply elem_of_app in Hc as [Hc|[->|Hc]%elem_of_cons].
  - destruct (Hb c Hc) as (val' & Hval' & Hgt).
    assert (val' = ((true, counts), center_distance_key (Z.of_nat n) c))
      as -> by congruence.
    by vm_compute in Hgt.
  - by destruct (Hkeep Hloses).
  - destruct (Ha c Hc) as (val' & Hval' & Hgt).
    assert (val' = ((true, counts), center_distance_key (Z.of_nat n) c))
      as -> by congruence.
    unfold key_gt, score_eq, score_gt in Hgt. simpl in Hgt. done.
Qed.

Lemma cpu_player_hard_avoids_loss_witness :
  ∃ column,
    column ∈ free_of [0; 0; 0; 0; 0]
    ∧ cpu_player_hard 4 2
        [[0; 0; 0; 0; 0]; [2; 2; 0; 2; 0]; [1; 2; 0; 1; 0]] 1
      = (dropped [[0; 0; 0; 0; 0]; [2; 2; 0; 2; 0]; [1; 2; 0; 1; 0]] 1 column,
         Ok column)
    ∧ (loses 4 2 [[0; 0; 0; 0; 0]; [2; 2; 0; 2; 0]; [1; 2; 0; 1; 0]] 1 column →
       ∀ c, c ∈ free_of [0; 0; 0; 0; 0] →
            loses 4 2 [[0; 0; 0; 0; 0]; [2; 2; 0; 2; 0]; [1; 2; 0; 1; 0]] 1 c).
Proof.
  apply (cpu_player_hard_avoids_loss 3 5
           [[0; 0; 0; 0; 0]; [2; 2; 0; 2; 0]; [1; 2; 0; 1; 0]]
           [0; 0; 0; 0; 0] [[2; 2; 0; 2; 0]; [1; 2; 0; 1; 0]] 4 2 1).
  - split; [reflexivity|]. repeat constructor.
  - reflexivity.
  - repeat (constructor; try lia).
  - lia.
  - vm_compute. discriminate.
  - vm_compute. reflexivity.
Defined.

(** ** A game between the CPU players *)

Lemma end_of_game_states m n board k num_players row0 :
  rect m n board → board !! 0%nat = Some row0 →
  valid_cells num_players board →
  ∃ state,
    end_of_game k board = Ok state
    ∧ ((state = GAME_NOT_OVER ∧ 0 ∈ row0)
       ∨ state = DRAW
       ∨ 1 <= state <= num_players).
Proof.
  intros Hrect Hrow0 Hvalid.
  assert (0 < m)%nat as Hm.
  { apply lookup_lt_Some in Hrow0. destruct Hrect. lia. }
  destruct (pieces_in_a_row_spec m n board Hrect Hm)
    as (runs & Hruns & _ & Hiff).
  rewrite (end_of_game_rect board k runs row0 Hruns Hrow0).
  eexists. split; [done|].
  destruct (find (long_enough k) runs) as [[p ps]|] eqn:Hfind.
  - right. right.
    apply find_first in Hfind as (i & Hi & _).
    apply list_elem_of_lookup_2, Hiff in Hi.
    destruct Hi as (start & d & [|len] & _ & Hps & Hlen & Hp & Hcells & _);
      [lia|]. simpl in *.
    specialize (Hcells start). rewrite Hps in Hcells.
    assert (start ∈ segment start d (S len)) as Hin.
    { apply elem_of_segment. exists 0%nat. split; [lia|].
      destruct start; unfold pos_on; simpl; f_equal; lia. }
    specialize (Hcells Hin). unfold cell_at in Hcells.
    destruct (_ && _); [|done].
    apply cell_Some in Hcells as (row & Hrow & Hx).
    pose proof (Forall_lookup_1 _ _ _ _ Hvalid Hrow) as Hr.
    pose proof (Forall_lookup_1 _ _ _ _ Hr Hx) as Hb. simpl in Hb. lia.
  - destruct (contains_zero row0) eqn:E; [left|by right; left].
    split; [done|]. by apply contains_zero_spec.
Qed.

Lemma count_if_nonneg {A} (f : A → bool) (l : list A) : 0 <= count_if f l.
Proof. induction l as [|x l IH]; simpl; [done|]. destruct (f x); lia. Qed.

Lemma count_if_elem {A} (f : A → bool) (l : list A) x :
  x ∈ l → f x = true → 1 <= count_if f l.
Proof.
  intros Hin Hf. induction l as [|y l IH]; [by apply elem_of_nil in Hin|].
  simpl. apply elem_of_cons in Hin as [<-|Hin].
  - rewrite Hf. pose proof (count_if_nonneg f l). lia.
  - specialize (IH Hin). destruct (f y); lia.
Qed.

Lemma empty_cells_top (row0 : list Z) rest :
  0 ∈ row0 → 1 <= empty_cells (row0 :: rest).
Proof.
  intros Hin. unfold empty_cells. simpl. rewrite count_if_app.
  pose proof (count_if_elem (fun x => x =? 0) row0 0 Hin eq_refl).
  pose proof (count_if_nonneg (fun x => x =? 0) (mjoin rest)). lia.
Qed.

Lemma free_of_nonempty (row0 : list Z) : 0 ∈ row0 → free_of row0 ≠ [].
Proof.
  intros [i Hi]%list_elem_of_lookup Hnil.
  assert (Z.of_nat i + 1 ∈ free_of row0) as Hin.
  { apply elem_of_free_of. split; [lia|].
    by replace (Z.to_nat (Z.of_nat i + 1 - 1)) with i by lia. }
  rewrite Hnil in Hin. by apply elem_of_nil in Hin.
Qed.

(** The board after a drop in a free column. *)
Lemma dropped_board m n board row0 rest num_players player column :
  rect m n board → board = row0 :: rest → column ∈ free_of row0 →
  valid_cells num_players board → 0 <= player <= num_players →
  rect m n (dropped board player column)
  ∧ valid_cells num_players (dropped board player column)
  ∧ empty_cells (dropped board player column)
    = empty_cells board - (if player =? 0 then 0 else 1).
Proof.
  intros Hrect Hboard Hfree Hvalid Hplayer.
  destruct (dropped_rect m n board row0 rest player column Hrect Hboard Hfree)
    as [_ Hrect'].
  destruct (drop_chosen_free m n board row0 rest player column Hrect Hboard
              Hfree) as [Hdrop _].
  destruct (drop_piece_true_shape _ _ _ _ Hdrop)
    as (above & row & below & i & Habove & Hrow & Hshape).
  rewrite Hshape. split_and!; [by rewrite <-Hshape| |].
  - apply valid_cells_insert_row; [|done]. by rewrite <-Habove.
  - rewrite Habove. by apply empty_cells_insert.
Qed.

Lemma choose_column_medium_total m n board row0 rest k num_players player
    draw :
  rect m n board → board = row0 :: rest → free_of row0 ≠ [] →
  ∃ column,
    column ∈ free_of row0
    ∧ choose_column_medium draw k num_players board player = Ok column.
Proof.
  intros Hrect Hboard Hne.
  destruct (row0_length m n board row0 rest Hrect Hboard) as [Hn Hm].
  assert (Forall (fun c => 1 <= c <= Z.of_nat n) (free_of row0)) as Hcols.
  { rewrite <-Hn. apply free_of_in_range. }
  destruct (win_or_block_found m n board k num_players (free_of row0) player
              Hrect Hm Hcols) as (found & Hfound & Hin & _).
  destruct (random_choice_spec draw (free_of row0) Hne) as (r & Hr & Hdraw).
  unfold choose_column_medium.
  assert (get_free_columns board = Ok (free_of row0)) as ->
    by by rewrite Hboard.
  cbn [mbind result_bind]. rewrite Hfound. cbn [mbind result_bind].
  destruct found as [c|].
  - pose proof (Hin c eq_refl) as Hc.
    destruct (Z.eqb_spec c 0) as [->|_].
    { apply free_column_in_range in Hc. lia. }
    by exists c.
  - exists r. split; [by eapply list_elem_of_lookup_2|done].
Qed.

(** One turn of the game of [hard_vs_medium]. *)
Lemma cpu_turn m n board row0 rest player draw :
  rect m n board → board = row0 :: rest →
  valid_cells Connect4.NUM_PLAYERS board →
  1 <= player <= Connect4.NUM_PLAYERS →
  free_of row0 ≠ [] →
  ∃ column,
    column ∈ free_of row0
    ∧ (if player =? 1
       then cpu_player_medium draw Connect4.K Connect4.NUM_PLAYERS board
              player
       else cpu_player_hard Connect4.K Connect4.NUM_PLAYERS board player)
      = (dropped board player column, Ok column).
Proof.
  intros Hrect Hboard Hvalid Hplayer Hne.
  destruct (player =? 1).
  - destruct (choose_column_medium_total m n board row0 rest Connect4.K
                Connect4.NUM_PLAYERS player draw Hrect Hboard Hne)
      as (column & Hcolumn & Hchoose).
    exists column. split; [done|].
    unfold cpu_player_medium. rewrite Hchoose.
    by apply (drop_chosen_free m n board row0 rest).
  - destruct (choose_column_hard_total m n board row0 rest Connect4.K
                Connect4.NUM_PLAYERS player Hrect Hboard Hvalid Hplayer Hne)
      as (found & column & _ & Hcolumn & Hchoose & _).
    exists column. split; [done|].
    by apply (cpu_player_hard_drops m n board row0 rest).
Qed.

Lemma game_loop_terminates m n fuel draws turn board player :
  rect m n board → valid_cells Connect4.NUM_PLAYERS board →
  1 <= player <= Connect4.NUM_PLAYERS →
  end_of_game Connect4.K board = Ok GAME_NOT_OVER →
  empty_cells board <= Z.of_nat fuel →
  ∃ state,
    Util.game_loop fuel draws turn board player = Ok state
    ∧ (state = DRAW ∨ 1 <= state <= Connect4.NUM_PLAYERS).
Proof.
  revert turn board player.
  induction fuel as [|fuel IH];
    intros turn board player Hrect Hvalid Hplayer Hstate Hfuel.
  all: destruct board as [|row0 rest]; [by vm_compute in Hstate|].
  all: destruct (end_of_game_states m n (row0 :: rest) Connect4.K
                   Connect4.NUM_PLAYERS row0 Hrect eq_refl Hvalid)
         as (state & Hstate' & Hcases).
  all: assert (state = GAME_NOT_OVER) as -> by congruence.
  all: destruct Hcases as [[_ Hzero]|[?|?]]; [|done|unfold GAME_NOT_OVER in *; lia].
  all: pose proof (empty_cells_top row0 rest Hzero) as Hempty.
  { lia. }
  destruct (cpu_turn m n (row0 :: rest) row0 rest player (draws turn) Hrect
              eq_refl Hvalid Hplayer (free_of_nonempty row0 Hzero))
    as (column & Hcolumn & Hturn).
  cbn [Util.game_loop]. rewrite Hturn. cbn [mbind result_bind].
  destruct (dropped_board m n (row0 :: rest) row0 rest Connect4.NUM_PLAYERS
              player column Hrect eq_refl Hcolumn Hvalid)
    as (Hrect' & Hvalid' & Hempty'); [lia|].
  destruct (lookup_lt_is_Some_2 (dropped (row0 :: rest) player column) 0)
    as [top Htop].
  { destruct Hrect' as [-> _]. destruct Hrect as [<- _]. simpl. lia. }
  destruct (end_of_game_states m n _ Connect4.K Connect4.NUM_PLAYERS top
              Hrect' Htop Hvalid') as (state & Hend & Hcases).
  rewrite Hend. cbn [mbind result_bind].
  destruct (Z.eqb_spec state GAME_NOT_OVER) as [->|Hne].
  - apply (IH _ _ _ Hrect' Hvalid'); [|done|].
    + unfold Connect4.NUM_PLAYERS in *.
      assert (player = 1 ∨ player = 2) as [->| ->] by lia; by vm_compute.
    + rewrite Hempty'. destruct (Z.eqb_spec player 0); lia.
  - exists state. split; [done|].
    destruct Hcases as [[? _]|[?|?]]; [done|by left|by right].
Qed.

(** The game of [hard_vs_medium] ends, whatever is drawn: no call
    raises, and within 42 turns, one for each cell of the board,
    [end_of_game] returns a winner or a draw. *)
Theorem hard_vs_medium_terminates (draws : nat → nat) (fuel : nat) :
  (42 <= fuel)%nat →
  ∃ state,
    Util.hard_vs_medium fuel draws = Ok state
    ∧ (state = DRAW ∨ state = 1 ∨ state = 2).
Proof.
  intros Hfuel.
  destruct (game_loop_terminates 6 7 fuel draws 0
              (create_board Connect4.NUM_ROWS Connect4.NUM_COLS) 1)
    as (state & Hstate & Hcases).
  - apply create_board_rect.
  - repeat (constructor; try done).
  - done.
  - by vm_compute.
  - assert (empty_cells (create_board Connect4.NUM_ROWS Connect4.NUM_COLS)
            = 42) as -> by by vm_compute.
    lia.
  - exists state. split; [done|]. unfold Connect4.NUM_PLAYERS in Hcases. lia.
Qed.

Lemma hard_vs_medium_terminates_witness :
  ∃ state,
    Util.hard_vs_medium 42 (fun _ => 0%nat) = Ok state
    ∧ (state = DRAW ∨ state = 1 ∨ state = 2).
Proof. apply (hard_vs_medium_terminates (fun _ => 0%nat) 42). lia. Defined.

(** ** The rows of a new board are distinct objects *)

Lemma create_rows_spec (h : gmap nat (list Z)) (num_rows : nat) row :
  ∃ h' ls,
    Alloc.create_rows h num_rows row = (h', ls)
    ∧ (∀ l, l ∈ dom h → h' !! l = h !! l)
    ∧ Forall (fun l => l ∉ dom h) ls
    ∧ NoDup ls
    ∧ Store.contents h' ls = replicate num_rows row.
Proof.
  revert h. induction num_rows as [|num_rows IH]; intros h; simpl.
  { exists h, []. split_and!; [done..|constructor|done]. }
  set (l := fresh (dom h)).
  assert (l ∉ dom h) as Hl by apply is_fresh.
  destruct (IH (<[l:=row]> h)) as (h' & ls & -> & Hkeep & Hfresh & Hnd & Hcont).
  exists h', (l :: ls).
  assert (l ∉ ls) as Hnotin.
  { intros Hin. apply (proj1 (Forall_forall _ _) Hfresh l Hin).
    rewrite dom_insert_L. apply elem_of_union. left.
    by apply elem_of_singleton. }
  split_and!; [done| | | |].
  - intros l' Hl'. rewrite Hkeep.
    + apply lookup_insert_ne. intros ->. done.
    + rewrite dom_insert_L. apply elem_of_union. by right.
  - constructor; [done|].
    eapply Forall_impl; [exact Hfresh|]. simpl. intros l' Hl' Hin.
    apply Hl'. rewrite dom_insert_L. apply elem_of_union. by right.
  - by constructor.
  - unfold Store.contents in *. rewrite fmap_cons, Hcont. simpl. f_equal.
    rewrite Hkeep.
    + by rewrite lookup_insert_eq.
    + rewrite dom_insert_L. apply elem_of_union. left.
      by apply elem_of_singleton.
Qed.

(** [create_board] allocates one object for each row: the rows are
    distinct, none is an object of the store before, nothing of that
    store is changed, and the board holds zeros.  So a drop into the new
    board changes what one row holds, as the drop on values does, and no
    other object. *)
Theorem create_board_rows_distinct (h : gmap nat (list Z))
    (num_rows num_cols : Z) :
  ∃ h1 board,
    Alloc.create_board h num_rows num_cols = (h1, board)
    ∧ NoDup board
    ∧ Forall (fun l => l ∉ dom h) board
    ∧ (∀ l, l ∈ dom h → h1 !! l = h !! l)
    ∧ Store.contents h1 board = create_board num_rows num_cols
    ∧ ∀ player column,
        ∃ h2 r,
          Store.drop_piece h1 board player column = (h2, r)
          ∧ drop_piece (create_board num_rows num_cols) player column
            = (Store.contents h2 board, r)
          ∧ (∀ l, l ∉ board → h2 !! l = h1 !! l).
Proof.
  unfold Alloc.create_board.
  destruct (create_rows_spec h (Z.to_nat num_rows)
              (replicate (Z.to_nat num_cols) 0))
    as (h1 & board & -> & Hkeep & Hfresh & Hnd & Hcont).
  exists h1, board. split_and!; [done..|].
  intros player column.
  destruct (store_drop_piece_refines h1 board player column Hnd)
    as (h2 & r & Hdrop & Hrefines & Hframe).
  exists h2, r. split_and!; [done| |done].
  unfold create_board. by rewrite <-Hcont.
Qed.

(** ** The order of the turns *)

(** [player % num_players + 1]: the turns go round the players
    [1 .. num_players]; after [num_players] turns it is the same player's
    turn again, and not before. *)
Theorem next_player_cycle (num_players player : Z) :
  1 <= player <= num_players →
  1 <= next_player num_players player <= num_players
  ∧ next_player num_players player
    = (if player =? num_players then 1 else player + 1)
  ∧ Nat.iter (Z.to_nat num_players) (next_player num_players) player = player
  ∧ ∀ i : nat, (0 < i)%nat → Z.of_nat i < num_players →
      Nat.iter i (next_player num_players) player ≠ player.
Proof.
  intros Hp.
  assert (0 < num_players) as Hn by lia.
  split; [|split; [|split]].
  - unfold next_player.
    pose proof (Z.mod_pos_bound player num_players Hn). lia.
  - unfold next_player. destruct (Z.eqb_spec player num_players) as [->|Hne].
    + by rewrite Z_mod_same_full.
    + rewrite Z.mod_small by lia. done.
  - destruct (Z.to_nat num_players) as [|i] eqn:E; [lia|].
    rewrite next_player_iter by done.
    replace (player + Z.of_nat i) with (player - 1 + 1 * num_players) by lia.
    rewrite Z_mod_plus_full, Z.mod_small by lia. lia.
  - intros [|i] Hi Hlt; [lia|].
    rewrite next_player_iter by done. intros Heq.
    assert (player + Z.of_nat i < num_players
            ∨ num_players <= player + Z.of_nat i) as [Hsmall|Hlarge] by lia.
    + rewrite Z.mod_small in Heq by lia. lia.
    + replace (player + Z.of_nat i)
        with (player + Z.of_nat i - num_players + 1 * num_players) in Heq
        by lia.
      rewrite Z_mod_plus_full, Z.mod_small in Heq by lia. lia.
Qed.

Lemma next_player_cycle_witness :
  1 <= next_player 3 3 <= 3
  ∧ next_player 3 3 = (if 3 =? 3 then 1 else 3 + 1)
  ∧ Nat.iter (Z.to_nat 3) (next_player 3) 3 = 3
  ∧ ∀ i : nat, (0 < i)%nat → Z.of_nat i < 3 →
      Nat.iter i (next_player 3) 3 ≠ 3.
Proof. apply (next_player_cycle 3 3). lia. Defined.

(** ** Short winning lengths *)

Lemma find_ext {A} (f g : A → bool) (l : list A) :
  (∀ x, x ∈ l → f x = g x) → find f l = find g l.
Proof.
  induction l as [|x l IH]; intros H; simpl; [done|].
  rewrite <-(H x) by (by left). rewrite IH; [done|].
  intros y Hy. apply H. by right.
Qed.

(** A run has at least two pieces, so with [k <= 2] the game is decided
    as with [k = 2]: a lone piece never wins, not even for [k = 1], and
    the player of the first run found is the winner. *)
Theorem end_of_game_short_k m n board k :
  rect m n board → (0 < m)%nat → k <= 2 →
  end_of_game k board = end_of_game 2 board
  ∧ ∃ runs row0,
      pieces_in_a_row board = (runs, None)
      ∧ board !! 0%nat = Some row0
      ∧ end_of_game k board
        = Ok (match runs with
              | (player, _) :: _ => player
              | [] => if contains_zero row0 then GAME_NOT_OVER else DRAW
              end).
Proof.
  intros Hrect Hm Hk.
  destruct (pieces_in_a_row_spec m n board Hrect Hm)
    as (runs & Hruns & _ & Hiff).
  destruct (lookup_lt_is_Some_2 board 0) as [row0 Hrow0].
  { destruct Hrect. lia. }
  assert (∀ k', k' <= 2 →
            ∀ run, run ∈ runs → long_enough k' run = true) as Hlong.
  { intros k' Hk' run Hrun. apply long_enough_spec.
    pose proof (run_length_ge_2 m n board run Hrect Hm) as Hge.
    rewrite Hruns in Hge. specialize (Hge Hrun). lia. }
  rewrite !(end_of_game_rect board _ runs row0 Hruns Hrow0).
  split.
  - rewrite (find_ext (long_enough k) (long_enough 2) runs); [done|].
    intros run Hrun. by rewrite !Hlong by (done || lia).
  - exists runs, row0. split_and!; [done..|].
    destruct runs as [|[player ps] runs]; [done|]. simpl.
    by rewrite (Hlong k Hk (player, ps)) by (by left).
Qed.

Lemma end_of_game_short_k_witness :
  end_of_game 1 [[0; 0]; [1; 0]] = end_of_game 2 [[0; 0]; [1; 0]]
  ∧ ∃ runs row0,
      pieces_in_a_row [[0; 0]; [1; 0]] = (runs, None)
      ∧ [[0; 0]; [1; 0]] !! 0%nat = Some row0
      ∧ end_of_game 1 [[0; 0]; [1; 0]]
        = Ok (match runs with
              | (player, _) :: _ => player
              | [] => if contains_zero row0 then GAME_NOT_OVER else DRAW
              end).
Proof.
  apply (end_of_game_short_k 2 2 [[0; 0]; [1; 0]] 1).
  - split; [reflexivity|]. repeat constructor.
  - lia.
  - lia.
Defined.

(** ** A drop into a full column *)

(** [copy_and_drop_piece] does not look at what [drop_piece] returns: on
    a full column it returns the copy unchanged, without an error, and so
    [end_of_game] on it is [end_of_game] on the board itself. *)
Theorem copy_and_drop_piece_full_column m n board k player column :
  rect m n board → 1 <= column <= Z.of_nat n →
  (∀ r, cell board r (Z.to_nat (column - 1)) ≠ Some 0) →
  drop_piece board player column = (board, Ok false)
  ∧ copy_and_drop_piece board player column = Ok board
  ∧ (first_winning_column k board player [column]
     = state ← end_of_game k board;
       Ok (if state =? player then Some column else None)).
Proof.
  intros Hrect Hcol Hfull.
  set (c := Z.to_nat (column - 1)) in *.
  assert (c < n)%nat as Hc by lia.
  assert (drop_piece board player column = (board, Ok false)) as Hdrop.
  { replace column with (Z.of_nat c + 1) by lia.
    destruct (drop_piece_spec board c (rect_in_range _ _ _ _ Hrect Hc))
      as [[_ Hfalse]|(above & row & below & -> & _ & Hrow & _)]; [done|].
    destruct (Hfull (length above)). apply cell_Some. exists row.
    split; [by apply list_lookup_middle|done]. }
  assert (copy_and_drop_piece board player column = Ok board) as Hcopy.
  { unfold copy_and_drop_piece. by rewrite Hdrop. }
  split_and!; [done..|].
  simpl. rewrite Hcopy. cbn [mbind result_bind].
  destruct (end_of_game k board) as [state| |]; [|done..].
  cbn [mbind result_bind]. by destruct (state =? player).
Qed.

Lemma copy_and_drop_piece_full_column_witness :
  drop_piece [[2; 0]; [1; 0]] 1 1 = ([[2; 0]; [1; 0]], Ok false)
  ∧ copy_and_drop_piece [[2; 0]; [1; 0]] 1 1 = Ok [[2; 0]; [1; 0]]
  ∧ (first_winning_column 2 [[2; 0]; [1; 0]] 1 [1]
     = state ← end_of_game 2 [[2; 0]; [1; 0]];
       Ok (if state =? 1 then Some 1 else None)).
Proof.
  apply (copy_and_drop_piece_full_column 2 2 [[2; 0]; [1; 0]] 2 1 1).
  - split; [reflexivity|]. repeat constructor.
  - lia.
  - intros [|[|r]]; vm_compute; discriminate.
Defined.

(** ** A won game stays won *)

Lemma all_eq_keep x w (l l' : list Z) :
  x ≠ 0 → Forall2 (fun a b => b = a ∨ a = 0) l l' →
  all_eq w x l = true → all_eq w x l' = true.
Proof.
  intros Hx H. revert w.
  induction H as [|a b l l' Hab _ IH]; intros [|w]; simpl; try done.
  intros [Ha%Z.eqb_eq Hl]%andb_true_iff. rewrite IH by done.
  subst a. destruct Hab as [Hb|Hb]; [|done]. subst b. by rewrite Z.eqb_refl.
Qed.

Lemma first_window_elem w (l : list Z) x :
  first_window w l = Some x → x ≠ 0 ∧ x ∈ l.
Proof.
  induction l as [|a l IH]; simpl; [done|].
  destruct (negb (a =? 0) && all_eq w a (a :: l)) eqn:E.
  - intros [= <-]. apply andb_true_iff in E as [Ha _].
    split; [|by left]. by destruct (Z.eqb_spec a 0).
  - intros H. destruct (IH H). split; [done|by right].
Qed.

Lemma first_window_keep w (l l' : list Z) x :
  Forall2 (fun a b => b = a ∨ a = 0) l l' →
  first_window w l = Some x → is_Some (first_window w l').
Proof.
  intros H. induction H as [|a b l l' Hab Hrest IH]; simpl; [done|].
  assert (Forall2 (fun a b => b = a ∨ a = 0) (a :: l) (b :: l')) as Hall.
  { by constructor. }
  destruct (negb (a =? 0) && all_eq w a (a :: l)) eqn:Ea.
  - intros _. apply andb_true_iff in Ea as [Ha Ea].
    assert (a ≠ 0) as Hne by (by destruct (Z.eqb_spec a 0)).
    assert (b = a) as -> by (by destruct Hab).
    by rewrite Ha, (all_eq_keep a w _ _ Hne Hall Ea).
  - intros Hx. destruct (negb (b =? 0) && all_eq w b (b :: l')); [done|].
    by apply IH.
Qed.

Lemma first_some_keep {A B} (g g' : A → option B) (l : list A) y :
  (∀ x y, x ∈ l → g x = Some y → is_Some (g' x)) →
  first_some g l = Some y → is_Some (first_some g' l).
Proof.
  induction l as [|x l IH]; simpl; [done|]. intros H.
  destruct (g x) as [z|] eqn:Hg.
  - intros _. destruct (H x z ltac:(by left) Hg) as [z' ->]. done.
  - intros Hy. destruct (g' x); [done|].
    apply IH; [|done]. intros x' y' Hx'. apply H. by right.
Qed.

Lemma first_some_elem {A B} (g : A → option B) (l : list A) y :
  first_some g l = Some y → ∃ x, x ∈ l ∧ g x = Some y.
Proof.
  induction l as [|x l IH]; simpl; [done|].
  destruct (g x) as [z|] eqn:Hg.
  - intros [= <-]. exists x. split; [by left|done].
  - intros (x' & Hx' & Hy)%IH. exists x'. split; [by right|done].
Qed.

Lemma value_at_valid num_players board p :
  valid_cells num_players board → 0 <= num_players →
  0 <= value_at board p <= num_players.
Proof.
  intros Hvalid Hnp. unfold value_at, cell_at.
  destruct (_ && _); simpl; [|lia].
  destruct (cell board _ _) as [x|] eqn:Hx; simpl; [|lia].
  apply cell_Some in Hx as (row & Hrow & Hx).
  pose proof (Forall_lookup_1 _ _ _ _ Hvalid Hrow) as Hr.
  by pose proof (Forall_lookup_1 _ _ _ _ Hr Hx) as Hb.
Qed.

(** Pieces are never taken away: when [end_of_game] returns a player,
    it returns a player again after any drop in a free column (the first
    long run found may be another one). *)
Theorem win_is_permanent m n board row0 rest k num_players winner player
    column :
  rect m n board → board = row0 :: rest →
  valid_cells num_players board → 1 <= player <= num_players →
  column ∈ free_of row0 →
  end_of_game k board = Ok winner → 1 <= winner →
  ∃ winner',
    end_of_game k (dropped board player column) = Ok winner'
    ∧ 1 <= winner' <= num_players.
Proof.
  intros Hrect Hboard Hvalid Hplayer Hfree Hend Hwinner.
  destruct (row0_length m n board row0 rest Hrect Hboard) as [_ Hm].
  destruct (dropped_board m n board row0 rest num_players player column
              Hrect Hboard Hfree Hvalid) as (Hrect' & Hvalid' & _); [lia|].
  destruct (drop_chosen_free m n board row0 rest player column Hrect Hboard
              Hfree) as [Hdrop _].
  destruct (drop_piece_true_shape _ _ _ _ Hdrop)
    as (above & row & below & i & Habove & Hrow & Hshape).
  assert (∀ p, value_at (dropped board player column) p = value_at board p
               ∨ value_at board p = 0) as Hadds.
  { intros p. rewrite Hshape, Habove.
    pose proof (lookup_lt_Some _ _ _ Hrow) as Hi.
    rewrite (value_at_insert_row above row below i player p Hi).
    pose proof (value_at_insert_row above row below i 0 p Hi) as Hzero.
    rewrite (list_insert_id _ _ _ Hrow) in Hzero.
    case_decide; [right|by left]. by rewrite Hzero. }
  rewrite (end_of_game_owner m n board k row0 Hrect Hm) in Hend
    by by rewrite Hboard.
  destruct (board_owner k (Z.of_nat m) (Z.of_nat n) board) as [q|] eqn:Hq.
  2:{ injection Hend as <-. destruct (contains_zero row0);
      unfold GAME_NOT_OVER, DRAW in Hwinner; lia. }
  destruct (lookup_lt_is_Some_2 (dropped board player column) 0)
    as [top Htop].
  { destruct Hrect'. lia. }
  rewrite (end_of_game_owner m n _ k top Hrect' Hm Htop).
  assert (∀ spec, Forall2 (fun a b => b = a ∨ a = 0)
                    (line_cells board spec).*2
                    (line_cells (dropped board player column) spec).*2)
    as Hlines.
  { intros spec. unfold line_cells, cells_on.
    rewrite <-!list_fmap_compose. apply Forall2_fmap, Forall_Forall2_diag.
    apply Forall_forall. intros p _. simpl. apply Hadds. }
  destruct (first_some_keep _
              (fun spec =>
                 first_window (win_length k)
                   (line_cells (dropped board player column) spec).*2)
              _ _ (fun spec y _ H =>
                     first_window_keep (win_length k) _ _ y (Hlines spec) H)
              Hq) as [q' Hq'].
  unfold board_owner. rewrite Hq'. exists q'. split; [done|].
  apply first_some_elem in Hq' as (spec & _ & Hwindow).
  apply first_window_elem in Hwindow as [Hne Hin].
  unfold line_cells, cells_on in Hin.
  rewrite <-list_fmap_compose in Hin.
  apply list_elem_of_fmap in Hin as (p & -> & _). simpl in *.
  pose proof (value_at_valid num_players _ p Hvalid' ltac:(lia)). lia.
Qed.

Lemma win_is_permanent_witness :
  ∃ winner',
    end_of_game 2 (dropped [[0; 0]; [1; 1]] 2 1) = Ok winner'
    ∧ 1 <= winner' <= 2.
Proof.
  apply (win_is_permanent 2 2 [[0; 0]; [1; 1]] [0; 0] [[1; 1]] 2 2 1 2 1).
  - split; [reflexivity|]. repeat constructor.
  - reflexivity.
  - repeat (constructor; try lia).
  - lia.
  - apply elem_of_free_of. split; [lia|reflexivity].
  - reflexivity.
  - lia.
Defined.

(** ** The tiebreak of the hard player *)

Lemma center_distance_key_lt (num_cols c c' : Z) :
  (center_distance_key num_cols c' < center_distance_key num_cols c)%Q
  ↔ Z.abs (num_cols + 1 - 2 * c) < Z.abs (num_cols + 1 - 2 * c').
Proof.
  unfold center_distance_key, Qlt, Qminus, Qplus, Qopp, Qdiv, Qmult, Qinv,
    Qabs, inject_Z. simpl. lia.
Qed.

Lemma key_gt_same_score (score : bool * list (list Z)) (num_cols c c' : Z) :
  key_gt (score, center_distance_key num_cols c)
    (score, center_distance_key num_cols c') = true
  ↔ Z.abs (num_cols + 1 - 2 * c) < Z.abs (num_cols + 1 - 2 * c').
Proof.
  rewrite key_gt_cases. simpl. rewrite center_distance_key_lt. split.
  - by intros [[_ H]|[H _]].
  - intros H. by left.
Qed.

(** When [win_or_block_column] finds no column and [column_score] is the
    same for every free column, [cpu_player_hard] plays the free column
    nearest the middle of the board, and of two equally near the one on
    the left. *)
Theorem cpu_player_hard_prefers_center m n board row0 rest k num_players
    player :
  rect m n board → board = row0 :: rest →
  valid_cells num_players board → 1 <= player <= num_players →
  free_of row0 ≠ [] →
  win_or_block_column k num_players board (free_of row0) player = Ok None →
  (∀ c c', c ∈ free_of row0 → c' ∈ free_of row0 →
           column_score k num_players board player c
           = column_score k num_players board player c') →
  ∃ before column after,
    free_of row0 = before ++ column :: after
    ∧ cpu_player_hard k num_players board player
      = (dropped board player column, Ok column)
    ∧ (∀ c, c ∈ before →
         Z.abs (Z.of_nat n + 1 - 2 * column) < Z.abs (Z.of_nat n + 1 - 2 * c))
    ∧ (∀ c, c ∈ after →
         Z.abs (Z.of_nat n + 1 - 2 * column)
         <= Z.abs (Z.of_nat n + 1 - 2 * c)).
Proof.
  intros Hrect Hboard Hvalid Hplayer Hne Hnone Hsame.
  pose proof (hard_keys m n board row0 rest k num_players player Hrect Hboard
                Hvalid Hplayer Hnone) as Hkeys.
  destruct (py_max_spec (hard_key k num_players board player (Z.of_nat n))
              (free_of row0) Hne)
    as (before & column & val & after & Hsplit & Hmax & Hval & Hb & Ha).
  { intros c Hc. destruct (Hkeys c Hc) as (score & _ & _ & _ & H). eauto. }
  assert (column ∈ free_of row0) as Hcolumn.
  { rewrite Hsplit. apply elem_of_app. right. by left. }
  pose proof (choose_column_hard_max m n board row0 rest k num_players player
                Hrect Hboard Hnone) as Hchoose.
  rewrite Hmax in Hchoose.
  destruct (cpu_player_hard_drops m n board row0 rest k num_players player
              column Hrect Hboard Hcolumn Hchoose) as [_ Hcpu].
  destruct (Hkeys column Hcolumn) as (score & Hscore & _ & _ & Hkey).
  assert (val = (score, center_distance_key (Z.of_nat n) column)) as ->
    by congruence.
  assert (∀ c, c ∈ free_of row0 →
               hard_key k num_players board player (Z.of_nat n) c
               = Ok (score, center_distance_key (Z.of_nat n) c)) as Hkey_c.
  { intros c Hc. destruct (Hkeys c Hc) as (score' & Hscore' & _ & _ & ->).
    rewrite (Hsame c column Hc Hcolumn), Hscore in Hscore'. congruence. }
  exists before, column, after. split_and!; [done..| |].
  - intros c Hc. destruct (Hb c Hc) as (val' & Hval' & Hgt).
    rewrite Hkey_c in Hval'.
    2:{ rewrite Hsplit. apply elem_of_app. by left. }
    injection Hval' as <-. by apply key_gt_same_score in Hgt.
  - intros c Hc. destruct (Ha c Hc) as (val' & Hval' & Hgt).
    rewrite Hkey_c in Hval'.
    2:{ rewrite Hsplit. apply elem_of_app. right. by right. }
    injection Hval' as <-.
    apply not_true_iff_false in Hgt. rewrite key_gt_same_score in Hgt. lia.
Qed.

Lemma cpu_player_hard_prefers_center_witness :
  ∃ before column after,
    free_of [0; 0; 0] = before ++ column :: after
    ∧ cpu_player_hard 4 2 [[0; 0; 0]; [0; 0; 0]; [0; 0; 0]] 1
      = (dropped [[0; 0; 0]; [0; 0; 0]; [0; 0; 0]] 1 column, Ok column)
    ∧ (∀ c, c ∈ before →
         Z.abs (Z.of_nat 3 + 1 - 2 * column) < Z.abs (Z.of_nat 3 + 1 - 2 * c))
    ∧ (∀ c, c ∈ after →
         Z.abs (Z.of_nat 3 + 1 - 2 * column)
         <= Z.abs (Z.of_nat 3 + 1 - 2 * c)).
Proof.
  apply (cpu_player_hard_prefers_center 3 3
           [[0; 0; 0]; [0; 0; 0]; [0; 0; 0]] [0; 0; 0]
           [[0; 0; 0]; [0; 0; 0]] 4 2 1).
  - split; [reflexivity|]. repeat constructor.
  - reflexivity.
  - repeat (constructor; try lia).
  - lia.
  - vm_compute. discriminate.
  - vm_compute. reflexivity.
  - intros c c' Hc Hc'. vm_compute in Hc, Hc'.
    repeat (apply elem_of_cons in Hc as [->|Hc]);
      try (by apply elem_of_nil in Hc);
      repeat (apply elem_of_cons in Hc' as [->|Hc']);
      try (by apply elem_of_nil in Hc'); by vm_compute.
Defined.

(** ** A recorded game played again *)

(** The column a CPU player returns is the column it dropped into. *)
Lemma cpu_turn_dropped board board' player column draw :
  (if player =? 1
   then cpu_player_medium draw Connect4.K Connect4.NUM_PLAYERS board player
   else cpu_player_hard Connect4.K Connect4.NUM_PLAYERS board player)
  = (board', Ok column) →
  drop_piece board player column = (board', Ok true).
Proof.
  destruct (player =? 1).
  - unfold cpu_player_medium.
    destruct (choose_column_medium _ _ _ _ _) as [chosen| |]; [|by intros [=]..].
    unfold drop_chosen.
    destruct (drop_piece board player chosen) as [b [[]| |]] eqn:Hdrop;
      cbn [mbind result_bind]; intros Heq; try discriminate.
    by injection Heq as <- <-.
  - unfold cpu_player_hard.
    destruct (choose_column_hard _ _ _ _) as [chosen| |]; [|by intros [=]..].
    destruct (drop_piece board player chosen) as [b [[]| |]] eqn:Hdrop;
      cbn [mbind result_bind]; intros Heq; try discriminate.
    by injection Heq as <- <-.
Qed.

Lemma record_loop_replays fuel draws turn board player plays0 plays state :
  Watch.record_loop fuel draws turn board player plays0 = Ok (plays, state) →
  ∃ new,
    plays = plays0 ++ new
    ∧ (length new <= fuel)%nat
    ∧ Watch.watch_loop fuel new board player = Watch.Returned state [].
Proof.
  revert turn board player plays0.
  induction fuel as [|fuel IH]; intros turn board player plays0; [done|].
  cbn [Watch.record_loop].
  destruct (if player =? 1 then _ else _) as [board' r] eqn:Hturn.
  destruct r as [column| |]; [|done..]. cbn [mbind result_bind].
  apply cpu_turn_dropped in Hturn.
  destruct (end_of_game Connect4.K board') as [s| |] eqn:Hend; [|done..].
  cbn [mbind result_bind].
  destruct (s =? GAME_NOT_OVER) eqn:Hs.
  - intros (new & -> & Hlen & Hwatch)%IH.
    exists (column :: new). split_and!.
    + by rewrite <-app_assoc.
    + simpl. lia.
    + cbn [Watch.watch_loop]. by rewrite Hturn, Hend, Hs.
  - intros [= <- <-]. exists [column]. split_and!; [done|simpl; lia|].
    cbn [Watch.watch_loop]. by rewrite Hturn, Hend, Hs.
Qed.

Lemma record_of_game fuel draws turn board player plays0 state :
  Util.game_loop fuel draws turn board player = Ok state →
  ∃ plays,
    Watch.record_loop fuel draws turn board player plays0 = Ok (plays, state).
Proof.
  revert turn board player plays0.
  induction fuel as [|fuel IH]; intros turn board player plays0; [done|].
  cbn [Util.game_loop Watch.record_loop].
  destruct (if player =? 1 then _ else _) as [board' r].
  destruct r as [column| |]; [|done..]. cbn [mbind result_bind].
  destruct (end_of_game Connect4.K board') as [s| |]; [|done..].
  cbn [mbind result_bind].
  destruct (s =? GAME_NOT_OVER).
  - apply IH.
  - intros [= <-]. by eexists.
Qed.

(** The columns that the loop of [save_hard_cpu_losses] records, played
    again by [load_and_watch_game], are all accepted by [drop_piece],
    are read to the last, and end the game in the state it was recorded
    with; and every game is recorded within 42 turns. *)
Theorem recorded_game_replays (draws : nat → nat) (fuel : nat) :
  (42 <= fuel)%nat →
  ∃ plays state,
    Watch.record_game fuel draws = Ok (plays, state)
    ∧ Util.hard_vs_medium fuel draws = Ok state
    ∧ (length plays <= fuel)%nat
    ∧ Watch.watch_game fuel plays = Watch.Returned state [].
Proof.
  intros Hfuel.
  destruct (game_loop_terminates 6 7 fuel draws 0
              (create_board Connect4.NUM_ROWS Connect4.NUM_COLS) 1)
    as (state & Hstate & _).
  { apply create_board_rect. }
  { repeat (constructor; try done). }
  { done. }
  { by vm_compute. }
  { assert (empty_cells (create_board Connect4.NUM_ROWS Connect4.NUM_COLS)
            = 42) as -> by by vm_compute.
    lia. }
  destruct (record_of_game fuel draws 0 _ 1 [] state Hstate)
    as [plays Hplays].
  destruct (record_loop_replays _ _ _ _ _ _ _ _ Hplays)
    as (new & -> & Hlen & Hwatch).
  by exists new, state.
Qed.

Lemma recorded_game_replays_witness :
  ∃ plays state,
    Watch.record_game 42 (fun _ => 0%nat) = Ok (plays, state)
    ∧ Util.hard_vs_medium 42 (fun _ => 0%nat) = Ok state
    ∧ (length plays <= 42)%nat
    ∧ Watch.watch_game 42 plays = Watch.Returned state [].
Proof. apply (recorded_game_replays (fun _ => 0%nat) 42). lia. Defined.
